(** * POSWS: an offline-first point of sale

    A shallow embedding of the data layer of the application
    (schema migration, sync outbox, pull-merge, cart and fee engine,
    checkout) and the properties its specification states about it.

    Sources embedded here:
    - [src/unnamed/part_000], lines 1-3385: the most complete revision
      of the application (referred to below as "the application");
    - [src/unnamed/part_000], lines 3386-6244: an earlier revision, of
      which [completeTransaction] is embedded ([Module RevB]);
    - [src/index.js]: a revision whose [completeTransaction] groups its
      writes in one IndexedDB transaction ([Module IndexJs]).

    Conventions of the model.
    - A JavaScript number is modelled as an exact rational ([Qc]);
      quantities, stock counts and primary keys are integers ([Z]).
      Rounding of IEEE doubles is outside the model.
    - An IndexedDB object store with [keyPath: 'id', autoIncrement: true]
      is a [Table]: rows in ascending key order and the key generator.
    - An [await]ed sequence of store operations is a sequence of state
      transformations; a single IndexedDB transaction is a function that
      yields the committed state, or the unchanged state when it aborts. *)

From Stdlib Require Import QArith Qcanon.
From stdpp Require Import numbers strings gmap fin_maps list.

Local Open Scope Z_scope.
Set Warnings "-clear-no-such-hyp".

(** ** Numbers *)

Definition qz (z : Z) : Qc := Q2Qc (inject_Z z).

(** [arr.reduce((sum, x) => sum + f(x), 0)] and the [forEach] loops that
    accumulate with [+=] are left folds starting from 0. *)
Definition reduceSum {A} (f : A → Qc) (l : list A) : Qc :=
  fold_left (λ sum x, (sum + f x)%Qc) l (qz 0).

(** The mathematical sum, by structural recursion. *)
Fixpoint sumQc (l : list Qc) : Qc :=
  match l with
  | [] => qz 0
  | x :: r => (x + sumQc r)%Qc
  end.

(** ** Object stores with generated keys *)

Record Table (A : Type) := mkTable {
  rows : list (Z * A);      (* ascending by key, as [getAll] returns them *)
  nextKey : Z               (* the key generator's current number *)
}.
Arguments mkTable {A} _ _.
Arguments rows {A} _.
Arguments nextKey {A} _.

Definition emptyTable {A} : Table A := mkTable [] 1.

Section TableOps.
Context {A : Type}.

Fixpoint lookupRow (k : Z) (l : list (Z * A)) : option A :=
  match l with
  | [] => None
  | (k', v) :: r => if k' =? k then Some v else lookupRow k r
  end.

(** Insert-or-replace keeping the rows sorted by key. *)
Fixpoint upsert (k : Z) (v : A) (l : list (Z * A)) : list (Z * A) :=
  match l with
  | [] => [(k, v)]
  | (k', v') :: r =>
      if k <? k' then (k, v) :: l
      else if k =? k' then (k, v) :: r
      else (k', v') :: upsert k v r
  end.

Definition removeRow (k : Z) (l : list (Z * A)) : list (Z * A) :=
  filter (λ kv, kv.1 ≠ k) l.

(** [store.get(key)] *)
Definition tget (t : Table A) (k : Z) : option A := lookupRow k (rows t).

(** [store.getAll()] *)
Definition tgetAll (t : Table A) : list (Z * A) := rows t.

(** [store.put(value)] for a value that carries its key: the key
    generator is advanced past an explicit key that reaches it. *)
Definition tputAt (t : Table A) (k : Z) (v : A) : Table A :=
  mkTable (upsert k v (rows t)) (Z.max (nextKey t) (k + 1)).

(** [store.put(value)] / [store.add(value)] for a value without key:
    the generator supplies it. Returns the table and the new key. *)
Definition tputNew (t : Table A) (v : A) : Table A * Z :=
  (mkTable (upsert (nextKey t) v (rows t)) (nextKey t + 1), nextKey t).

(** [store.delete(key)] *)
Definition tdelete (t : Table A) (k : Z) : Table A :=
  mkTable (removeRow k (rows t)) (nextKey t).
End TableOps.

(** ** Cart and fee engine (part_000, lines 1439-1737) *)

(** A product as the cart and the checkout read it. The properties the
    functions below do not touch (barcode, category, image, purchase
    price) are carried along unchanged by the code and are left out. *)
Record Product := mkProduct {
  p_name : string;
  p_price : Qc;
  p_stock : Z;
  p_discountPercentage : option Qc;   (* may be absent on a product *)
  p_updatedAt : string
}.

(** The object literal pushed by [addToCart]. *)
Record CartItem := mkItem {
  item_id : Z;
  item_name : string;
  item_price : Qc;               (* original price *)
  item_effectivePrice : Qc;      (* price after discount *)
  item_discountPercentage : Qc;
  item_quantity : Z;
  item_stock : Z                 (* product.stock when the line was created *)
}.

(** A record of the [fees] store, with its key. *)
Record Fee := mkFee {
  fee_id : Z;
  fee_name : string;
  fee_type : string;             (* 'percentage' or 'fixed' *)
  fee_value : Qc;
  fee_isDefault : bool;
  fee_isTax : bool;
  fee_createdAt : string
}.

Record Cart := mkCart {
  items : list CartItem;
  fees : list Fee
}.

Global Instance Product_eq_dec : EqDecision Product.
Proof. solve_decision. Defined.
Global Instance CartItem_eq_dec : EqDecision CartItem.
Proof. solve_decision. Defined.
Global Instance Fee_eq_dec : EqDecision Fee.
Proof. solve_decision. Defined.

(** What the user is told ([showToast]) by a cart operation. *)
Inductive CartToast :=
  | Added                (* '... ditambahkan ke keranjang' *)
  | OutOfStock           (* 'Produk habis atau tidak ditemukan.' *)
  | InsufficientStock    (* 'Stok ... tidak mencukupi.' *)
  | Silent.

(** [cart.items.find(item => item.id === productId)] *)
Definition findItem (productId : Z) (l : list CartItem) : option CartItem :=
  List.find (λ item, item_id item =? productId) l.

(** In-place update of the object that [find] returned. *)
Fixpoint updateFound (productId : Z) (f : CartItem → CartItem)
    (l : list CartItem) : list CartItem :=
  match l with
  | [] => []
  | item :: r =>
      if item_id item =? productId then f item :: r
      else item :: updateFound productId f r
  end.

Definition setQuantity (q : Z) (item : CartItem) : CartItem :=
  mkItem (item_id item) (item_name item) (item_price item)
         (item_effectivePrice item) (item_discountPercentage item)
         q (item_stock item).

(** [product.discountPercentage && product.discountPercentage > 0] *)
Definition hasDiscount (p : Product) : bool :=
  match p_discountPercentage p with
  | Some d => bool_decide (0 < d)%Qc
  | None => false
  end.

(** [product.price * (1 - product.discountPercentage / 100)] *)
Definition discounted (price d : Qc) : Qc :=
  (price * (1 - d / qz 100))%Qc.

Definition newItem (productId : Z) (p : Product) : CartItem :=
  mkItem productId (p_name p) (p_price p)
         (if hasDiscount p
          then discounted (p_price p) (default (qz 0) (p_discountPercentage p))
          else p_price p)
         (default (qz 0) (p_discountPercentage p))
         1 (p_stock p).

(** [addToCart(productId)], lines 1440-1479. The product is read from
    the store at every call. *)
Definition addToCart (products : Table Product) (cart : Cart) (productId : Z)
    : Cart * CartToast :=
  match tget products productId with
  | None => (cart, OutOfStock)
  | Some product =>
      if p_stock product =? 0 then (cart, OutOfStock)
      else
        match findItem productId (items cart) with
        | Some existingItem =>
            if item_quantity existingItem <? p_stock product
            then (mkCart (updateFound productId
                            (setQuantity (item_quantity existingItem + 1))
                            (items cart))
                         (fees cart), Added)
            else (cart, InsufficientStock)
        | None =>
            (mkCart (items cart ++ [newItem productId product]) (fees cart),
             Added)
        end
  end.

(** [updateCartItemQuantity(productId, change)], lines 1482-1495. *)
Definition updateCartItemQuantity (cart : Cart) (productId change : Z)
    : Cart * CartToast :=
  match findItem productId (items cart) with
  | None => (cart, Silent)
  | Some item =>
      let newQuantity := item_quantity item + change in
      if (0 <? newQuantity) && (newQuantity <=? item_stock item)
      then (mkCart (updateFound productId (setQuantity newQuantity) (items cart))
                   (fees cart), Silent)
      else if item_stock item <? newQuantity
      then (cart, InsufficientStock)
      else (mkCart (filter (λ i, item_id i ≠ productId) (items cart))
                   (fees cart), Silent)
  end.

(** [cart.items = []] of [clearCart] and [startNewTransaction]; the
    default fees are re-applied by [applyDefaultFees] below. *)
Definition emptyCart : Cart := mkCart [] [].

(** *** Fees in the cart (lines 1685-1737)

    [allFees] is the result of [getAllFromDB('fees')]: the records of the
    store in key order, each carrying its primary key [fee_id]. *)

(** [applyDefaultFees()], lines 1701-1704. *)
Definition applyDefaultFees (allFees : list Fee) (cart : Cart) : Cart :=
  mkCart (items cart) (filter (λ fee, fee_isDefault fee = true) allFees).

(** [applySelectedFees()], lines 1685-1698; [selectedFeeIds] are the ids
    of the ticked check boxes. *)
Definition applySelectedFees (allFees : list Fee) (selectedFeeIds : list Z)
    (cart : Cart) : Cart :=
  mkCart (items cart) (filter (λ fee, fee_id fee ∈ selectedFeeIds) allFees).

(** [new Map(allFees.map(f => [f.id, f]))]: a later entry for the same
    key replaces the earlier one. *)
Definition allFeesMap (allFees : list Fee) : gmap Z Fee :=
  fold_left (λ m f, <[fee_id f := f]> m) allFees ∅.

(** Step 1 of [reconcileCartFees]: the [forEach] over [cart.fees];
    the accumulator is [(reconciledFees, addedFeeIds)]. *)
Definition keepCartFee (m : gmap Z Fee) (acc : list Fee * gset Z) (cartFee : Fee)
    : list Fee * gset Z :=
  match m !! fee_id cartFee with
  | Some dbFee => (acc.1 ++ [dbFee], {[fee_id cartFee]} ∪ acc.2)
  | None => acc
  end.

(** Step 2: the [forEach] over [allFees]. *)
Definition addDefaultFee (acc : list Fee * gset Z) (dbFee : Fee)
    : list Fee * gset Z :=
  if fee_isDefault dbFee && bool_decide (fee_id dbFee ∉ acc.2)
  then (acc.1 ++ [dbFee], {[fee_id dbFee]} ∪ acc.2)
  else acc.

(** [reconcileCartFees()], lines 1710-1737. *)
Definition reconcileCartFees (allFees : list Fee) (cart : Cart) : Cart :=
  let m := allFeesMap allFees in
  let kept := fold_left (keepCartFee m) (fees cart) ([], ∅) in
  let reconciled := fold_left addDefaultFee allFees kept in
  mkCart (items cart) reconciled.1.

(** *** Totals *)

(** [fee.type === 'percentage' ? base * (fee.value / 100) : fee.value] *)
Definition feeAmount (base : Qc) (fee : Fee) : Qc :=
  if String.eqb (fee_type fee) "percentage"
  then (base * (fee_value fee / qz 100))%Qc
  else fee_value fee.

Record DisplayTotals := mkDisplay {
  d_subtotal : Qc;
  d_feeAmounts : list Qc;
  d_total : Qc
}.

(** The totals of [updateCartDisplay()], lines 1526-1551. *)
Definition updateCartDisplay (cart : Cart) : DisplayTotals :=
  let subtotal :=
    reduceSum (λ item, (item_effectivePrice item * qz (item_quantity item))%Qc)
              (items cart) in
  let totalFees := reduceSum (feeAmount subtotal) (fees cart) in
  mkDisplay subtotal (map (feeAmount subtotal) (fees cart))
            (subtotal + totalFees)%Qc.

(** [finalTotal] of [showPaymentModal()], lines 1745-1751, which is also
    [total] of the [cashPaidInput] handler, lines 1773-1778. *)
Definition paymentTotal (cart : Cart) : Qc :=
  let subtotal :=
    reduceSum (λ item, (item_effectivePrice item * qz (item_quantity item))%Qc)
              (items cart) in
  let totalFees := reduceSum (feeAmount subtotal) (fees cart) in
  (subtotal + totalFees)%Qc.

(** ** Checkout (part_000, lines 1739-1909) *)

Record TxItem := mkTxItem {
  ti_id : Z;
  ti_name : string;
  ti_quantity : Z;
  ti_price : Qc;
  ti_effectivePrice : Qc;
  ti_discountPercentage : Qc
}.

(** [{ ...fee, amount: feeAmount }] *)
Record TxFee := mkTxFee {
  tf_fee : Fee;
  tf_amount : Qc
}.

Record Transaction := mkTransaction {
  tx_items : list TxItem;
  tx_subtotal : Qc;
  tx_totalDiscount : Qc;
  tx_fees : list TxFee;
  tx_total : Qc;
  tx_cashPaid : Qc;
  tx_change : Qc;
  tx_date : string
}.

Global Instance TxItem_eq_dec : EqDecision TxItem.
Proof. solve_decision. Defined.
Global Instance TxFee_eq_dec : EqDecision TxFee.
Proof. solve_decision. Defined.
Global Instance Transaction_eq_dec : EqDecision Transaction.
Proof. solve_decision. Defined.

(** The payload of an outbox entry: a snapshot of the entity. *)
Inductive Payload :=
  | PTransaction (id : Z) (t : Transaction)
  | PProduct (id : Z) (p : Product).

Record SyncEntry := mkEntry {
  se_action : string;
  se_payload : Payload;
  se_timestamp : string
}.

(** The stores the checkout and the stock buttons work on. *)
Record ShopDB := mkShop {
  products : Table Product;
  transactions : Table Transaction;
  sync_queue : Table SyncEntry
}.

(** [queueSyncAction(action, payload)], lines 372-383: the entry is put
    into [sync_queue]. The sync cycle it then triggers when online is a
    separate asynchronous activity ([syncWithServer] below). *)
Definition queueSyncAction (now : string) (action : string) (payload : Payload)
    (db : ShopDB) : ShopDB :=
  mkShop (products db) (transactions db)
         (tputNew (sync_queue db) (mkEntry action payload now)).1.

(** [parseFloat(input.value) || 0]: [None] stands for a text that does
    not parse to a number (such as the empty text). *)
Definition cashPaidOf (cashPaidInput : option Qc) : Qc :=
  default (qz 0) cashPaidInput.

(** The [transaction] object built by [completeTransaction()],
    lines 1814-1852. *)
Definition buildTransaction (now : string) (cashPaidInput : option Qc)
    (cart : Cart) : Transaction :=
  let cashPaid := cashPaidOf cashPaidInput in
  let subtotal :=
    reduceSum (λ item, (item_price item * qz (item_quantity item))%Qc)
              (items cart) in
  let totalDiscount :=
    reduceSum (λ item,
                 let discountAmount :=
                   (item_price item * (item_discountPercentage item / qz 100))%Qc in
                 (discountAmount * qz (item_quantity item))%Qc)
              (items cart) in
  let subtotalAfterDiscount := (subtotal - totalDiscount)%Qc in
  let calculatedFees :=
    map (λ fee, mkTxFee fee (feeAmount subtotalAfterDiscount fee)) (fees cart) in
  let totalFeeAmount := reduceSum (feeAmount subtotalAfterDiscount) (fees cart) in
  let total := (subtotalAfterDiscount + totalFeeAmount)%Qc in
  let change := (cashPaid - total)%Qc in
  mkTransaction
    (map (λ item, mkTxItem (item_id item) (item_name item) (item_quantity item)
                           (item_price item) (item_effectivePrice item)
                           (item_discountPercentage item))
         (items cart))
    subtotal totalDiscount calculatedFees total cashPaid change now.

(** One turn of the [for (const item of cart.items)] loop, lines 1858-1866. *)
Definition updateStock (now : string) (db : ShopDB) (item : CartItem) : ShopDB :=
  match tget (products db) (item_id item) with
  | Some product =>
      let product' :=
        mkProduct (p_name product) (p_price product)
                  (p_stock product - item_quantity item)
                  (p_discountPercentage product) now in
      queueSyncAction now "UPDATE_PRODUCT" (PProduct (item_id item) product')
        (mkShop (tputAt (products db) (item_id item) product')
                (transactions db) (sync_queue db))
  | None => db
  end.

(** [completeTransaction()], lines 1804-1880: every [putToDB] runs in a
    transaction of its own, one after the other. The result is the new
    database and [currentReceiptTransaction]. *)
Definition completeTransaction (now : string) (cashPaidInput : option Qc)
    (cart : Cart) (db : ShopDB) : ShopDB * (Z * Transaction) :=
  let transaction := buildTransaction now cashPaidInput cart in
  let '(txs, addedId) := tputNew (transactions db) transaction in
  let db1 := queueSyncAction now "CREATE_TRANSACTION"
               (PTransaction addedId transaction)
               (mkShop (products db) txs (sync_queue db)) in
  let db2 := fold_left (updateStock now) (items cart) db1 in
  (db2, (addedId, transaction)).


(** [decreaseStock(productId)], lines 1118-1148. *)
Definition decreaseStock (now : string) (productId : Z) (db : ShopDB) : ShopDB :=
  match tget (products db) productId with
  | None => db
  | Some product =>
      if p_stock product <=? 0 then db
      else
        let product' :=
          mkProduct (p_name product) (p_price product) (p_stock product - 1)
                    (p_discountPercentage product) now in
        queueSyncAction now "UPDATE_PRODUCT" (PProduct productId product')
          (mkShop (tputAt (products db) productId product')
                  (transactions db) (sync_queue db))
  end.

(** *** The payment dialog (lines 1740-1801 and 1882-1909)

    [completeTransaction] is bound to the button
    [completeTransactionButton]; a disabled button does not deliver
    clicks. The dialog state below is what decides whether, and with
    which cash amount, [completeTransaction] runs. *)
Record PaymentUI := mkUI {
  cashPaidInput : option Qc;     (* the text of the cash field, parsed *)
  completeDisabled : bool;       (* completeTransactionButton.disabled *)
  paymentModalOpen : bool
}.

Record App := mkApp {
  app_cart : Cart;
  app_db : ShopDB;
  app_allFees : list Fee;        (* the content of the [fees] store *)
  app_ui : PaymentUI
}.

(** [showPaymentModal()], lines 1740-1759: the cash field is cleared;
    the button is left as it is. *)
Definition showPaymentModal (app : App) : App :=
  match items (app_cart app) with
  | [] => app
  | _ :: _ =>
      mkApp (app_cart app) (app_db app) (app_allFees app)
            (mkUI None (completeDisabled (app_ui app)) true)
  end.

(** The [input] listener of the cash field, lines 1771-1801. *)
Definition onCashPaidInput (text : option Qc) (app : App) : App :=
  let cashPaid := cashPaidOf text in
  let change := (cashPaid - paymentTotal (app_cart app))%Qc in
  mkApp (app_cart app) (app_db app) (app_allFees app)
        (mkUI text (negb (bool_decide (0 ≤ change)%Qc))
              (paymentModalOpen (app_ui app))).

(** A click on the button: [completeTransaction()] followed by
    [showReceiptModal()], which closes the payment dialog; the [finally]
    block enables the button again. *)
Definition clickComplete (now : string) (app : App) : App :=
  if paymentModalOpen (app_ui app) && negb (completeDisabled (app_ui app))
  then
    let '(db', _) :=
      completeTransaction now (cashPaidInput (app_ui app)) (app_cart app)
                          (app_db app) in
    mkApp (app_cart app) db' (app_allFees app)
          (mkUI (cashPaidInput (app_ui app)) false false)
  else app.

(** [startNewTransaction()], lines 1900-1909. *)
Definition startNewTransaction (app : App) : App :=
  mkApp (applyDefaultFees (app_allFees app) emptyCart) (app_db app)
        (app_allFees app) (app_ui app).

Inductive UIEvent :=
  | EvAddToCart (productId : Z)
  | EvShowPaymentModal
  | EvCashInput (text : option Qc)
  | EvClickComplete
  | EvStartNewTransaction.

Definition uiStep (now : string) (app : App) (e : UIEvent) : App :=
  match e with
  | EvAddToCart productId =>
      mkApp (addToCart (products (app_db app)) (app_cart app) productId).1
            (app_db app) (app_allFees app) (app_ui app)
  | EvShowPaymentModal => showPaymentModal app
  | EvCashInput text => onCashPaidInput text app
  | EvClickComplete => clickComplete now app
  | EvStartNewTransaction => startNewTransaction app
  end.

Definition uiRun (now : string) (app : App) (es : list UIEvent) : App :=
  fold_left (uiStep now) es app.

(** ** The checkout of [src/index.js] (lines 634-953) *)
Module IndexJs.

(** [{ ...product, quantity: 1 }] *)
Record CartItem := mkItem {
  id : Z;
  product : Product;
  quantity : Z
}.

Record Cart := mkCart {
  items : list CartItem;
  fees : list Fee
}.

Record Transaction := mkTransaction {
  date : string;
  tx_items : list CartItem;
  subtotal : Qc;
  total : Qc;
  tx_fees : list Fee;
  cashPaid : Qc;
  change : Qc;
  receiptNumber : string
}.

Record DB := mkDB {
  products : Table Product;
  transactions : Table Transaction
}.

(** [calculateTotal()], lines 697-703. *)
Definition calculateTotal (cart : Cart) : Qc :=
  let subtotal :=
    reduceSum (λ item, (p_price (product item) * qz (quantity item))%Qc)
              (items cart) in
  let feeAmount :=
    reduceSum (λ fee, if String.eqb (fee_type fee) "percentage"
                      then (subtotal * fee_value fee / qz 100)%Qc
                      else fee_value fee)
              (fees cart) in
  (subtotal + feeAmount)%Qc.

(** The IndexedDB transaction [tx] over ['transactions'] and
    ['products']: the writes made so far, and whether it was aborted.
    A transaction that is not aborted commits once its requests are
    served. *)
Record IDBTransaction := mkTx {
  transactionStore : Table Transaction;
  productStore : Table Product;
  aborted : bool
}.

Definition commit (db : DB) (tx : IDBTransaction) : DB :=
  if aborted tx then db else mkDB (productStore tx) (transactionStore tx).

(** [getRequest.onsuccess] for one line item, lines 899-909. The second
    component collects the rejections of the update promises; rejecting
    a promise does not touch [tx]. *)
Definition onGetSuccess (acc : IDBTransaction * list Z) (item : CartItem)
    : IDBTransaction * list Z :=
  let '(tx, rejected) := acc in
  match tget (productStore tx) (id item) with
  | Some p =>
      let p' := mkProduct (p_name p) (p_price p) (p_stock p - quantity item)
                          (p_discountPercentage p) (p_updatedAt p) in
      (mkTx (transactionStore tx) (tputAt (productStore tx) (id item) p')
            (aborted tx),
       rejected)
  | None => (tx, rejected ++ [id item])
  end.

Inductive Outcome :=
  | Completed (transactionId : Z)
  | Failed (missingProductId : Z).     (* 'Transaksi gagal: Produk dengan id ... tidak ditemukan.' *)

Global Instance Outcome_eq_dec : EqDecision Outcome.
Proof. solve_decision. Defined.

(** [completeTransaction()], lines 861-953. *)
Definition completeTransaction (now receiptNo : string) (cashPaidValue : Qc)
    (cart : Cart) (db : DB) : DB * Outcome :=
  let total := calculateTotal cart in
  let subtotal :=
    reduceSum (λ item, (p_price (product item) * qz (quantity item))%Qc)
              (items cart) in
  let change := (cashPaidValue - total)%Qc in
  let newTransaction :=
    mkTransaction now (items cart) subtotal total (fees cart)
                  cashPaidValue change receiptNo in
  let tx0 := mkTx (transactions db) (products db) false in
  let '(transactionStore1, transactionId) :=
    tputNew (transactionStore tx0) newTransaction in
  let tx1 := mkTx transactionStore1 (productStore tx0) (aborted tx0) in
  let '(tx2, rejected) := fold_left onGetSuccess (items cart) (tx1, []) in
  (commit db tx2,
   match rejected with
   | [] => Completed transactionId
   | missing :: _ => Failed missing
   end).

End IndexJs.

(** ** The checkout of the earlier revision (part_000, lines 4598-4675) *)
Module RevB.

(** The object literal pushed by this revision's [addToCart]
    (lines 4473-4480): [price] is the discounted price. *)
Record CartItem := mkItem {
  id : Z;
  name : string;
  price : Qc;
  originalPrice : Qc;
  discountPercentage : Qc;
  quantity : Z
}.

Record Cart := mkCart {
  items : list CartItem;
  fees : list Fee
}.

(** [{ ...fee, amount }] *)
Record AppliedFee := mkApplied {
  fee : Fee;
  amount : Qc
}.

Record Transaction := mkTransaction {
  date : string;
  tx_items : list CartItem;
  tx_fees : list AppliedFee;
  subtotal : Qc;
  total : Qc;
  cashPaid : Z;
  change : Qc
}.

(** An outbox entry, reduced to its action and the key of its entity. *)
Record DB := mkDB {
  products : Table Product;
  transactions : Table Transaction;
  sync_queue : Table (string * Z)
}.

Inductive Outcome :=
  | EmptyCart               (* 'Keranjang kosong' *)
  | InsufficientPayment     (* 'Uang yang dibayarkan tidak cukup' *)
  | Committed (transactionId : Z).

Global Instance Outcome_eq_dec : EqDecision Outcome.
Proof. solve_decision. Defined.

Definition feeAmount (subtotal : Qc) (f : Fee) : Qc :=
  if String.eqb (fee_type f) "percentage"
  then (subtotal * (fee_value f / qz 100))%Qc
  else fee_value f.

Definition queueSyncAction (action : string) (entityId : Z) (db : DB) : DB :=
  mkDB (products db) (transactions db) (tputNew (sync_queue db) (action, entityId)).1.

(** [productStore.get(item.id).onsuccess], lines 4653-4663. *)
Definition updateStock (now : string) (db : DB) (item : CartItem) : DB :=
  match tget (products db) (id item) with
  | Some product =>
      let product' :=
        mkProduct (p_name product) (p_price product)
                  (p_stock product - quantity item)
                  (p_discountPercentage product) now in
      queueSyncAction "UPDATE_PRODUCT_STOCK" (id item)
        (mkDB (tputAt (products db) (id item) product')
              (transactions db) (sync_queue db))
  | None => db
  end.

(** [completeTransaction()], lines 4598-4675; [cashPaidInput] is
    [parseInt] of the cash field ([None]: not a number), [allFees] the
    content of the [fees] store for [applyDefaultFees]. *)
Definition completeTransaction (now : string) (cashPaidInput : option Z)
    (allFees : list Fee) (cart : Cart) (db : DB) : DB * Cart * Outcome :=
  match items cart with
  | [] => (db, cart, EmptyCart)
  | _ :: _ =>
      let subtotal :=
        reduceSum (λ item, (price item * qz (quantity item))%Qc) (items cart) in
      let appliedFees := map (λ f, mkApplied f (feeAmount subtotal f)) (fees cart) in
      let total :=
        fold_left (λ total f, (total + feeAmount subtotal f)%Qc) (fees cart) subtotal in
      let cashPaid := default 0 cashPaidInput in
      let change := (qz cashPaid - total)%Qc in
      if bool_decide (qz cashPaid < total)%Qc then (db, cart, InsufficientPayment)
      else
        let newTransaction :=
          mkTransaction now (items cart) appliedFees subtotal total cashPaid change in
        let '(txs, transactionId) := tputNew (transactions db) newTransaction in
        let db1 := queueSyncAction "CREATE_TRANSACTION" transactionId
                     (mkDB (products db) txs (sync_queue db)) in
        let db2 := fold_left (updateStock now) (items cart) db1 in
        (db2, mkCart [] (filter (λ f, fee_isDefault f = true) allFees),
         Committed transactionId)
  end.

End RevB.

(** ** Schema migration and synchronisation (part_000, lines 91-542)

    The migration and the sync engine treat records as open property
    bags ([Object.assign], rest properties, [item.serverId = ...]), so
    here a record is a finite map from property names to values. The
    primary key [id] of a stored record is kept apart from its other
    properties: a stored object is a pair of its key and a [Rec] that
    has no ["id"] entry. *)
Module Sync.

Inductive val :=
  | VUndef
  | VBool (b : bool)
  | VNum (q : Qc)
  | VStr (s : string).

Global Instance val_eq_dec : EqDecision val.
Proof. solve_decision. Defined.

Abbreviation Rec := (gmap string val).

(** [o.f]: a missing property reads as [undefined]. *)
Definition field (o : Rec) (f : string) : val := default VUndef (o !! f).

(** JavaScript truthiness. *)
Definition truthy (v : val) : bool :=
  match v with
  | VUndef => false
  | VBool b => b
  | VNum q => negb (bool_decide (q = 0%Qc))
  | VStr s => negb (String.eqb s "")
  end.

(** An object store: its rows and key generator, and its indexes
    (index name, which is also the indexed property, and [unique]). *)
Record ObjectStore := mkStore {
  tab : Table Rec;
  indexes : list (string * bool)
}.

Definition emptyStore (ixs : list (string * bool)) : ObjectStore :=
  mkStore emptyTable ixs.

(** Only numbers and strings are index keys; a record whose indexed
    property is missing, [undefined] or a boolean is not in the index. *)
Definition indexable (v : val) : bool :=
  match v with
  | VNum _ | VStr _ => true
  | _ => false
  end.

(** Does the row hold the same key [v !! ix] of index [ix] as the record
    [v] that is being stored under primary key [k]? *)
Definition collides (ix : string) (k : Z) (v : Rec) (row : Z * Rec) : bool :=
  negb (row.1 =? k) &&
  match v !! ix, row.2 !! ix with
  | Some a, Some b => indexable a && bool_decide (a = b)
  | _, _ => false
  end.

(** Storing [v] under [k] would break a unique index (ConstraintError). *)
Definition violates (s : ObjectStore) (k : Z) (v : Rec) : bool :=
  existsb (λ ix, ix.2 && existsb (collides ix.1 k v) (rows (tab s)))
          (indexes s).

(** [store.put(value)] where [value.id] is [k]; [None] is the failed
    request. *)
Definition putAt (s : ObjectStore) (k : Z) (v : Rec) : option ObjectStore :=
  if violates s k v then None
  else Some (mkStore (tputAt (tab s) k v) (indexes s)).

(** [store.put(value)] / [store.add(value)] where [value] has no [id]. *)
Definition putNew (s : ObjectStore) (v : Rec) : option ObjectStore :=
  if violates s (nextKey (tab s)) v then None
  else Some (mkStore (tputNew (tab s) v).1 (indexes s)).

(** [store.delete(key)] *)
Definition deleteAt (s : ObjectStore) (k : Z) : ObjectStore :=
  mkStore (tdelete (tab s) k) (indexes s).

(** An entry of [sync_queue]: [{ action, payload, timestamp }]; the
    payload is an entity snapshot, [payload_id] its [id]. *)
Record Task := mkTask {
  action : string;
  payload_id : option Z;
  payload : Rec;
  timestamp : string
}.

Record DB := mkDB {
  objectStoreNames : list string;
  products : ObjectStore;
  transactions : ObjectStore;
  categories : ObjectStore;
  fees : ObjectStore;
  sync_queue : Table Task;
  settings : gmap string val;       (* keyPath 'key': key ↦ value *)
  auto_backup : gmap string val
}.

Definition contains (names : list string) (name : string) : bool :=
  bool_decide (name ∈ names).

(** *** [initDB]: the [onupgradeneeded] handler (lines 127-220) *)

(** The handler is an [async function]: an exception in its body ends
    the body but is not seen by the upgrade transaction, which still
    commits what was done; a failed request, or an exception in a
    request's [onsuccess] callback, aborts the upgrade transaction. *)
Inductive Callback :=
  | CbPopulateCategories     (* productsRequest.onsuccess, lines 172-186 *)
  | CbMovePpn.               (* ppnRequest.onsuccess, lines 204-218 *)

Record Upgrade := mkUpgrade {
  udb : DB;
  callbacks : list Callback;     (* registered, in request order *)
  thrown : bool;                 (* the handler body has ended by an exception *)
  failed : bool                  (* a request has failed: the transaction aborts *)
}.

Definition withDB (u : Upgrade) (d : DB) : Upgrade :=
  mkUpgrade d (callbacks u) (thrown u) (failed u).

Definition createProducts (d : DB) : DB :=
  mkDB (objectStoreNames d ++ ["products"]) (emptyStore [("name", false)])
       (transactions d) (categories d) (fees d) (sync_queue d)
       (settings d) (auto_backup d).

Definition createTransactions (d : DB) : DB :=
  mkDB (objectStoreNames d ++ ["transactions"]) (products d)
       (emptyStore [("date", false)]) (categories d) (fees d) (sync_queue d)
       (settings d) (auto_backup d).

Definition createSettings (d : DB) : DB :=
  mkDB (objectStoreNames d ++ ["settings"]) (products d) (transactions d)
       (categories d) (fees d) (sync_queue d) ∅ (auto_backup d).

Definition createAutoBackup (d : DB) : DB :=
  mkDB (objectStoreNames d ++ ["auto_backup"]) (products d) (transactions d)
       (categories d) (fees d) (sync_queue d) (settings d) ∅.

Definition createCategories (d : DB) : DB :=
  mkDB (objectStoreNames d ++ ["categories"]) (products d) (transactions d)
       (emptyStore [("name", true)]) (fees d) (sync_queue d)
       (settings d) (auto_backup d).

Definition createSyncQueue (d : DB) : DB :=
  mkDB (objectStoreNames d ++ ["sync_queue"]) (products d) (transactions d)
       (categories d) (fees d) emptyTable (settings d) (auto_backup d).

Definition createFees (d : DB) : DB :=
  mkDB (objectStoreNames d ++ ["fees"]) (products d) (transactions d)
       (categories d) (emptyStore []) (sync_queue d)
       (settings d) (auto_backup d).

Definition unless (b : bool) (f : DB → DB) (d : DB) : DB :=
  if b then d else f d.

(** [if (event.oldVersion < 2) { ... }] *)
Definition block2 (u : Upgrade) : Upgrade :=
  let d := udb u in
  let d := unless (contains (objectStoreNames d) "products") createProducts d in
  let d := unless (contains (objectStoreNames d) "transactions") createTransactions d in
  let d := unless (contains (objectStoreNames d) "settings") createSettings d in
  withDB u d.

(** The keys that the rows hold for index [ix]. *)
Definition indexKeys (ix : string) (l : list (Z * Rec)) : list val :=
  filter (λ v, indexable v = true) (map (λ row, field row.2 ix) l).

(** [if (event.oldVersion < 3) { ... }]: a unique index cannot be
    created over rows that share a key. *)
Definition block3 (u : Upgrade) : Upgrade :=
  let d := udb u in
  if contains (objectStoreNames d) "products" then
    if bool_decide ("barcode" ∈ map fst (indexes (products d))) then u
    else
      mkUpgrade
        (mkDB (objectStoreNames d)
              (mkStore (tab (products d)) (indexes (products d) ++ [("barcode", true)]))
              (transactions d) (categories d) (fees d) (sync_queue d)
              (settings d) (auto_backup d))
        (callbacks u) (thrown u)
        (failed u || negb (bool_decide (NoDup (indexKeys "barcode" (rows (tab (products d)))))))
  else u.

(** [if (event.oldVersion < 4) { ... }] *)
Definition block4 (u : Upgrade) : Upgrade :=
  withDB u (unless (contains (objectStoreNames (udb u)) "auto_backup")
                   createAutoBackup (udb u)).

(** [if (event.oldVersion < 5) { ... }]: [transaction.objectStore(name)]
    throws when the store does not exist. *)
Definition block5 (u : Upgrade) : Upgrade :=
  let d := unless (contains (objectStoreNames (udb u)) "categories")
                  createCategories (udb u) in
  if contains (objectStoreNames d) "products"
  then mkUpgrade d (callbacks u ++ [CbPopulateCategories]) (thrown u) (failed u)
  else mkUpgrade d (callbacks u) true (failed u).

(** [if (event.oldVersion < 6) { ... }] *)
Definition block6 (u : Upgrade) : Upgrade :=
  withDB u (unless (contains (objectStoreNames (udb u)) "sync_queue")
                   createSyncQueue (udb u)).

(** [if (event.oldVersion < 7) { ... }], lines 194-203. *)
Definition block7 (u : Upgrade) : Upgrade :=
  let d := unless (contains (objectStoreNames (udb u)) "fees")
                  createFees (udb u) in
  if contains (objectStoreNames d) "settings"
  then mkUpgrade d (callbacks u ++ [CbMovePpn]) (thrown u) (failed u)
  else mkUpgrade d (callbacks u) true (failed u).

(** A block runs when its version test holds and the body has not
    ended by an exception. *)
Definition guarded (oldVersion n : Z) (block : Upgrade → Upgrade) (u : Upgrade)
    : Upgrade :=
  if (oldVersion <? n) && negb (thrown u) then block u else u.

(** [String.prototype.trim], for the white space of ASCII. *)
Fixpoint trimStart (s : string) : string :=
  match s with
  | String c r => if Ascii.is_space c then trimStart r else s
  | EmptyString => EmptyString
  end.

Definition trim (s : string) : string :=
  String.rev (trimStart (String.rev (trimStart s))).

(** [existingCategories.add(x)] on a [Set], which keeps insertion order. *)
Definition setAdd (x : string) (s : list string) : list string :=
  if bool_decide (x ∈ s) then s else s ++ [x].

(** [products.forEach(p => { if (p.category) existingCategories.add(p.category.trim()) })];
    [None] when [trim] is called on a value that is not a string. *)
Fixpoint collectCategories (l : list (Z * Rec)) (s : list string)
    : option (list string) :=
  match l with
  | [] => Some s
  | (_, p) :: r =>
      if truthy (field p "category") then
        match field p "category" with
        | VStr c => collectCategories r (setAdd (trim c) s)
        | _ => None
        end
      else collectCategories r s
  end.

Fixpoint addAll (s : ObjectStore) (names : list string) : option ObjectStore :=
  match names with
  | [] => Some s
  | n :: r =>
      match putNew s {[ "name" := VStr n ]} with
      | Some s' => addAll s' r
      | None => None
      end
  end.

(** [productsRequest.onsuccess], lines 172-186. *)
Definition populateCategories (d : DB) : option DB :=
  match collectCategories (tgetAll (tab (products d))) [] with
  | None => None
  | Some found =>
      let existingCategories :=
        fold_left (λ s c, setAdd c s) ["Makanan"; "Minuman"; "Lainnya"] found in
      match addAll (categories d) existingCategories with
      | None => None
      | Some cs =>
          Some (mkDB (objectStoreNames d) (products d) (transactions d) cs
                     (fees d) (sync_queue d) (settings d) (auto_backup d))
      end
  end.

(** [ppnSetting.value > 0]; a string is converted by the host
    ([toNumber]). *)
Definition positive (toNumber : string → option Qc) (v : val) : bool :=
  match v with
  | VUndef => false
  | VBool b => b
  | VNum q => bool_decide (0 < q)%Qc
  | VStr s => match toNumber s with
              | Some q => bool_decide (0 < q)%Qc
              | None => false
              end
  end.

(** The object literal [ppnFee], lines 207-214. *)
Definition ppnFee (now : string) (value : val) : Rec :=
  {[ "name" := VStr "PPN";
     "type" := VStr "percentage";
     "value" := value;
     "isDefault" := VBool true;
     "isTax" := VBool true;
     "createdAt" := VStr now ]}.

(** [ppnRequest.onsuccess], lines 204-218. The settings record is
    [{ key: 'storePpn', value }]. *)
Definition movePpn (toNumber : string → option Qc) (now : string) (d : DB)
    : option DB :=
  match settings d !! "storePpn" with
  | Some value =>
      if positive toNumber value then
        match putNew (fees d) (ppnFee now value) with
        | Some fs =>
            Some (mkDB (objectStoreNames d) (products d) (transactions d)
                       (categories d) fs (sync_queue d)
                       (delete "storePpn" (settings d)) (auto_backup d))
        | None => None
        end
      else Some d
  | None => Some d
  end.

Definition runCallback (toNumber : string → option Qc) (now : string)
    (d : option DB) (cb : Callback) : option DB :=
  match d with
  | None => None
  | Some d =>
      match cb with
      | CbPopulateCategories => populateCategories d
      | CbMovePpn => movePpn toNumber now d
      end
  end.

(** [request.onupgradeneeded]: the body, then the callbacks of the
    requests it placed. [None] is an aborted upgrade: the database
    stays as it was, at its old version. *)
Definition onupgradeneeded (toNumber : string → option Qc) (now : string)
    (oldVersion : Z) (d : DB) : option DB :=
  let u := mkUpgrade d [] false false in
  let u := guarded oldVersion 2 block2 u in
  let u := guarded oldVersion 3 block3 u in
  let u := guarded oldVersion 4 block4 u in
  let u := guarded oldVersion 5 block5 u in
  let u := guarded oldVersion 6 block6 u in
  let u := guarded oldVersion 7 block7 u in
  if failed u then None
  else fold_left (runCallback toNumber now) (callbacks u) (Some (udb u)).

(** *** The outbox: push phase of [syncWithServer] (lines 400-442) *)

(** [s.includes(needle)] *)
Fixpoint includes (needle s : string) : bool :=
  String.prefix needle s ||
  match s with
  | EmptyString => false
  | String _ r => includes needle r
  end.

(** The answer of the remote call for one task. In the application the
    call is a stand-in that always succeeds; the drain handles both
    answers, so the call is a parameter of the model. *)
Record Response := mkResponse {
  success : bool;
  serverId : val;
  localId : option Z
}.

Definition truthyId (k : option Z) : bool :=
  match k with
  | Some k => negb (k =? 0)
  | None => false
  end.

(** Lines 418-422. *)
Definition storeNameFor (action : string) : string :=
  let storeName := "" in
  let storeName := if includes "PRODUCT" action then "products" else storeName in
  let storeName := if includes "CATEGORY" action then "categories" else storeName in
  let storeName := if includes "TRANSACTION" action then "transactions" else storeName in
  let storeName := if includes "FEE" action then "fees" else storeName in
  storeName.

Definition getStore (d : DB) (storeName : string) : option ObjectStore :=
  if String.eqb storeName "products" then Some (products d)
  else if String.eqb storeName "categories" then Some (categories d)
  else if String.eqb storeName "transactions" then Some (transactions d)
  else if String.eqb storeName "fees" then Some (fees d)
  else None.

Definition setStore (d : DB) (storeName : string) (s : ObjectStore) : DB :=
  if String.eqb storeName "products" then
    mkDB (objectStoreNames d) s (transactions d) (categories d) (fees d)
         (sync_queue d) (settings d) (auto_backup d)
  else if String.eqb storeName "categories" then
    mkDB (objectStoreNames d) (products d) (transactions d) s (fees d)
         (sync_queue d) (settings d) (auto_backup d)
  else if String.eqb storeName "transactions" then
    mkDB (objectStoreNames d) (products d) s (categories d) (fees d)
         (sync_queue d) (settings d) (auto_backup d)
  else if String.eqb storeName "fees" then
    mkDB (objectStoreNames d) (products d) (transactions d) (categories d) s
         (sync_queue d) (settings d) (auto_backup d)
  else d.

Definition withQueue (d : DB) (q : Table Task) : DB :=
  mkDB (objectStoreNames d) (products d) (transactions d) (categories d)
       (fees d) q (settings d) (auto_backup d).

(** Lines 416-431: the server's identity is written onto the local
    record of a creation. [None]: [putToDB] was rejected. *)
Definition writeBack (d : DB) (task : Task) (response : Response) : option DB :=
  if String.prefix "CREATE_" (action task) && truthy (serverId response)
     && truthyId (localId response)
  then
    let storeName := storeNameFor (action task) in
    match getStore d storeName, localId response with
    | Some s, Some k =>
        match tget (tab s) k with
        | Some item =>
            match putAt s k (<["serverId" := serverId response]> item) with
            | Some s' => Some (setStore d storeName s')
            | None => None
            end
        | None => Some d
        end
    | _, _ => Some d
    end
  else Some d.

Inductive SyncEvent :=
  | EvPush (taskId : Z)          (* the remote call for a task *)
  | EvPull (lastSync : val).     (* the fetch of the server's changes *)

(** The loop [for (const task of syncQueue)], lines 406-441. The result
    is the database, the remote calls made, and whether the loop ran
    to its end ([false]: it was left by the [throw]). *)
Fixpoint drain (api : Z → Task → Response) (d : DB) (syncQueue : list (Z * Task))
    (log : list SyncEvent) : DB * list SyncEvent * bool :=
  match syncQueue with
  | [] => (d, log, true)
  | (taskId, task) :: rest =>
      let response := api taskId task in
      let log' := log ++ [EvPush taskId] in
      if success response then
        match writeBack d task response with
        | Some d1 =>
            drain api (withQueue d1 (tdelete (sync_queue d1) taskId)) rest log'
        | None => (d, log', false)
        end
      else (d, log', false)
  end.

(** *** The pull-merge of [syncWithServer] (lines 444-525) *)

Record ServerUpdates := mkUpdates {
  upd_products : list Rec;
  upd_categories : list Rec;
  deleted_products : list val;
  deleted_categories : list val
}.

Section Merge.
(** [new Date(s)] for a string is the host's parser; [None] is an
    invalid date. *)
Context (parseDate : string → option Z).

(** The time value of [new Date(v)]. *)
Definition timeValue (v : val) : option Z :=
  match v with
  | VUndef => None
  | VBool b => Some (if b then 1 else 0)
  | VNum q =>
      let t := Z.quot (Qnum q) (Z.pos (Qden q)) in
      if Z.abs t <=? 8640000000000000 then Some t else None
  | VStr s => parseDate s
  end.

(** [new Date(a) > new Date(b)]; a comparison with an invalid date is
    false. *)
Definition newer (a b : val) : bool :=
  match timeValue a, timeValue b with
  | Some x, Some y => y <? x
  | _, _ => false
  end.

(** [new Map(local.filter(p => p.serverId).map(p => [p.serverId, p]))].
    The values of the map are the objects of the array [local]
    themselves; an entry is the key and the position of its object in
    [local]. *)
Definition serverIdEntries (local : list (Z * Rec)) : list (val * nat) :=
  filter (λ e, truthy e.1 = true)
         (imap (λ i p, (field p.2 "serverId", i)) local).

(** [map.get(k)]: of several entries given for one key, the constructor
    keeps the last. *)
Fixpoint mapGet (entries : list (val * nat)) (k : val) : option nat :=
  match entries with
  | [] => None
  | (k', i) :: r =>
      match mapGet r k with
      | Some j => Some j
      | None => if decide (k' = k) then Some i else None
      end
  end.

(** The state of the merge of one entity kind: the array of local
    objects read before the transaction (mutated in place by
    [Object.assign]) and the store as written so far. *)
Record MergeState := mkMerge {
  snapshot : list (Z * Rec);
  store : ObjectStore
}.

(** The object the map holds for a server identity. *)
Definition localFor (entries : list (val * nat)) (st : MergeState) (sid : val)
    : option (nat * (Z * Rec)) :=
  match mapGet entries sid with
  | Some i => match snapshot st !! i with
              | Some o => Some (i, o)
              | None => None
              end
  | None => None
  end.

(** [Object.assign(local, server, { id: local.id })] on the properties
    other than [id]. *)
Definition assign (local server : Rec) : Rec := delete "id" server ∪ local.

(** [!local.updatedAt || new Date(server.updatedAt) > new Date(local.updatedAt)] *)
Definition shouldOverwrite (local server : Rec) : bool :=
  negb (truthy (field local "updatedAt")) ||
  newer (field server "updatedAt") (field local "updatedAt").

(** One turn of the loops at lines 466-481 and 484-499. [None]: a [put]
    failed, which aborts the transaction. *)
Definition mergeRecord (entries : list (val * nat)) (st : option MergeState)
    (server : Rec) : option MergeState :=
  match st with
  | None => None
  | Some st =>
      match localFor entries st (field server "serverId") with
      | Some (i, (k, local)) =>
          if shouldOverwrite local server then
            match putAt (store st) k (assign local server) with
            | Some s' =>
                Some (mkMerge (<[i := (k, assign local server)]> (snapshot st)) s')
            | None => None
            end
          else Some st
      | None =>
          match putNew (store st) (delete "id" server) with
          | Some s' => Some (mkMerge (snapshot st) s')
          | None => None
          end
      end
  end.

(** One turn of the loops at lines 502-518. *)
Definition deleteRecord (entries : list (val * nat)) (st : MergeState)
    (serverIdToDelete : val) : MergeState :=
  match localFor entries st serverIdToDelete with
  | Some (_, (k, _)) => mkMerge (snapshot st) (deleteAt (store st) k)
  | None => st
  end.

(** The writes of the transaction [tx] over ['products'] and
    ['categories'], in the order the requests are placed. *)
Definition mergeWrites (u : ServerUpdates) (d : DB)
    : option (ObjectStore * ObjectStore) :=
  let localProducts := tgetAll (tab (products d)) in
  let localCategories := tgetAll (tab (categories d)) in
  let productServerIdMap := serverIdEntries localProducts in
  let categoryServerIdMap := serverIdEntries localCategories in
  match fold_left (mergeRecord productServerIdMap) (upd_products u)
                  (Some (mkMerge localProducts (products d))) with
  | None => None
  | Some stP =>
      match fold_left (mergeRecord categoryServerIdMap) (upd_categories u)
                      (Some (mkMerge localCategories (categories d))) with
      | None => None
      | Some stC =>
          let stP' := fold_left (deleteRecord productServerIdMap)
                                (deleted_products u) stP in
          let stC' := fold_left (deleteRecord categoryServerIdMap)
                                (deleted_categories u) stC in
          Some (store stP', store stC')
      end
  end.

(** Lines 451-525: the merge runs when the server sent anything; its
    transaction commits all its writes, or none when a request failed. *)
Definition pullMerge (u : ServerUpdates) (d : DB) : DB :=
  match upd_products u, upd_categories u, deleted_products u, deleted_categories u with
  | [], [], [], [] => d
  | _, _, _, _ =>
      match mergeWrites u d with
      | Some (ps, cs) =>
          mkDB (objectStoreNames d) ps (transactions d) cs (fees d)
               (sync_queue d) (settings d) (auto_backup d)
      | None => d
      end
  end.

(** *** [syncWithServer] (lines 386-542) *)

Record SyncState := mkSync {
  isOnline : bool;
  isSyncing : bool;
  db : DB
}.

Inductive SyncStatus := StOffline | StBusy | StSynced | StError.

Definition syncWithServer (api : Z → Task → Response)
    (mockFetchFromServer : val → ServerUpdates) (now : string) (st : SyncState)
    : SyncState * list SyncEvent * SyncStatus :=
  if negb (isOnline st) then (st, [], StOffline)
  else if isSyncing st then (st, [], StBusy)
  else
    let syncQueue := tgetAll (sync_queue (db st)) in
    let '(d1, log, ok) := drain api (db st) syncQueue [] in
    if ok then
      let lastSync := default VUndef (settings d1 !! "lastSync") in
      let serverUpdates := mockFetchFromServer lastSync in
      let d2 := pullMerge serverUpdates d1 in
      let d3 := mkDB (objectStoreNames d2) (products d2) (transactions d2)
                     (categories d2) (fees d2) (sync_queue d2)
                     (<["lastSync" := VStr now]> (settings d2)) (auto_backup d2) in
      (mkSync (isOnline st) false d3, log ++ [EvPull lastSync], StSynced)
    else (mkSync (isOnline st) false d1, log, StError).

End Merge.

End Sync.

(** ** The cart badge (part_000, lines 589-601) *)

(** What the badge on the cart button shows. *)
Inductive Badge :=
  | BadgeHidden
  | BadgeCount (totalItems : Z)
  | BadgeMany.                   (* '99+' *)

(** [cart.items.reduce((sum, item) => sum + item.quantity, 0)] *)
Definition totalItems (cart : Cart) : Z :=
  fold_left (λ sum item, sum + item_quantity item) (items cart) 0.

(** [updateCartFabBadge()], for a page that has the badge element. *)
Definition updateCartFabBadge (cart : Cart) : Badge :=
  let totalItems := totalItems cart in
  if 0 <? totalItems
  then (if 99 <? totalItems then BadgeMany else BadgeCount totalItems)
  else BadgeHidden.

(** ** The stand-in server (part_000, lines 295-326) *)
Module MockServer.

(** [mockServerData]; [loadedAt] is the [new Date().toISOString()] that
    is evaluated when the script is loaded. *)
Definition mockServerData (loadedAt : string) : Sync.ServerUpdates :=
  Sync.mkUpdates
    []
    [ {[ "serverId" := Sync.VStr "server_cat_201";
         "name" := Sync.VStr "Lainnya";
         "updatedAt" := Sync.VStr loadedAt ]} ]
    [] [].

(** [mockFetchFromServer(lastSync)], lines 312-326. *)
Definition mockFetchFromServer (parseDate : string → option Z) (loadedAt : string)
    (lastSync : Sync.val) : Sync.ServerUpdates :=
  let lastSyncDate := if Sync.truthy lastSync then lastSync else Sync.VNum (qz 0) in
  let data := mockServerData loadedAt in
  Sync.mkUpdates
    (filter (λ p, Sync.newer parseDate (Sync.field p "updatedAt") lastSyncDate = true)
            (Sync.upd_products data))
    (filter (λ c, Sync.newer parseDate (Sync.field c "updatedAt") lastSyncDate = true)
            (Sync.upd_categories data))
    (Sync.deleted_products data)
    (Sync.deleted_categories data).

End MockServer.

(** ** Categories and products (part_000, lines 890-940 and 1182-1327)

    The records are property bags as in [Sync]. [null] and [undefined]
    are one value here, [Sync.VUndef]: the code below tests such a value
    for truthiness and compares it with strings only, and neither is an
    index key. *)
Module Catalog.

(** An outbox entry; the payload is an entity with its key, or
    [undefined] when the entity was not found. *)
Record Entry := mkEntry {
  action : string;
  payload : option (Z * Sync.Rec);
  timestamp : string
}.

Record DB := mkDB {
  products : Sync.ObjectStore;
  categories : Sync.ObjectStore;
  sync_queue : Table Entry
}.

(** [queueSyncAction(action, payload)], lines 372-383: the entry is put
    into [sync_queue]; the sync cycle it then triggers when online is a
    separate activity, as in the checkout. *)
Definition queueSyncAction (now : string) (action : string)
    (payload : option (Z * Sync.Rec)) (d : DB) : DB :=
  mkDB (products d) (categories d)
       (tputNew (sync_queue d) (mkEntry action payload now)).1.

Inductive Toast :=
  | NameEmpty          (* 'Nama kategori tidak boleh kosong' *)
  | CategoryAdded      (* 'Kategori berhasil ditambahkan' *)
  | CategoryAddFailed  (* 'Gagal menambahkan. Kategori mungkin sudah ada.' *)
  | FieldsRequired           (* 'Nama dan Harga Jual produk wajib diisi.' *)
  | BarcodeInUse       (* 'Barcode ini sudah digunakan oleh produk lain.' *)
  | ProductAdded       (* 'Produk berhasil ditambahkan' *)
  | ProductAddFailed   (* 'Gagal menambahkan produk. Cek kembali data Anda.' *)
  | ProductUpdated     (* 'Produk berhasil diperbarui' *)
  | ProductUpdateFailed (* 'Gagal memperbarui produk.' *)
  | NoToast.

(** [addNewCategory()], lines 890-910; [newCategoryName] is the text of
    the input field. *)
Definition addNewCategory (now : string) (newCategoryName : string) (d : DB)
    : DB * Toast :=
  let name := Sync.trim newCategoryName in
  if String.eqb name "" then (d, NameEmpty)
  else
    let newCategory : Sync.Rec :=
      {[ "name" := Sync.VStr name;
         "createdAt" := Sync.VStr now;
         "updatedAt" := Sync.VStr now ]} in
    match Sync.putNew (categories d) newCategory with
    | Some cs =>
        let addedId := nextKey (Sync.tab (categories d)) in
        (queueSyncAction now "CREATE_CATEGORY" (Some (addedId, newCategory))
           (mkDB (products d) cs (sync_queue d)),
         CategoryAdded)
    | None => (d, CategoryAddFailed)
    end.

(** [products.some(p => p.category === name)] *)
Definition isUsed (name : string) (d : DB) : bool :=
  existsb (λ p, bool_decide (Sync.field p.2 "category" = Sync.VStr name))
          (rows (Sync.tab (products d))).

(** The callback of the confirmation dialog of [deleteCategory],
    lines 926-936. *)
Definition confirmDeleteCategory (now : string) (id : Z) (d : DB) : DB :=
  let categoryToDelete := tget (Sync.tab (categories d)) id in
  queueSyncAction now "DELETE_CATEGORY" ((λ c, (id, c)) <$> categoryToDelete)
    (mkDB (products d) (Sync.deleteAt (categories d) id) (sync_queue d)).

(** [deleteCategory(id, name)], lines 912-940, with the dialog
    confirmed: a category in use is refused before the dialog is shown. *)
Definition deleteCategory (now : string) (id : Z) (name : string) (d : DB) : DB :=
  if isUsed name d then d else confirmDeleteCategory now id d.

(** The fields of the product form, as the code reads them:
    [parseFloat] and [parseInt] answer [None] for a text that is not a
    number. *)
Record ProductForm := mkForm {
  productName : string;
  productPrice : option Qc;
  productPurchasePrice : option Qc;
  productStock : option Z;
  productBarcode : string;
  productCategory : string;
  productDiscount : option Qc
}.

(** [products.some(p => p.barcode === barcode)] and, with [Some id],
    [products.some(p => p.barcode === barcode && p.id !== id)]. *)
Definition barcodeTaken (barcode : string) (except : option Z) (d : DB) : bool :=
  existsb (λ p, bool_decide (Sync.field p.2 "barcode" = Sync.VStr barcode)
                && match except with
                   | Some id => negb (p.1 =? id)
                   | None => true
                   end)
          (rows (Sync.tab (products d))).

(** [addProduct()], lines 1182-1230; [currentImageData] is the picked
    image, or [null]. *)
Definition addProduct (now : string) (f : ProductForm) (currentImageData : Sync.val)
    (d : DB) : DB * Toast :=
  let name := Sync.trim (productName f) in
  let purchasePrice := default (qz 0) (productPurchasePrice f) in
  let stock := default 0 (productStock f) in
  let barcode := Sync.trim (productBarcode f) in
  let category := productCategory f in
  let discountPercentage := default (qz 0) (productDiscount f) in
  match productPrice f with
  | None => (d, FieldsRequired)
  | Some price =>
      if String.eqb name "" || bool_decide (price ≤ 0)%Qc then (d, FieldsRequired)
      else if negb (String.eqb barcode "") && barcodeTaken barcode None d
      then (d, BarcodeInUse)
      else
        let newProduct : Sync.Rec :=
          {[ "name" := Sync.VStr name;
             "price" := Sync.VNum price;
             "purchasePrice" := Sync.VNum purchasePrice;
             "stock" := Sync.VNum (qz stock);
             "barcode" := if String.eqb barcode "" then Sync.VUndef
                          else Sync.VStr barcode;
             "category" := Sync.VStr category;
             "discountPercentage" := Sync.VNum discountPercentage;
             "image" := currentImageData;
             "createdAt" := Sync.VStr now;
             "updatedAt" := Sync.VStr now ]} in
        match Sync.putNew (products d) newProduct with
        | Some ps =>
            let addedId := nextKey (Sync.tab (products d)) in
            (queueSyncAction now "CREATE_PRODUCT" (Some (addedId, newProduct))
               (mkDB ps (categories d) (sync_queue d)),
             ProductAdded)
        | None => (d, ProductAddFailed)
        end
  end.

(** [updateProduct()], lines 1278-1327; [id] is the key that
    [editProduct] wrote into the form. *)
Definition updateProduct (now : string) (id : Z) (f : ProductForm)
    (currentEditImageData : Sync.val) (d : DB) : DB * Toast :=
  let name := Sync.trim (productName f) in
  let barcode := Sync.trim (productBarcode f) in
  let purchasePrice := default (qz 0) (productPurchasePrice f) in
  let stock := default 0 (productStock f) in
  let category := productCategory f in
  let discountPercentage := default (qz 0) (productDiscount f) in
  match productPrice f with
  | None => (d, FieldsRequired)
  | Some price =>
      if String.eqb name "" || bool_decide (price ≤ 0)%Qc then (d, FieldsRequired)
      else if negb (String.eqb barcode "") && barcodeTaken barcode (Some id) d
      then (d, BarcodeInUse)
      else
        match tget (Sync.tab (products d)) id with
        | Some product =>
            let product : Sync.Rec :=
              <["updatedAt" := Sync.VStr now]>
              (<["image" := currentEditImageData]>
              (<["discountPercentage" := Sync.VNum discountPercentage]>
              (<["category" := Sync.VStr category]>
              (<["stock" := Sync.VNum (qz stock)]>
              (<["purchasePrice" := Sync.VNum purchasePrice]>
              (<["price" := Sync.VNum price]>
              (<["barcode" := if String.eqb barcode "" then Sync.VUndef
                              else Sync.VStr barcode]>
              (<["name" := Sync.VStr name]> product)))))))) in
            match Sync.putAt (products d) id product with
            | Some ps =>
                (queueSyncAction now "UPDATE_PRODUCT" (Some (id, product))
                   (mkDB ps (categories d) (sync_queue d)),
                 ProductUpdated)
            | None => (d, ProductUpdateFailed)
            end
        | None => (d, NoToast)
        end
  end.

End Catalog.

(** ** Export and import of the data (part_000, lines 1987-2076) *)
Module Backup.

(** The object [data] that [exportData] hands to [JSON.stringify] and
    that [handleImport] gets from [JSON.parse]; a property that is
    absent (or otherwise falsy) is [None]. The records of a file carry
    their keys, as the exported ones do. *)
Record Data := mkData {
  data_products : option (list (Z * Sync.Rec));
  data_transactions : option (list (Z * Sync.Rec));
  data_settings : option (list (string * Sync.val));
  data_categories : option (list (Z * Sync.Rec));
  data_fees : option (list (Z * Sync.Rec));
  exportDate : string
}.

(** [exportData()], lines 1987-2002: the [data] object. *)
Definition exportData (now : string) (d : Sync.DB) : Data :=
  mkData (Some (tgetAll (Sync.tab (Sync.products d))))
         (Some (tgetAll (Sync.tab (Sync.transactions d))))
         (Some (map_to_list (Sync.settings d)))
         (Some (tgetAll (Sync.tab (Sync.categories d))))
         (Some (tgetAll (Sync.tab (Sync.fees d))))
         now.

(** [store.clear()]: the rows go, the key generator stays. *)
Definition clear (s : Sync.ObjectStore) : Sync.ObjectStore :=
  Sync.mkStore (mkTable [] (nextKey (Sync.tab s))) (Sync.indexes s).

(** [clearAllStores()], lines 2067-2076: a transaction of its own over
    all the stores of the database. *)
Definition clearAllStores (d : Sync.DB) : Sync.DB :=
  let has name := Sync.contains (Sync.objectStoreNames d) name in
  Sync.mkDB (Sync.objectStoreNames d)
    (if has "products" then clear (Sync.products d) else Sync.products d)
    (if has "transactions" then clear (Sync.transactions d) else Sync.transactions d)
    (if has "categories" then clear (Sync.categories d) else Sync.categories d)
    (if has "fees" then clear (Sync.fees d) else Sync.fees d)
    (if has "sync_queue" then mkTable [] (nextKey (Sync.sync_queue d))
     else Sync.sync_queue d)
    (if has "settings" then ∅ else Sync.settings d)
    (if has "auto_backup" then ∅ else Sync.auto_backup d).

(** [records.forEach(r => store.put(r))] inside the import transaction;
    [None]: a request failed, which aborts the transaction. *)
Definition putAll (s : Sync.ObjectStore) (records : list (Z * Sync.Rec))
    : option Sync.ObjectStore :=
  fold_left (λ acc r, match acc with
                      | Some s => Sync.putAt s r.1 r.2
                      | None => None
                      end)
            records (Some s).

(** [if (data.x) store.clear()] and [if (data.x) data.x.forEach(...)]
    for one store. *)
Definition importInto (s : Sync.ObjectStore) (records : option (list (Z * Sync.Rec)))
    : option Sync.ObjectStore :=
  match records with
  | Some l => putAll (clear s) l
  | None => Some s
  end.

Definition importSettings (settings : gmap string Sync.val)
    (records : option (list (string * Sync.val))) : gmap string Sync.val :=
  match records with
  | Some l => fold_left (λ m s, <[s.1 := s.2]> m) l ∅
  | None => settings
  end.

(** The callback of the confirmation dialog of [handleImport],
    lines 2034-2054. The transaction over the five stores cannot be
    opened when one of them does not exist; when a request fails it
    aborts, and the stores stay as [clearAllStores] left them. *)
Definition confirmImport (data : Data) (d : Sync.DB) : Sync.DB :=
  let d0 := clearAllStores d in
  if forallb (Sync.contains (Sync.objectStoreNames d0))
             ["products"; "transactions"; "settings"; "categories"; "fees"]
  then
    match importInto (Sync.products d0) (data_products data),
          importInto (Sync.transactions d0) (data_transactions data),
          importInto (Sync.categories d0) (data_categories data),
          importInto (Sync.fees d0) (data_fees data) with
    | Some ps, Some ts, Some cs, Some fs =>
        Sync.mkDB (Sync.objectStoreNames d0) ps ts cs fs (Sync.sync_queue d0)
                  (importSettings (Sync.settings d0) (data_settings data))
                  (Sync.auto_backup d0)
    | _, _, _, _ => d0
    end
  else d0.

End Backup.

(** ** The report summary (part_000, lines 2152-2193) *)
Module Report.

(** A product as the report reads it: its key and its purchase price,
    which may be absent. *)
Record Product := mkProduct {
  id : Z;
  purchasePrice : option Qc
}.

Record Summary := mkSummary {
  omzet : Qc;
  hpp : Qc;
  totalOperationalCost : Qc;
  grossProfit : Qc;
  netProfit : Qc;
  cashFlow : Qc;
  totalTransactions : Z;
  average : Qc
}.

(** [new Map(products.map(p => [p.id, p]))] *)
Definition productMap (products : list Product) : gmap Z Product :=
  fold_left (λ m p, <[id p := p]> m) products ∅.

(** [product ? (product.purchasePrice || 0) : 0] *)
Definition costOf (m : gmap Z Product) (productId : Z) : Qc :=
  match m !! productId with
  | Some product => default (qz 0) (purchasePrice product)
  | None => qz 0
  end.

(** One turn of [transactions.forEach], lines 2160-2176; the accumulator
    is [(omzet, hpp, totalOperationalCost)]. *)
Definition addTransaction (m : gmap Z Product) (acc : Qc * Qc * Qc) (t : Transaction)
    : Qc * Qc * Qc :=
  let '(omzet, hpp, totalOperationalCost) := acc in
  let subtotalAfterDiscount := (tx_subtotal t - tx_totalDiscount t)%Qc in
  let omzet := (omzet + subtotalAfterDiscount)%Qc in
  let hpp :=
    fold_left (λ hpp item, (hpp + costOf m (ti_id item) * qz (ti_quantity item))%Qc)
              (tx_items t) hpp in
  let totalOperationalCost :=
    fold_left (λ cost fee, (cost + tf_amount fee)%Qc) (tx_fees t)
              totalOperationalCost in
  (omzet, hpp, totalOperationalCost).

(** [displayReportSummary(transactions, products)]: the numbers it
    shows. *)
Definition displayReportSummary (transactions : list Transaction)
    (products : list Product) : Summary :=
  let m := productMap products in
  let '(omzet, hpp, totalOperationalCost) :=
    fold_left (addTransaction m) transactions (qz 0, qz 0, qz 0) in
  let grossProfit := (omzet - hpp)%Qc in
  let netProfit := (grossProfit - totalOperationalCost)%Qc in
  let cashFlow := grossProfit in
  let totalTransactions := Z.of_nat (length transactions) in
  let average :=
    if 0 <? totalTransactions then (omzet / qz totalTransactions)%Qc else qz 0 in
  mkSummary omzet hpp totalOperationalCost grossProfit netProfit cashFlow
            totalTransactions average.

End Report.

(** ** Texts of the receipt and of the report file
    (part_000, lines 2427-2435, 2491-2499 and 2945-2977)

    A string is the sequence of its characters; a letter outside ASCII
    is outside the model. *)
Module Receipt.
Import Stdlib.Strings.Ascii.

(** The double quote. *)
Definition dquote : Ascii.ascii := "034"%char.

(** [s.slice(0, n)] and [s.slice(n)], for [n] that is not negative. *)
Fixpoint sliceTo (n : nat) (s : string) : string :=
  match n, s with
  | S n', String c r => String c (sliceTo n' r)
  | _, _ => ""
  end.

Fixpoint sliceFrom (n : nat) (s : string) : string :=
  match n, s with
  | S n', String _ r => sliceFrom n' r
  | _, _ => s
  end.

(** [s.split(c)] for a separator of one character. *)
Fixpoint split (c : Ascii.ascii) (s : string) : list string :=
  match s with
  | "" => [""]
  | String x r =>
      if Ascii.eqb x c then "" :: split c r
      else match split c r with
           | w :: ws => String x w :: ws
           | [] => [String x ""]
           end
  end.

(** [s.includes(c)] for one character. *)
Fixpoint includes (c : Ascii.ascii) (s : string) : bool :=
  match s with
  | "" => false
  | String x r => Ascii.eqb x c || includes c r
  end.

(** [s.replace(/c/g, by)]: every occurrence of the character [c] is
    replaced ([by] holds no replacement pattern). *)
Fixpoint replaceAll (c : Ascii.ascii) (by_ : string) (s : string) : string :=
  match s with
  | "" => ""
  | String x r =>
      if Ascii.eqb x c then by_ +:+ replaceAll c by_ r
      else String x (replaceAll c by_ r)
  end.

(** The loop [while (tempWord.length > maxWidth)] of [wrapText],
    lines 2959-2962; the result is [(lines, tempWord)] when the loop is
    left, which [fuel] turns of it may not suffice for. *)
Fixpoint breakWord (fuel : nat) (maxWidth : nat) (tempWord : string)
    (lines : list string) : option (list string * string) :=
  if (maxWidth <? String.length tempWord)%nat then
    match fuel with
    | O => None
    | S fuel' =>
        breakWord fuel' maxWidth (sliceFrom maxWidth tempWord)
                  (lines ++ [sliceTo maxWidth tempWord])
    end
  else Some (lines, tempWord).

(** One turn of [words.forEach], lines 2951-2972; the state is
    [(lines, currentLine)]. *)
Definition wrapWord (fuel : nat) (maxWidth : nat)
    (state : option (list string * string)) (word : string)
    : option (list string * string) :=
  match state with
  | None => None
  | Some (lines, currentLine) =>
      if (maxWidth <? String.length word)%nat then
        let '(lines, currentLine) :=
          if (0 <? String.length currentLine)%nat
          then (lines ++ [currentLine], "")
          else (lines, currentLine) in
        breakWord fuel maxWidth word lines
      else
        let joined := Sync.trim (currentLine +:+ " " +:+ word) in
        if (String.length joined <=? maxWidth)%nat
        then Some (lines, joined)
        else Some (lines ++ [currentLine], word)
  end.

(** [wrapText(text, maxWidth)], lines 2945-2977, for a width that is
    not negative. *)
Definition wrapText (fuel : nat) (text : string) (maxWidth : nat)
    : option (list string) :=
  if String.eqb text "" then Some []
  else
    match fold_left (wrapWord fuel maxWidth) (split " " text) (Some ([], "")) with
    | Some (lines, currentLine) =>
        Some (if String.eqb currentLine "" then lines else lines ++ [currentLine])
    | None => None
    end.

(** [escapeHtml(unsafe)], lines 2491-2499. *)
Definition escapeHtml (unsafe : Sync.val) : Sync.val :=
  match unsafe with
  | Sync.VStr s =>
      Sync.VStr
        (replaceAll "'" "&#039;"
           (replaceAll dquote "&quot;"
              (replaceAll ">" "&gt;"
                 (replaceAll "<" "&lt;"
                    (replaceAll "&" "&amp;" s)))))
  | _ => unsafe
  end.

(** [escapeCSV(val)], lines 2428-2435; the argument is [String(val)],
    and [None] for [null] and [undefined]. *)
Definition escapeCSV (val : option string) : string :=
  match val with
  | None => ""
  | Some str =>
      if includes "," str || includes dquote str || includes "010" str
      then String dquote (replaceAll dquote (String dquote (String dquote "")) str
                          +:+ String dquote "")
      else str
  end.

End Receipt.

(** ** The kiosk mode and its PIN (part_000, lines 3135-3277)

    The read of the saved PIN that [checkKioskPin] awaits is served
    before the next key is handled. *)
Module Kiosk.

Record State := mkState {
  currentPinInput : string;
  isKioskModeActive : bool;
  settings : gmap string Sync.val;     (* the [settings] store *)
  kioskModeToggle : bool;              (* the check box *)
  kioskPinError : string;
  enterKioskPinModal : bool;           (* shown *)
  setKioskPinModal : bool;             (* shown *)
  pendingResets : nat                  (* timers set by a wrong PIN *)
}.

Inductive Toast :=
  | PinLength      (* 'PIN harus 4 digit.' *)
  | PinMismatch    (* 'PIN tidak cocok.' *)
  | Activated.     (* 'Mode Kios diaktifkan' *)

(** [s.slice(0, -1)] *)
Fixpoint dropLast (s : string) : string :=
  match s with
  | "" => ""
  | String c r => match r with
                  | "" => ""
                  | String _ _ => String c (dropLast r)
                  end
  end.

(** [saveKioskPinAndActivate()], lines 3192-3211. *)
Definition saveKioskPinAndActivate (newPin confirmPin : string) (k : State)
    : State * Toast :=
  if negb (String.length newPin =? 4)%nat then (k, PinLength)
  else if negb (String.eqb newPin confirmPin) then (k, PinMismatch)
  else
    (mkState (currentPinInput k) true
             (<["kioskModeEnabled" := Sync.VBool true]>
                (<["kioskPin" := Sync.VStr newPin]> (settings k)))
             true (kioskPinError k) (enterKioskPinModal k) false (pendingResets k),
     Activated).

(** [showEnterKioskPinModal()], lines 3213-3218. *)
Definition showEnterKioskPinModal (k : State) : State :=
  mkState "" (isKioskModeActive k) (settings k) (kioskModeToggle k) ""
          true (setKioskPinModal k) (pendingResets k).

(** [checkKioskPin()], lines 3258-3277. *)
Definition checkKioskPin (k : State) : State :=
  let savedPin := Sync.field (settings k) "kioskPin" in
  if bool_decide (Sync.VStr (currentPinInput k) = savedPin) then
    mkState "" false
            (<["kioskModeEnabled" := Sync.VBool false]> (settings k))
            false (kioskPinError k) false (setKioskPinModal k) (pendingResets k)
  else
    mkState (currentPinInput k) (isKioskModeActive k) (settings k)
            (kioskModeToggle k) "PIN Salah" (enterKioskPinModal k)
            (setKioskPinModal k) (S (pendingResets k)).

(** [handlePinKeyPress(key)], lines 3239-3256. *)
Definition handlePinKeyPress (key : string) (k : State) : State :=
  let input :=
    if String.eqb key "backspace" then dropLast (currentPinInput k)
    else if String.eqb key "clear" then ""
    else if (String.length (currentPinInput k) <? 4)%nat
         then currentPinInput k +:+ key
         else currentPinInput k in
  let k1 := mkState input (isKioskModeActive k) (settings k) (kioskModeToggle k) ""
                    (enterKioskPinModal k) (setKioskPinModal k) (pendingResets k) in
  if (String.length input =? 4)%nat then checkKioskPin k1 else k1.

(** The timer that a wrong PIN sets (lines 3271-3275), when it fires. *)
Definition pinResetTimeout (k : State) : State :=
  match pendingResets k with
  | O => k
  | S n =>
      mkState "" (isKioskModeActive k) (settings k) (kioskModeToggle k)
              (kioskPinError k) (enterKioskPinModal k) (setKioskPinModal k) n
  end.

Inductive Event :=
  | KeyPress (key : string)
  | TimerFires.

Definition step (k : State) (e : Event) : State :=
  match e with
  | KeyPress key => handlePinKeyPress key k
  | TimerFires => pinResetTimeout k
  end.

End Kiosk.

(** ** The totals as the specification words them *)

Record SpecTotals := mkSpecTotals {
  s_subtotal : Qc;
  s_discount : Qc;
  s_feeAmounts : list Qc;
  s_total : Qc
}.

(** [computeTotals()] of the specification: subtotal = Σ(effectivePrice ×
    quantity); discount = Σ(unitPrice × discountPct/100 × quantity); per
    fee, (subtotal − discount) × value/100 or value; total = subtotal −
    discount + Σ fee amounts. *)
Definition spec_computeTotals (cart : Cart) : SpecTotals :=
  let subtotal :=
    sumQc (map (λ i, (item_effectivePrice i * qz (item_quantity i))%Qc) (items cart)) in
  let discount :=
    sumQc (map (λ i, (item_price i * (item_discountPercentage i / qz 100)
                      * qz (item_quantity i))%Qc) (items cart)) in
  let amounts :=
    map (λ f, if String.eqb (fee_type f) "percentage"
              then ((subtotal - discount) * (fee_value f / qz 100))%Qc
              else fee_value f) (fees cart) in
  mkSpecTotals subtotal discount amounts (subtotal - discount + sumQc amounts)%Qc.

(** The bounds on a cart line. *)
Definition quantityPositive (cart : Cart) : Prop :=
  Forall (λ i, 1 ≤ item_quantity i) (items cart).


(** ** Predicates and invariants used by the properties *)

Definition stockNonNegative (db : ShopDB) : Prop :=
  Forall (λ kv, 0 ≤ p_stock kv.2) (rows (products db)).

(** Keys strictly ascending, all above [lo] and below [hi]. *)
Fixpoint between {A} (lo hi : Z) (l : list (Z * A)) : Prop :=
  match l with
  | [] => True
  | kv :: r => lo < kv.1 ∧ kv.1 < hi ∧ between kv.1 hi r
  end.

(** A table as the store keeps it: the keys are positive, ascending,
    and below the key generator's current number. *)
Definition wfTable {A} (t : Table A) : Prop :=
  0 < nextKey t ∧ between 0 (nextKey t) (rows t).

(** The server identity of a local row and of an incoming record. *)
Definition sidOf (kv : Z * Sync.Rec) : Sync.val := Sync.field kv.2 "serverId".
Definition ridOf (r : Sync.Rec) : Sync.val := Sync.field r "serverId".

(** The server identities that the local records carry. *)
Definition sids (l : list (Z * Sync.Rec)) : list Sync.val :=
  filter (λ v, Sync.truthy v = true) (sidOf <$> l).

(** [Sync.serverIdEntries] with the positions counted from [n]. *)
Definition entriesFrom (n : nat) (l : list (Z * Sync.Rec)) : list (Sync.val * nat) :=
  filter (λ e, Sync.truthy e.1 = true) (imap (λ i p, (sidOf p, (n + i)%nat)) l).

(** A store as IndexedDB and the sync engine keep it: generated keys,
    and no server identity on two local records. *)
Definition wfStore (s : Sync.ObjectStore) : Prop :=
  wfTable (Sync.tab s) ∧ NoDup (sids (rows (Sync.tab s))).

(** A delta for one entity kind as a server sends it: every incoming
    record carries its identity, no identity comes twice, and no
    deletion marker names an incoming record. *)
Definition deltaOk (ups : list Sync.Rec) (dels : list Sync.val) : Prop :=
  Forall (λ r, Sync.truthy (ridOf r) = true) ups ∧
  NoDup (ridOf <$> ups) ∧
  Forall (λ d, d ∉ ridOf <$> ups) dels.

Definition withStores (d : Sync.DB) (ps cs : Sync.ObjectStore) : Sync.DB :=
  Sync.mkDB (Sync.objectStoreNames d) ps (Sync.transactions d) cs (Sync.fees d)
            (Sync.sync_queue d) (Sync.settings d) (Sync.auto_backup d).

Section MergePredicates.
Context (parseDate : string → option Z).

(** Merging [r] into the row again changes nothing. *)
Definition settled (r : Sync.Rec) (kv : Z * Sync.Rec) : Prop :=
  Sync.shouldOverwrite parseDate kv.2 r = false ∨ Sync.assign kv.2 r = kv.2.

(** The invariant of the loop over the incoming records: [done] are the
    records merged so far, [news] the rows added for them. *)
Record mergeInv (local0 : list (Z * Sync.Rec)) (done : list Sync.Rec)
    (st : Sync.MergeState) : Prop := mkInv {
  inv_news : ∃ news,
    rows (Sync.tab (Sync.store st)) = Sync.snapshot st ++ news ∧
    Forall (λ kv, ∃ r, r ∈ done ∧ sidOf kv = ridOf r) news;
  inv_wf : wfStore (Sync.store st);
  inv_keys : (Sync.snapshot st).*1 = local0.*1;
  inv_sids : sidOf <$> Sync.snapshot st = sidOf <$> local0;
  inv_done : ∀ r kv, r ∈ done → kv ∈ rows (Sync.tab (Sync.store st)) →
                     sidOf kv = ridOf r → settled r kv;
  inv_present : ∀ r, r ∈ done → ridOf r ∈ sids (rows (Sync.tab (Sync.store st)))
}.

(** The invariant of the loop over the deletion markers: [st1] is the
    state after the loop over the incoming records, [processed] the
    markers handled so far, [D] the keys deleted for them. *)
Record delInv (st1 : Sync.MergeState) (processed : list Sync.val)
    (st : Sync.MergeState) : Prop := mkDelInv {
  del_snap : Sync.snapshot st = Sync.snapshot st1;
  del_ixs : Sync.indexes (Sync.store st) = Sync.indexes (Sync.store st1);
  del_nk : nextKey (Sync.tab (Sync.store st)) = nextKey (Sync.tab (Sync.store st1));
  del_rows : ∃ D : list Z,
    rows (Sync.tab (Sync.store st))
    = filter (λ kv, kv.1 ∉ D) (rows (Sync.tab (Sync.store st1))) ∧
    Forall (λ k, ∃ i l, Sync.snapshot st1 !! i = Some (k, l) ∧ sidOf (k, l) ∈ processed) D;
  del_gone : ∀ d, d ∈ processed → d ∉ sids (rows (Sync.tab (Sync.store st)))
}.

End MergePredicates.

(** ** Predicates of the further properties *)

(** The units of one product that a cart holds. *)
Definition unitsOf (productId : Z) (l : list CartItem) : Z :=
  foldr (λ item n, if item_id item =? productId then item_quantity item + n else n) 0 l.



(** The entity that an outbox entry is about. *)
Definition payloadKey (p : Payload) : Z :=
  match p with
  | PTransaction id _ => id
  | PProduct id _ => id
  end.

(** The names that the rows of a store carry. *)
Definition namesOf (l : list (Z * Sync.Rec)) : list Sync.val :=
  (λ kv, Sync.field kv.2 "name") <$> l.

(** A database as version 4 leaves it. *)
Definition version4Stores : list string :=
  ["products"; "transactions"; "settings"; "auto_backup"].

Definition withSettings (d : Sync.DB) (s : gmap string Sync.val) : Sync.DB :=
  Sync.mkDB (Sync.objectStoreNames d) (Sync.products d) (Sync.transactions d)
            (Sync.categories d) (Sync.fees d) (Sync.sync_queue d) s
            (Sync.auto_backup d).

(** A store whose rows respect its unique indexes (every stored value
    could be put again under its key), and which has no unique index on
    the server identity. *)
Definition respectsIndexes (s : Sync.ObjectStore) : Prop :=
  (∀ k v, tget (Sync.tab s) k = Some v → Sync.violates s k v = false) ∧
  ("serverId", true) ∉ Sync.indexes s.

Definition storesRespectIndexes (d : Sync.DB) : Prop :=
  respectsIndexes (Sync.products d) ∧ respectsIndexes (Sync.categories d) ∧
  respectsIndexes (Sync.transactions d) ∧ respectsIndexes (Sync.fees d).


(** Every product that names a category names one of the store. *)
Definition categoriesPresent (d : Catalog.DB) : Prop :=
  ∀ kv c, kv ∈ rows (Sync.tab (Catalog.products d)) →
          Sync.field kv.2 "category" = Sync.VStr c → c ≠ "" →
          Sync.VStr c ∈ namesOf (rows (Sync.tab (Catalog.categories d))).


(** The rows respect the unique indexes of the store: every stored
    value could be put again under its key. *)
Definition uniqueKept (s : Sync.ObjectStore) : Prop :=
  ∀ k v, tget (Sync.tab s) k = Some v → Sync.violates s k v = false.

(** A database of the current version, as IndexedDB keeps it. *)
Definition currentStores (d : Sync.DB) : Prop :=
  Forall (λ name, name ∈ Sync.objectStoreNames d)
         ["products"; "transactions"; "settings"; "categories"; "fees";
          "sync_queue"; "auto_backup"].

Definition storeOk (s : Sync.ObjectStore) : Prop :=
  wfTable (Sync.tab s) ∧ uniqueKept s.

(** No two rows under different keys share a key of a unique index. *)
Definition noClash (s : Sync.ObjectStore) : Prop :=
  ∀ r1 r2 ix a, r1 ∈ rows (Sync.tab s) → r2 ∈ rows (Sync.tab s) → r1.1 ≠ r2.1 →
                (ix, true) ∈ Sync.indexes s →
                r1.2 !! ix = Some a → r2.2 !! ix = Some a → Sync.indexable a = false.

Definition storesOk (d : Sync.DB) : Prop :=
  storeOk (Sync.products d) ∧ storeOk (Sync.transactions d) ∧
  storeOk (Sync.categories d) ∧ storeOk (Sync.fees d).

(** Two databases declare the same indexes. *)
Definition sameIndexes (d d' : Sync.DB) : Prop :=
  Sync.indexes (Sync.products d') = Sync.indexes (Sync.products d) ∧
  Sync.indexes (Sync.transactions d') = Sync.indexes (Sync.transactions d) ∧
  Sync.indexes (Sync.categories d') = Sync.indexes (Sync.categories d) ∧
  Sync.indexes (Sync.fees d') = Sync.indexes (Sync.fees d).


(** A line of the result: not empty, and not wider than the paper. *)
Definition fits (maxWidth : nat) (line : string) : Prop :=
  (0 < String.length line ≤ maxWidth)%nat.

(** ** Concrete data used in the examples *)

Definition now0 : string := "2024-01-01T00:00:00.000Z".

(** [new Date(s)] on the time stamps used in the examples. *)
Definition exampleDates (s : string) : option Z :=
  if String.eqb s "2024-01-01T00:00:00.000Z" then Some 1704067200000
  else if String.eqb s "2024-01-02T00:00:00.000Z" then Some 1704153600000
  else None.

Definition tea : Product := mkProduct "Teh" (qz 10000) 1 None now0.
Definition coffee : Product := mkProduct "Kopi" (qz 8000) 5 None now0.

Definition ppn10 : Fee := mkFee 1 "PPN" "percentage" (qz 10) true true now0.
Definition service : Fee := mkFee 2 "Service" "fixed" (qz 1000) false false now0.

(** A store that holds one product under key 1. *)
Definition shopWith (p : Product) : ShopDB :=
  mkShop (tputNew emptyTable p).1 emptyTable emptyTable.

Definition shopJsWith (p : Product) : IndexJs.DB :=
  IndexJs.mkDB (tputNew emptyTable p).1 emptyTable.

Definition shopBWith (p : Product) : RevB.DB :=
  RevB.mkDB (tputNew emptyTable p).1 emptyTable emptyTable.

(** The cart of the specification's scenario: a product of price 10000
    with a 10% discount, twice, and a 10% percentage fee. *)
Definition scenarioCart : Cart :=
  mkCart [mkItem 1 "Teh" (qz 10000) (qz 9000) (qz 10) 2 5] [ppn10].


(** A store where the service fee was edited (1000 → 1500) after the
    cashier picked it, and a default tax that the cart does not hold yet. *)
Definition serviceEdited : Fee := mkFee 2 "Service" "fixed" (qz 1500) false false now0.
Definition storeFees : list Fee := [ppn10; serviceEdited].
Definition cartWithService : Cart := mkCart [] [service].

(** One unit in stock is put in the cart, the last unit is then taken
    off the shelf with the stock button, and the cart is checked out. *)
Definition oversoldDB : ShopDB :=
  let db0 := shopWith tea in
  let cart := (addToCart (products db0) emptyCart 1).1 in
  let db1 := decreaseStock now0 1 db0 in
  (completeTransaction now0 (Some (qz 10000)) cart db1).1.

(** Two lines in the cart; the product of the second line (key 2) is no
    longer in the store. *)
Definition twoLineCart : Cart :=
  mkCart [mkItem 1 "Kopi" (qz 8000) (qz 8000) (qz 0) 1 5;
          mkItem 2 "Teh" (qz 10000) (qz 10000) (qz 0) 1 1] [].

Definition twoLineCartJs : IndexJs.Cart :=
  IndexJs.mkCart [IndexJs.mkItem 1 coffee 1; IndexJs.mkItem 2 tea 1] [].

(** A first sale is paid and completed; for the second sale the payment
    dialog is opened and the button is clicked without any cash typed. *)
Definition shopFront : App :=
  mkApp emptyCart (shopWith coffee) [] (mkUI None true false).

Definition twoSales : App :=
  uiRun now0 shopFront
    [EvAddToCart 1; EvShowPaymentModal; EvCashInput (Some (qz 10000));
     EvClickComplete; EvStartNewTransaction;
     EvAddToCart 1; EvShowPaymentModal; EvClickComplete].

Definition oneCoffeeB : RevB.Cart :=
  RevB.mkCart [RevB.mkItem 1 "Kopi" (qz 8000) (qz 8000) (qz 0) 1] [].

(** A database as version 6 leaves it, with a tax of 10 percent in the
    settings. *)
Definition dbVersion6 : Sync.DB :=
  Sync.mkDB ["products"; "transactions"; "settings"; "auto_backup";
             "categories"; "sync_queue"]
            (Sync.emptyStore [("name", false); ("barcode", true)])
            (Sync.emptyStore [("date", false)])
            (Sync.emptyStore [("name", true)])
            (Sync.emptyStore [])
            emptyTable
            {[ "storePpn" := Sync.VNum (qz 10);
               "storeName" := Sync.VStr "Toko" ]}
            ∅.

(** A database of the current version without records. *)
Definition emptyDB : Sync.DB :=
  Sync.mkDB ["products"; "transactions"; "settings"; "auto_backup";
             "categories"; "sync_queue"; "fees"]
            (Sync.emptyStore [("name", false); ("barcode", true)])
            (Sync.emptyStore [("date", false)])
            (Sync.emptyStore [("name", true)])
            (Sync.emptyStore [])
            emptyTable ∅ ∅.

(** A queue of three entries; the remote call for the second fails. *)
Definition kopi : Sync.Rec :=
  {[ "name" := Sync.VStr "Kopi"; "stock" := Sync.VNum (qz 5) ]}.

Definition task1 : Z * Sync.Task := (1, Sync.mkTask "CREATE_PRODUCT" (Some 1) kopi now0).
Definition task2 : Z * Sync.Task := (2, Sync.mkTask "UPDATE_PRODUCT" (Some 1) kopi now0).
Definition task3 : Z * Sync.Task := (3, Sync.mkTask "UPDATE_PRODUCT" (Some 1) kopi now0).

Definition offlineDB : Sync.DB :=
  Sync.mkDB (Sync.objectStoreNames emptyDB)
            (Sync.mkStore (mkTable [(1, kopi)] 2) [("name", false); ("barcode", true)])
            (Sync.transactions emptyDB) (Sync.categories emptyDB) (Sync.fees emptyDB)
            (mkTable [task1; task2; task3] 4)
            ∅ ∅.

Definition flakyApi (taskId : Z) (task : Sync.Task) : Sync.Response :=
  Sync.mkResponse (negb (taskId =? 2)) (Sync.VStr "server_1") (Sync.payload_id task).

Definition nothingNew (lastSync : Sync.val) : Sync.ServerUpdates :=
  Sync.mkUpdates [] [] [] [].

(** A local store with two synced products, and a newer version of the
    first from the server (which also sends its own [id]). *)
Definition kopiSynced : Sync.Rec :=
  {[ "serverId" := Sync.VStr "srv_1"; "name" := Sync.VStr "Kopi";
     "stock" := Sync.VNum (qz 5);
     "updatedAt" := Sync.VStr "2024-01-01T00:00:00.000Z" ]}.

Definition tehSynced : Sync.Rec :=
  {[ "serverId" := Sync.VStr "srv_2"; "name" := Sync.VStr "Teh";
     "updatedAt" := Sync.VStr "2024-01-01T00:00:00.000Z" ]}.

Definition kopiFromServer : Sync.Rec :=
  {[ "id" := Sync.VNum (qz 77); "serverId" := Sync.VStr "srv_1";
     "name" := Sync.VStr "Kopi Susu";
     "updatedAt" := Sync.VStr "2024-01-02T00:00:00.000Z" ]}.

Definition minuman : Sync.Rec :=
  {[ "serverId" := Sync.VStr "cat_1"; "name" := Sync.VStr "Minuman";
     "updatedAt" := Sync.VStr "2024-01-02T00:00:00.000Z" ]}.

Definition productsSynced : Sync.ObjectStore :=
  Sync.mkStore (mkTable [(1, kopiSynced)] 2) [("name", false); ("barcode", true)].

Definition syncedDB : Sync.DB :=
  Sync.mkDB (Sync.objectStoreNames emptyDB)
            (Sync.mkStore (mkTable [(1, kopiSynced); (2, tehSynced)] 3)
                          [("name", false); ("barcode", true)])
            (Sync.transactions emptyDB) (Sync.categories emptyDB) (Sync.fees emptyDB)
            emptyTable ∅ ∅.

(** A delta with an update of the first product, a new category and the
    deletion of the second product. *)
Definition serverDelta : Sync.ServerUpdates :=
  Sync.mkUpdates [kopiFromServer] [minuman] [Sync.VStr "srv_2"] [].

(** A product that the server created and deleted again within the
    pulled window: the delta carries the record and its deletion marker. *)
Definition kopiNew : Sync.Rec :=
  {[ "serverId" := Sync.VStr "srv_1"; "name" := Sync.VStr "Kopi";
     "updatedAt" := Sync.VStr "2024-01-01T00:00:00.000Z" ]}.

Definition createdThenDeleted : Sync.ServerUpdates :=
  Sync.mkUpdates [kopiNew] [] [Sync.VStr "srv_1"] [].

(** ** Data of the further examples *)

Definition dbVersion6NoTax : Sync.DB :=
  Sync.mkDB (Sync.objectStoreNames dbVersion6) (Sync.products dbVersion6)
            (Sync.transactions dbVersion6) (Sync.categories dbVersion6)
            (Sync.fees dbVersion6) (Sync.sync_queue dbVersion6)
            {[ "storePpn" := Sync.VNum (qz 0); "storeName" := Sync.VStr "Toko" ]}
            (Sync.auto_backup dbVersion6).

(** A database as version 4 leaves it, with two products; one has a
    category (with blanks around it), one has none. *)
Definition dbVersion4 : Sync.DB :=
  Sync.mkDB version4Stores
            (Sync.mkStore
               (mkTable [(1, {[ "name" := Sync.VStr "Keripik";
                                "category" := Sync.VStr " Camilan " ]});
                         (2, {[ "name" := Sync.VStr "Teh" ]})] 3)
               [("name", false); ("barcode", true)])
            (Sync.emptyStore [("date", false)])
            (Sync.emptyStore [])
            (Sync.emptyStore [])
            emptyTable ∅ ∅.

(** The database after the first start: the three default categories,
    no other records. *)
Definition firstStartDB : Sync.DB :=
  Sync.mkDB (Sync.objectStoreNames emptyDB) (Sync.products emptyDB)
            (Sync.transactions emptyDB)
            (Sync.mkStore (mkTable [(1, {[ "name" := Sync.VStr "Makanan" ]});
                                    (2, {[ "name" := Sync.VStr "Minuman" ]});
                                    (3, {[ "name" := Sync.VStr "Lainnya" ]})] 4)
                          [("name", true)])
            (Sync.fees emptyDB) emptyTable ∅ ∅.

(** A catalogue with two categories and one product in the first. *)
Definition smallCatalog : Catalog.DB :=
  Catalog.mkDB
    (Sync.mkStore (mkTable [(1, {[ "name" := Sync.VStr "Kopi";
                                   "barcode" := Sync.VStr "899";
                                   "category" := Sync.VStr "Minuman" ]})] 2)
                  [("name", false); ("barcode", true)])
    (Sync.mkStore (mkTable [(1, {[ "name" := Sync.VStr "Minuman" ]});
                            (2, {[ "name" := Sync.VStr "Lainnya" ]})] 3)
                  [("name", true)])
    emptyTable.

Definition teaForm : Catalog.ProductForm :=
  Catalog.mkForm "Teh" (Some (qz 5000)) None (Some 10) "899" "Minuman" None.

(** A file in which two categories bear the same name. *)
Definition clashingFile : Backup.Data :=
  Backup.mkData None None None
    (Some [(1, {[ "name" := Sync.VStr "Minuman" ]});
           (2, {[ "name" := Sync.VStr "Minuman" ]})])
    None now0.

(** The shop before a PIN is set, the dialog for a new PIN open. *)
Definition noKiosk : Kiosk.State :=
  Kiosk.mkState "" false ∅ false "" false true 0.

(** A kiosk whose PIN is 1234, with 123 typed. *)
Definition kiosk1234 : Kiosk.State :=
  Kiosk.mkState "123" true
    (<["kioskPin" := Sync.VStr "1234"]> (<["kioskModeEnabled" := Sync.VBool true]> ∅))
    true "" true false 0.


(** * Properties *)

(** Closed statements over decidable data are settled by evaluation. *)
Ltac by_compute :=
  cbv zeta; apply (bool_decide_unpack _); vm_compute; exact I.

(** ** Sums *)

Lemma qz0 : qz 0 = 0%Qc.
Proof. apply Qc_is_canon. reflexivity. Qed.

Lemma fold_sum_shift {A} (f : A → Qc) (l : list A) (a : Qc) :
  fold_left (λ sum x, (sum + f x)%Qc) l a = (a + sumQc (map f l))%Qc.
Proof.
  revert a. induction l as [|x l IH]; intros a; simpl.
  - rewrite qz0. ring.
  - rewrite IH. ring.
Qed.

Lemma reduceSum_sum {A} (f : A → Qc) (l : list A) :
  reduceSum f l = sumQc (map f l).
Proof. unfold reduceSum. rewrite fold_sum_shift, qz0. ring. Qed.

(** ** Totals (C3) *)

Example scenario_checkout :
  let t := buildTransaction now0 (Some (qz 20000)) scenarioCart in
  (tx_subtotal t, tx_totalDiscount t, map tf_amount (tx_fees t), tx_total t)
  = (qz 20000, qz 2000, [qz 1800], qz 19800).
Proof. by_compute. Qed.

Example scenario_display :
  let d := updateCartDisplay scenarioCart in
  (d_subtotal d, d_feeAmounts d, d_total d) = (qz 18000, [qz 1800], qz 19800).
Proof. by_compute. Qed.

Example scenario_spec :
  let s := spec_computeTotals scenarioCart in
  (s_subtotal s, s_discount s, s_feeAmounts s, s_total s)
  = (qz 18000, qz 2000, [qz 1600], qz 17600).
Proof. by_compute. Qed.

(** On the scenario's cart neither the persisted totals nor the
    displayed ones are those of [spec_computeTotals]: the persisted
    subtotal is taken on the original prices (20000, not 18000), and the
    fee (1800) and the total (19800) differ from the formula's 1600 and
    17600 on both paths. *)
Lemma totals_counterexample :
  let t := buildTransaction now0 (Some (qz 20000)) scenarioCart in
  let d := updateCartDisplay scenarioCart in
  let s := spec_computeTotals scenarioCart in
  tx_subtotal t ≠ s_subtotal s ∧
  map tf_amount (tx_fees t) ≠ s_feeAmounts s ∧
  tx_total t ≠ s_total s ∧
  d_feeAmounts d ≠ s_feeAmounts s ∧
  d_total d ≠ s_total s.
Proof. by_compute. Qed.

(** C3 (amended). The totals persisted at checkout are: subtotal =
    Σ(unitPrice × quantity), on the prices before discount; discount =
    Σ(unitPrice × discountPct/100 × quantity); per fee, (subtotal −
    discount) × value/100 for a percentage fee and value otherwise; total
    = subtotal − discount + Σ fee amounts. The cart display and the
    payment screen compute subtotal = Σ(effectivePrice × quantity), take
    percentage fees on that subtotal, and total = subtotal + Σ fee
    amounts. *)
Theorem totals_formulas (now : string) (cash : option Qc) (cart : Cart) :
  let t := buildTransaction now cash cart in
  let d := updateCartDisplay cart in
  tx_subtotal t
    = sumQc (map (λ i, (item_price i * qz (item_quantity i))%Qc) (items cart)) ∧
  tx_totalDiscount t
    = sumQc (map (λ i, (item_price i * (item_discountPercentage i / qz 100)
                        * qz (item_quantity i))%Qc) (items cart)) ∧
  map tf_amount (tx_fees t)
    = map (λ f, if String.eqb (fee_type f) "percentage"
                then ((tx_subtotal t - tx_totalDiscount t) * (fee_value f / qz 100))%Qc
                else fee_value f) (fees cart) ∧
  tx_total t
    = (tx_subtotal t - tx_totalDiscount t + sumQc (map tf_amount (tx_fees t)))%Qc ∧
  d_subtotal d
    = sumQc (map (λ i, (item_effectivePrice i * qz (item_quantity i))%Qc) (items cart)) ∧
  d_feeAmounts d
    = map (λ f, if String.eqb (fee_type f) "percentage"
                then (d_subtotal d * (fee_value f / qz 100))%Qc
                else fee_value f) (fees cart) ∧
  d_total d = (d_subtotal d + sumQc (d_feeAmounts d))%Qc ∧
  paymentTotal cart = d_total d.
Proof.
  cbv zeta. unfold buildTransaction, updateCartDisplay, paymentTotal. simpl.
  rewrite !reduceSum_sum, !map_map. simpl.
  repeat split; reflexivity.
Qed.


(** ** Cart lines (C10) *)








(** ** Fee reconciliation (C9) *)

Lemma filter_ext_Forall {A} (P Q : A → Prop) `{∀ x, Decision (P x)}
    `{∀ x, Decision (Q x)} (l : list A) :
  Forall (λ x, P x ↔ Q x) l → filter P l = filter Q l.
Proof.
  induction 1 as [|x l Hx _ IH]; [done|].
  rewrite !filter_cons, IH.
  destruct (decide (P x)), (decide (Q x)); tauto.
Qed.

Lemma filter_none {A} (P : A → Prop) `{∀ x, Decision (P x)} (l : list A) :
  Forall (λ x, ¬ P x) l → filter P l = [].
Proof.
  induction 1 as [|x l Hx _ IH]; [done|].
  by rewrite filter_cons, decide_False.
Qed.

Lemma filter_all {A} (P : A → Prop) `{∀ x, Decision (P x)} (l : list A) :
  Forall P l → filter P l = l.
Proof.
  induction 1 as [|x l Hx _ IH]; [done|].
  by rewrite filter_cons, decide_True, IH.
Qed.

Lemma allFeesMap_fold_notin (l : list Fee) (m : gmap Z Fee) (k : Z) :
  k ∉ fee_id <$> l → fold_left (λ m f, <[fee_id f := f]> m) l m !! k = m !! k.
Proof.
  revert m. induction l as [|f l IH]; intros m Hk; simpl; [done|].
  rewrite fmap_cons in Hk. apply not_elem_of_cons in Hk as [Hne Hk].
  rewrite IH by done. by rewrite lookup_insert_ne.
Qed.

(** With the primary key unique, the map returns the stored record. *)
Lemma allFeesMap_lookup (allFees : list Fee) (f : Fee) :
  NoDup (fee_id <$> allFees) → f ∈ allFees →
  allFeesMap allFees !! fee_id f = Some f.
Proof.
  unfold allFeesMap. generalize (∅ : gmap Z Fee).
  induction allFees as [|g l IH]; intros m Hnd Hin; [by apply elem_of_nil in Hin|].
  rewrite fmap_cons in Hnd. apply NoDup_cons in Hnd as [Hg Hnd]. simpl.
  apply elem_of_cons in Hin as [->|Hin].
  - rewrite allFeesMap_fold_notin by done. apply lookup_insert_eq.
  - by apply IH.
Qed.

Lemma allFeesMap_lookup_inv (allFees : list Fee) (k : Z) (f : Fee) :
  allFeesMap allFees !! k = Some f → f ∈ allFees ∧ fee_id f = k.
Proof.
  unfold allFeesMap.
  assert (H : ∀ l (m : gmap Z Fee),
            fold_left (λ m f, <[fee_id f := f]> m) l m !! k = Some f →
            (f ∈ l ∧ fee_id f = k) ∨ m !! k = Some f).
  { induction l as [|g l IH]; intros m Hm; simpl in *; [by right|].
    destruct (IH _ Hm) as [[Hin Hk]|Hm'].
    - left. split; [by right | done].
    - destruct (decide (fee_id g = k)) as [<-|Hne].
      + rewrite lookup_insert_eq in Hm'. injection Hm' as ->.
        left. split; [by left | done].
      + rewrite lookup_insert_ne in Hm' by done. by right. }
  intros Hm. destruct (H _ _ Hm) as [?|Hm']; [done|].
  by rewrite lookup_empty in Hm'.
Qed.

Lemma allFeesMap_lookup_None (allFees : list Fee) (k : Z) :
  k ∉ fee_id <$> allFees → allFeesMap allFees !! k = None.
Proof.
  intros Hk. unfold allFeesMap. by rewrite allFeesMap_fold_notin.
Qed.

(** Step 1 keeps, in order, the stored version of every cart fee that
    is still in the store. *)
Lemma keepCartFee_fold (m : gmap Z Fee) (l : list Fee) (acc : list Fee) (s : gset Z) :
  fold_left (keepCartFee m) l (acc, s)
  = (acc ++ omap (λ c, m !! fee_id c) l,
     list_to_set (fee_id <$> filter (λ c, is_Some (m !! fee_id c)) l) ∪ s).
Proof.
  revert acc s. induction l as [|c l IH]; intros acc s; simpl.
  - rewrite app_nil_r. f_equal. set_solver.
  - unfold keepCartFee at 2. rewrite filter_cons.
    destruct (m !! fee_id c) as [f|] eqn:E; simpl.
    + rewrite IH, <- app_assoc. simpl. f_equal.
      change (list_fmap Fee Z fee_id) with (fmap (M:=list) fee_id).
      set_solver.
    + rewrite IH. f_equal.
Qed.

(** Step 2 appends the default fees whose key was not kept by step 1. *)
Lemma addDefaultFee_fold (l : list Fee) (acc : list Fee) (s : gset Z) :
  NoDup (fee_id <$> l) →
  fold_left addDefaultFee l (acc, s)
  = (acc ++ filter (λ d, fee_isDefault d = true ∧ fee_id d ∉ s) l,
     list_to_set (fee_id <$> filter (λ d, fee_isDefault d = true ∧ fee_id d ∉ s) l) ∪ s).
Proof.
  revert acc s. induction l as [|d l IH]; intros acc s Hnd; simpl.
  - rewrite app_nil_r. f_equal. set_solver.
  - rewrite fmap_cons in Hnd. apply NoDup_cons in Hnd as [Hd Hnd].
    unfold addDefaultFee at 2. simpl. rewrite filter_cons.
    destruct (fee_isDefault d) eqn:Edef; simpl.
    + destruct (decide (fee_id d ∉ s)) as [Hs|Hs].
      * rewrite bool_decide_eq_true_2 by done.
        rewrite decide_True by done.
        rewrite IH by done. rewrite <- app_assoc. simpl.
        assert (Hf : filter (λ d0, fee_isDefault d0 = true ∧ fee_id d0 ∉ {[fee_id d]} ∪ s) l
                     = filter (λ d0, fee_isDefault d0 = true ∧ fee_id d0 ∉ s) l).
        { apply filter_ext_Forall. apply Forall_forall. intros x Hx.
          assert (fee_id x ≠ fee_id d).
          { intros Heq. apply Hd. rewrite <- Heq. by apply list_elem_of_fmap_2. }
          set_solver. }
        rewrite Hf. f_equal.
        change (list_fmap Fee Z fee_id) with (fmap (M:=list) fee_id).
        set_solver.
      * rewrite bool_decide_eq_false_2 by done.
        rewrite decide_False by tauto.
        by rewrite IH.
    + by rewrite IH.
Qed.

(** The reconciled list in closed form. *)
Lemma reconcileCartFees_eq (allFees : list Fee) (cart : Cart) :
  NoDup (fee_id <$> allFees) →
  let m := allFeesMap allFees in
  let keptIds : gset Z :=
    list_to_set (fee_id <$> filter (λ c, is_Some (m !! fee_id c)) (fees cart)) in
  fees (reconcileCartFees allFees cart)
  = omap (λ c, m !! fee_id c) (fees cart)
    ++ filter (λ d, fee_isDefault d = true ∧ fee_id d ∉ keptIds) allFees.
Proof.
  intros Hnd m keptIds. unfold reconcileCartFees. simpl.
  fold m. rewrite keepCartFee_fold. rewrite addDefaultFee_fold by done.
  simpl. f_equal. apply filter_ext_Forall, Forall_forall. intros x _.
  subst keptIds. set_solver.
Qed.

Lemma filter_key_absent {A} (h : A → Z) (l : list A) (k : Z) :
  k ∉ h <$> l → filter (λ y, h y = k) l = [].
Proof.
  induction l as [|y l IH]; intros Hk; [done|].
  rewrite fmap_cons in Hk. apply not_elem_of_cons in Hk as [Hne Hk].
  rewrite filter_cons, decide_False by congruence. by apply IH.
Qed.

Lemma filter_key_unique {A} (h : A → Z) (l : list A) (x : A) :
  NoDup (h <$> l) → x ∈ l → filter (λ y, h y = h x) l = [x].
Proof.
  induction l as [|y l IH]; intros Hnd Hin; [by apply elem_of_nil in Hin|].
  rewrite fmap_cons in Hnd. apply NoDup_cons in Hnd as [Hy Hnd].
  rewrite filter_cons. apply elem_of_cons in Hin as [->|Hin].
  - rewrite decide_True by done. f_equal. by apply filter_key_absent.
  - rewrite decide_False; [by apply IH|].
    intros Heq. apply Hy. rewrite Heq. by apply list_elem_of_fmap_2.
Qed.

Lemma filter_omap_key (allFees l : list Fee) (k : Z) :
  filter (λ f, fee_id f = k) (omap (λ c, allFeesMap allFees !! fee_id c) l)
  = omap (λ c, allFeesMap allFees !! fee_id c) (filter (λ c, fee_id c = k) l).
Proof.
  induction l as [|c l IH]; [done|].
  rewrite filter_cons. simpl.
  change (list_omap Fee Fee) with (@omap list _ Fee Fee) in *.
  destruct (allFeesMap allFees !! fee_id c) as [f|] eqn:E.
  - apply allFeesMap_lookup_inv in E as E'. destruct E' as [_ Hid].
    rewrite filter_cons, IH.
    destruct (decide (fee_id c = k)) as [Hk|Hk].
    + rewrite decide_True by congruence. simpl. by rewrite E.
    + by rewrite decide_False by congruence.
  - rewrite IH. destruct (decide (fee_id c = k)); simpl; [by rewrite E | done].
Qed.

Lemma omap_fixed {A} (g : A → option A) (l : list A) :
  Forall (λ x, g x = Some x) l → omap g l = l.
Proof.
  induction 1 as [|x l Hx _ IH]; [done|].
  change (omap g (x :: l))
    with (match g x with Some y => y :: omap g l | None => omap g l end).
  by rewrite Hx, IH.
Qed.

(** Every reconciled fee is a record of the store. *)
Lemma reconciled_in_store (allFees : list Fee) (cart : Cart) (f : Fee) :
  NoDup (fee_id <$> allFees) →
  f ∈ fees (reconcileCartFees allFees cart) → f ∈ allFees.
Proof.
  intros Hnd. rewrite reconcileCartFees_eq by done. cbv zeta.
  rewrite elem_of_app, list_elem_of_omap, list_elem_of_filter.
  intros [[c [_ Hc]] | [_ Hin]]; [|done].
  by apply allFeesMap_lookup_inv in Hc as [? _].
Qed.

(** Every default fee of the store is in the reconciled list. *)
Lemma defaults_in_reconciled (allFees : list Fee) (cart : Cart) (d : Fee) :
  NoDup (fee_id <$> allFees) → d ∈ allFees → fee_isDefault d = true →
  d ∈ fees (reconcileCartFees allFees cart).
Proof.
  intros Hnd Hd Hdef. rewrite reconcileCartFees_eq by done. cbv zeta.
  rewrite elem_of_app, list_elem_of_omap, list_elem_of_filter.
  set (kept := list_to_set _ : gset Z).
  destruct (decide (fee_id d ∈ kept)) as [Hk|Hk]; [|by right].
  left. subst kept. apply elem_of_list_to_set, list_elem_of_fmap in Hk
    as [c [Hid Hc]].
  apply list_elem_of_filter in Hc as [[f Hf] Hc].
  exists c. split; [done|].
  apply allFeesMap_lookup_inv in Hf as Hf'. destruct Hf' as [Hfin Hfid].
  rewrite Hf. f_equal.
  assert (Hone := filter_key_unique fee_id allFees d Hnd Hd).
  assert (Hf2 : f ∈ filter (λ y, fee_id y = fee_id d) allFees).
  { apply list_elem_of_filter. split; [congruence | done]. }
  rewrite Hone in Hf2. by apply list_elem_of_singleton in Hf2.
Qed.

(** C9. Let the cart hold a fee [F] whose record in the store is [F'],
    and let the store hold a default fee [D] that the cart does not
    hold. After [reconcileCartFees] the cart's fee list holds exactly one
    fee with [F]'s key, namely the stored record [F'], and exactly one
    with [D]'s key, namely [D]; a cart fee whose key is no longer in the
    store is not in the list; and reconciling again changes nothing. The
    keys of the store are unique (primary key), and so are those of the
    cart's fees, which are always selected out of the store. *)
Theorem reconcile_fees (allFees : list Fee) (cart : Cart) (F F' D : Fee) :
  NoDup (fee_id <$> allFees) →
  NoDup (fee_id <$> fees cart) →
  F ∈ fees cart → F' ∈ allFees → fee_id F' = fee_id F →
  D ∈ allFees → fee_isDefault D = true → fee_id D ∉ fee_id <$> fees cart →
  let r := reconcileCartFees allFees cart in
  filter (λ f, fee_id f = fee_id F) (fees r) = [F'] ∧
  filter (λ f, fee_id f = fee_id D) (fees r) = [D] ∧
  (∀ G, G ∈ fees cart → fee_id G ∉ fee_id <$> allFees →
        fee_id G ∉ fee_id <$> fees r) ∧
  reconcileCartFees allFees r = r.
Proof.
  intros Hnd Hcart HF HF' Hid HD Hdef HDcart r.
  assert (HmF : allFeesMap allFees !! fee_id F = Some F').
  { rewrite <- Hid. by apply allFeesMap_lookup. }
  assert (Hr := reconcileCartFees_eq allFees cart Hnd). cbv zeta in Hr. fold r in Hr.
  set (kept := list_to_set _ : gset Z) in Hr.
  assert (HFkept : fee_id F ∈ kept).
  { subst kept. apply elem_of_list_to_set, list_elem_of_fmap_2.
    apply list_elem_of_filter. split; [by rewrite HmF | done]. }
  assert (HDkept : fee_id D ∉ kept).
  { subst kept. rewrite elem_of_list_to_set. intros Hin. apply HDcart.
    apply list_elem_of_fmap in Hin as [c [-> Hc]].
    apply list_elem_of_filter in Hc as [_ Hc]. by apply list_elem_of_fmap_2. }
  split; [|split; [|split]].
  - rewrite Hr, filter_app, filter_omap_key.
    rewrite (filter_key_unique fee_id (fees cart) F) by done. simpl.
    rewrite HmF. f_equal.
    rewrite list_filter_filter.
    rewrite filter_none; [done|].
    apply Forall_forall. intros x _ [Hx [_ Hk]]. rewrite Hx in Hk. done.
  - rewrite Hr, filter_app, filter_omap_key.
    rewrite (filter_key_absent fee_id (fees cart)) by done. simpl.
    rewrite list_filter_filter.
    rewrite (filter_ext_Forall _ (λ y, fee_id y = fee_id D)).
    + by apply filter_key_unique.
    + apply Forall_forall. intros x Hx. split; [tauto|].
      intros Hk. split; [done|].
      assert (Hx' : x ∈ filter (λ y, fee_id y = fee_id D) allFees)
        by (by apply list_elem_of_filter).
      rewrite (filter_key_unique fee_id allFees D) in Hx' by done.
      apply list_elem_of_singleton in Hx' as ->. done.
  - intros G _ HG Hin. apply HG.
    apply list_elem_of_fmap in Hin as [f [-> Hf]].
    apply list_elem_of_fmap_2. by eapply reconciled_in_store.
  - assert (Hfix : fees (reconcileCartFees allFees r) = fees r).
    { assert (Hr2 := reconcileCartFees_eq allFees r Hnd). cbv zeta in Hr2.
      rewrite Hr2.
      assert (Hall : Forall (λ x, allFeesMap allFees !! fee_id x = Some x) (fees r)).
      { apply Forall_forall. intros x Hx. apply allFeesMap_lookup; [done|].
        by eapply reconciled_in_store. }
      rewrite omap_fixed by done.
      rewrite filter_none; [by rewrite app_nil_r|].
      apply Forall_forall. intros x Hx [Hxd Hxk]. apply Hxk.
      apply elem_of_list_to_set, list_elem_of_fmap_2, list_elem_of_filter.
      assert (Hxr : x ∈ fees r) by (by apply defaults_in_reconciled).
      split; [|done].
      eapply Forall_forall in Hall; [|exact Hxr]. by rewrite Hall. }
    unfold reconcileCartFees in *. simpl in *. by rewrite Hfix.
Qed.

(** The fee lists the cart can hold are selections out of the store,
    so their keys are unique whenever the store's are. *)
Lemma filter_keys_NoDup {A} (h : A → Z) (P : A → Prop) `{∀ x, Decision (P x)}
    (l : list A) :
  NoDup (h <$> l) → NoDup (h <$> filter P l).
Proof.
  induction l as [|x l IH]; [done|].
  rewrite fmap_cons, NoDup_cons. intros [Hx Hnd].
  rewrite filter_cons. destruct (decide (P x)); [|by apply IH].
  rewrite fmap_cons, NoDup_cons. split; [|by apply IH].
  intros Hin. apply Hx. apply list_elem_of_fmap in Hin as [y [-> Hy]].
  apply list_elem_of_filter in Hy as [_ Hy]. by apply list_elem_of_fmap_2.
Qed.

Lemma kept_keys_NoDup (allFees l : list Fee) :
  NoDup (fee_id <$> l) →
  NoDup (fee_id <$> omap (λ c, allFeesMap allFees !! fee_id c) l).
Proof.
  induction l as [|c l IH]; [constructor|].
  rewrite fmap_cons, NoDup_cons. intros [Hc Hnd].
  change (omap ?g (c :: l))
    with (match g c with Some y => y :: omap g l | None => omap g l end).
  cbv beta.
  destruct (allFeesMap allFees !! fee_id c) as [f|] eqn:E; [|by apply IH].
  apply allFeesMap_lookup_inv in E as [_ Hid].
  rewrite fmap_cons, NoDup_cons. split; [|by apply IH].
  intros Hin. apply Hc. rewrite Hid in Hin.
  apply list_elem_of_fmap in Hin as [y [Hy Hin]].
  apply list_elem_of_omap in Hin as [c' [Hc' Hlook]].
  apply allFeesMap_lookup_inv in Hlook as [_ Hid'].
  rewrite Hy, Hid'. by apply list_elem_of_fmap_2.
Qed.

(** X11. While the fees of the store have distinct keys, the fees of
    the cart have distinct keys after [applyDefaultFees] and after
    [applySelectedFees], and [reconcileCartFees] keeps them distinct. *)
Lemma cart_fee_keys_unique (allFees : list Fee) (selected : list Z) (cart : Cart) :
  NoDup (fee_id <$> allFees) →
  NoDup (fee_id <$> fees (applyDefaultFees allFees cart)) ∧
  NoDup (fee_id <$> fees (applySelectedFees allFees selected cart)) ∧
  (NoDup (fee_id <$> fees cart) →
   NoDup (fee_id <$> fees (reconcileCartFees allFees cart))).
Proof.
  intros Hnd. split; [|split].
  - by apply filter_keys_NoDup.
  - by apply filter_keys_NoDup.
  - intros Hcart. rewrite reconcileCartFees_eq by done. cbv zeta.
    rewrite fmap_app. apply NoDup_app. split; [|split].
    + by apply kept_keys_NoDup.
    + intros k Hk Hk'.
      apply list_elem_of_fmap in Hk as [f [-> Hf]].
      apply list_elem_of_omap in Hf as [c [Hc Hlook]].
      apply list_elem_of_fmap in Hk' as [d [Hfd Hd]].
      apply list_elem_of_filter in Hd as [[_ Hd] _]. apply Hd.
      apply allFeesMap_lookup_inv in Hlook as Hl. destruct Hl as [_ Hid].
      rewrite <- Hfd, Hid.
      apply elem_of_list_to_set, list_elem_of_fmap_2, list_elem_of_filter.
      split; [by rewrite Hlook | done].
    + by apply filter_keys_NoDup.
Qed.

Lemma reconcile_fees_witness :
  let r := reconcileCartFees storeFees cartWithService in
  filter (λ f, fee_id f = fee_id service) (fees r) = [serviceEdited] ∧
  filter (λ f, fee_id f = fee_id ppn10) (fees r) = [ppn10] ∧
  (∀ G, G ∈ fees cartWithService → fee_id G ∉ fee_id <$> storeFees →
        fee_id G ∉ fee_id <$> fees r) ∧
  reconcileCartFees storeFees r = r.
Proof.
  apply (reconcile_fees storeFees cartWithService service serviceEdited ppn10);
    by_compute.
Defined.

(** ** Stock counts (C2) *)


Lemma lookupRow_Forall {A} (P : Z * A → Prop) (k : Z) (v : A) (l : list (Z * A)) :
  Forall P l → lookupRow k l = Some v → P (k, v).
Proof.
  induction 1 as [|[k' v'] l Hx Hl IH]; simpl; [done|].
  destruct (k' =? k) eqn:E; [|done].
  intros [= <-]. apply Z.eqb_eq in E. by subst.
Qed.


(** C2 (code at the failing input). The checkout subtracts the cart
    quantity from the stored stock without comparing them: the stored
    count ends at -1. *)
Theorem checkout_drives_stock_negative :
  stockNonNegative (shopWith tea) ∧
  p_stock <$> tget (products oversoldDB) 1 = Some (-1) ∧
  ¬ stockNonNegative oversoldDB.
Proof.
  assert (E : p_stock <$> tget (products oversoldDB) 1 = Some (-1)) by by_compute.
  split; [|split; [exact E|]].
  - repeat constructor. simpl. lia.
  - intros H. unfold tget in E.
    destruct (lookupRow 1 (rows (products oversoldDB))) as [p|] eqn:Hp; [|done].
    apply (lookupRow_Forall _ _ _ _ H) in Hp. simpl in *.
    injection E as E. lia.
Qed.

(** ** Atomicity of the checkout (C1) *)

(** C1 (code at the failing input). In the application the checkout
    reports no failure, stores the Transaction record and decrements the
    stock of the first line (5 → 4). In [src/index.js] the checkout
    reports the missing product, and its IndexedDB transaction, which
    nothing aborts, still commits the Transaction record and the
    decrement of the first line. *)
Theorem checkout_commits_partially :
  (let db' := (completeTransaction now0 (Some (qz 18000)) twoLineCart
                                   (shopWith coffee)).1 in
   length (rows (transactions db')) = 1%nat ∧
   p_stock <$> tget (products db') 1 = Some 4) ∧
  (let r := IndexJs.completeTransaction now0 "TRX-1" (qz 18000) twoLineCartJs
                                        (shopJsWith coffee) in
   r.2 = IndexJs.Failed 2 ∧
   length (rows (IndexJs.transactions r.1)) = 1%nat ∧
   p_stock <$> tget (IndexJs.products r.1) 1 = Some 4).
Proof. by_compute. Qed.

(** ** Checkout validation (C7) *)

(** The cash field's listener is the only place where the tendered cash
    is compared with the total: it disables the button exactly when the
    cash is short. *)
Lemma cash_input_gates_button (text : option Qc) (app : App) :
  completeDisabled (app_ui (onCashPaidInput text app)) = true
  ↔ (cashPaidOf text < paymentTotal (app_cart app))%Qc.
Proof.
  unfold onCashPaidInput. simpl.
  rewrite negb_true_iff, bool_decide_eq_false.
  unfold Qcminus. rewrite <- Qcle_minus_iff. split.
  - apply Qcnot_le_lt.
  - apply Qclt_not_le.
Qed.

(** C7 (code at the failing input). [completeTransaction] checks neither
    the cart nor the cash. The button that guards it is enabled again by
    the [finally] block of the previous checkout and is not reset when
    the dialog opens with an empty cash field, so the second sale is
    stored with cash 0 for a total of 8000; called on an empty cart,
    [completeTransaction] stores a Transaction without items. *)
Theorem checkout_accepts_unpaid :
  map (λ kv, (tx_total kv.2, tx_cashPaid kv.2, tx_change kv.2))
      (rows (transactions (app_db twoSales)))
  = [(qz 8000, qz 10000, qz 2000); (qz 8000, qz 0, qz (-8000))] ∧
  map (λ kv, (tx_items kv.2, tx_total kv.2))
      (rows (transactions
               (completeTransaction now0 None emptyCart (shopWith coffee)).1))
  = [([], qz 0)].
Proof. by_compute. Qed.

Lemma lookupRow_upsert {A} (k : Z) (v : A) (l : list (Z * A)) :
  lookupRow k (upsert k v l) = Some v.
Proof.
  induction l as [|[k' v'] l IH]; simpl.
  - by rewrite Z.eqb_refl.
  - destruct (k <? k') eqn:E1; simpl; [by rewrite Z.eqb_refl|].
    destruct (k =? k') eqn:E2; simpl; [by rewrite Z.eqb_refl|].
    rewrite Z.eqb_sym, E2. exact IH.
Qed.

Lemma revB_updateStock_transactions (now : string) (l : list RevB.CartItem) (db : RevB.DB) :
  RevB.transactions (fold_left (RevB.updateStock now) l db) = RevB.transactions db.
Proof.
  revert db. induction l as [|item l IH]; intros db; [done|].
  simpl. rewrite IH. unfold RevB.updateStock.
  by destruct (tget (RevB.products db) (RevB.id item)).
Qed.

(** X13. The earlier revision of [completeTransaction] does what C7 states:
    an empty cart and short cash are refused with nothing stored and the
    cart untouched, and a stored Transaction has cash ≥ total. *)
Lemma revB_checkout_validates (now : string) (cashPaidInput : option Z)
    (allFees : list Fee) (cart : RevB.Cart) (db : RevB.DB) :
  let r := RevB.completeTransaction now cashPaidInput allFees cart db in
  (RevB.items cart = [] → r = (db, cart, RevB.EmptyCart)) ∧
  (r.2 = RevB.EmptyCart ∨ r.2 = RevB.InsufficientPayment →
   r.1.1 = db ∧ r.1.2 = cart) ∧
  (∀ transactionId, r.2 = RevB.Committed transactionId →
     ∃ t, tget (RevB.transactions r.1.1) transactionId = Some t ∧
          (RevB.total t ≤ qz (RevB.cashPaid t))%Qc).
Proof.
  cbv zeta. unfold RevB.completeTransaction.
  destruct (RevB.items cart) as [|item l] eqn:Hitems.
  { split; [done|]. split; [done|]. intros ? [=]. }
  split; [done|].
  set (subtotal := reduceSum _ (item :: l)).
  set (total := fold_left _ (RevB.fees cart) subtotal).
  destruct (bool_decide (qz (default 0%Z cashPaidInput) < total)%Qc) eqn:Hcash.
  { split; [done|]. intros ? [=]. }
  apply bool_decide_eq_false in Hcash. apply Qcnot_lt_le in Hcash.
  unfold tputNew. cbv iota beta. cbn [fst snd].
  split.
  - intros [H|H]; discriminate.
  - intros transactionId [= <-].
    eexists. split.
    + rewrite revB_updateStock_transactions. cbn [RevB.transactions RevB.queueSyncAction].
      apply lookupRow_upsert.
    + exact Hcash.
Qed.

Example revB_refuses_unpaid :
  RevB.completeTransaction now0 None [] oneCoffeeB (shopBWith coffee)
  = (shopBWith coffee, oneCoffeeB, RevB.InsufficientPayment).
Proof. reflexivity. Qed.

(** ** Schema migration 6 → 7 (C8) *)

Lemma contains_app_l (names : list string) (name extra : string) :
  Sync.contains names name = true → Sync.contains (names ++ [extra]) name = true.
Proof.
  unfold Sync.contains. rewrite !bool_decide_eq_true, elem_of_app. by left.
Qed.

(** C8. On a database of version 6 (with a [settings] store and no
    [fees] store) whose settings hold [storePpn] = 10, the upgrade to
    version 7 completes; it creates the [fees] store, whose only record
    is the fee PPN, a 10 percent default tax (under the first generated
    key), and removes the [storePpn] setting; the other stores are left
    as they were. All of it is the work of the one upgrade transaction. *)
Theorem migration_6_to_7 (toNumber : string → option Qc) (now : string) (d : Sync.DB) :
  "settings" ∈ Sync.objectStoreNames d →
  "fees" ∉ Sync.objectStoreNames d →
  Sync.settings d !! "storePpn" = Some (Sync.VNum (qz 10)) →
  ∃ d', Sync.onupgradeneeded toNumber now 6 d = Some d' ∧
        Sync.objectStoreNames d' = Sync.objectStoreNames d ++ ["fees"] ∧
        rows (Sync.tab (Sync.fees d'))
        = [(1, {[ "name" := Sync.VStr "PPN";
                  "type" := Sync.VStr "percentage";
                  "value" := Sync.VNum (qz 10);
                  "isDefault" := Sync.VBool true;
                  "isTax" := Sync.VBool true;
                  "createdAt" := Sync.VStr now ]})] ∧
        Sync.settings d' = delete "storePpn" (Sync.settings d) ∧
        Sync.settings d' !! "storePpn" = None ∧
        Sync.products d' = Sync.products d ∧
        Sync.categories d' = Sync.categories d ∧
        Sync.transactions d' = Sync.transactions d ∧
        Sync.sync_queue d' = Sync.sync_queue d.
Proof.
  intros Hsettings Hfees Hppn.
  assert (Hc1 : Sync.contains (Sync.objectStoreNames d) "fees" = false)
    by (by apply bool_decide_eq_false).
  assert (Hc2 : Sync.contains (Sync.objectStoreNames d ++ ["fees"]) "settings" = true)
    by (apply contains_app_l; by apply bool_decide_eq_true).
  unfold Sync.onupgradeneeded, Sync.guarded. simpl.
  unfold Sync.block7, Sync.unless. simpl. rewrite Hc1. simpl. rewrite Hc2. simpl.
  unfold Sync.movePpn. simpl. rewrite Hppn.
  assert (Hpos : Sync.positive toNumber (Sync.VNum (qz 10)) = true) by by_compute.
  rewrite Hpos.
  eexists. split; [reflexivity|]. simpl.
  repeat split; try reflexivity. apply lookup_delete_eq.
Qed.

Lemma migration_6_to_7_witness :
  ∃ d', Sync.onupgradeneeded (λ _, None) now0 6 dbVersion6 = Some d' ∧
        Sync.objectStoreNames d' = Sync.objectStoreNames dbVersion6 ++ ["fees"] ∧
        rows (Sync.tab (Sync.fees d'))
        = [(1, {[ "name" := Sync.VStr "PPN";
                  "type" := Sync.VStr "percentage";
                  "value" := Sync.VNum (qz 10);
                  "isDefault" := Sync.VBool true;
                  "isTax" := Sync.VBool true;
                  "createdAt" := Sync.VStr now0 ]})] ∧
        Sync.settings d' = delete "storePpn" (Sync.settings dbVersion6) ∧
        Sync.settings d' !! "storePpn" = None ∧
        Sync.products d' = Sync.products dbVersion6 ∧
        Sync.categories d' = Sync.categories dbVersion6 ∧
        Sync.transactions d' = Sync.transactions dbVersion6 ∧
        Sync.sync_queue d' = Sync.sync_queue dbVersion6.
Proof.
  apply (migration_6_to_7 (λ _, None) now0 dbVersion6); by_compute.
Defined.

(** ** The outbox drain (C6) *)

Lemma setStore_keeps (d : Sync.DB) (storeName : string) (s : Sync.ObjectStore) :
  Sync.sync_queue (Sync.setStore d storeName s) = Sync.sync_queue d ∧
  Sync.settings (Sync.setStore d storeName s) = Sync.settings d.
Proof.
  unfold Sync.setStore.
  repeat (destruct (String.eqb storeName _); [done|]). done.
Qed.

(** Writing the server's identity back touches neither the queue nor
    the settings. *)
Lemma writeBack_keeps (d d1 : Sync.DB) (task : Sync.Task) (r : Sync.Response) :
  Sync.writeBack d task r = Some d1 →
  Sync.sync_queue d1 = Sync.sync_queue d ∧ Sync.settings d1 = Sync.settings d.
Proof.
  unfold Sync.writeBack.
  destruct (_ && _ && _); [|by intros [= <-]].
  destruct (Sync.getStore d _) as [s|]; [|by intros [= <-]].
  destruct (Sync.localId r) as [k|]; [|by intros [= <-]].
  destruct (tget _ k) as [item|]; [|by intros [= <-]].
  destruct (Sync.putAt s k _) as [s'|]; [|done].
  intros [= <-]. apply setStore_keeps.
Qed.

Lemma removeRow_notin {A} (k : Z) (l : list (Z * A)) :
  k ∉ l.*1 → removeRow k l = l.
Proof.
  unfold removeRow. induction l as [|[k' v] l IH]; [done|].
  rewrite fmap_cons, not_elem_of_cons. simpl. intros [Hne Hk].
  rewrite filter_cons, decide_True by (simpl; congruence).
  f_equal. by apply IH.
Qed.

(** Deleting the keys of a prefix of the rows leaves the rest. *)
Lemma removeRow_prefix {A} (a b : list (Z * A)) :
  NoDup (a ++ b).*1 →
  fold_left (λ l k, removeRow k l) a.*1 (a ++ b) = b.
Proof.
  induction a as [|[k v] a IH]; [done|].
  rewrite <- app_comm_cons, !fmap_cons. cbn [fst fold_left].
  rewrite NoDup_cons. intros [Hk Hnd].
  unfold removeRow at 2. rewrite filter_cons, decide_False by (simpl; tauto).
  fold (removeRow k (a ++ b)). rewrite removeRow_notin by done. by apply IH.
Qed.

(** What the loop does, for any queue: it pushes the tasks in queue
    order, deletes every task whose push succeeded, and stops at the
    first task that does not get through. *)
Lemma drain_spec (api : Z → Sync.Task → Sync.Response)
    (queue : list (Z * Sync.Task)) (d : Sync.DB) (log : list Sync.SyncEvent)
    (d' : Sync.DB) (log' : list Sync.SyncEvent) (ok : bool) :
  Sync.drain api d queue log = (d', log', ok) →
  ∃ pushed rest,
    queue = pushed ++ rest ∧
    Forall (λ x, Sync.success (api x.1 x.2) = true) pushed ∧
    rows (Sync.sync_queue d')
    = fold_left (λ l k, removeRow k l) pushed.*1 (rows (Sync.sync_queue d)) ∧
    Sync.settings d' = Sync.settings d ∧
    log' = log ++ (Sync.EvPush <$> (pushed ++ take 1 rest).*1) ∧
    (ok = true → rest = []) ∧ (ok = false → rest ≠ []).
Proof.
  revert d log. induction queue as [|[taskId task] queue IH]; intros d log; simpl.
  - intros [= <- <- <-]. exists [], []. simpl. rewrite app_nil_r.
    repeat split; auto.
  - destruct (Sync.success (api taskId task)) eqn:Hs.
    + destruct (Sync.writeBack d task (api taskId task)) as [d1|] eqn:Hw.
      * intros Hd. apply IH in Hd
          as (pushed & rest & -> & Hall & Hrows & Hset & -> & Hok & Hko).
        apply writeBack_keeps in Hw as [Hq1 Hs1].
        exists ((taskId, task) :: pushed), rest.
        split; [done|]. split; [by constructor|].
        split; [by rewrite Hrows, <- Hq1|].
        split; [by rewrite Hset|].
        split; [by rewrite <- app_assoc|]. done.
      * intros [= <- <- <-]. exists [], ((taskId, task) :: queue).
        repeat split; auto; done.
    + intros [= <- <- <-]. exists [], ((taskId, task) :: queue).
      repeat split; auto; done.
Qed.



Example drain_run :
  let r := Sync.syncWithServer (λ _, None) flakyApi nothingNew now0
             (Sync.mkSync true false offlineDB) in
  r.1.2 = [Sync.EvPush 1; Sync.EvPush 2] ∧
  rows (Sync.sync_queue (Sync.db r.1.1)) = [task2; task3] ∧
  rows (Sync.tab (Sync.products (Sync.db r.1.1)))
  = [(1, <["serverId" := Sync.VStr "server_1"]> kopi)].
Proof. cbv zeta. repeat split; vm_compute; reflexivity. Qed.

(** ** Tables with generated keys *)

Lemma between_weaken {A} (lo lo' hi hi' : Z) (l : list (Z * A)) :
  between lo hi l → lo' ≤ lo → hi ≤ hi' → between lo' hi' l.
Proof.
  revert lo lo'. induction l as [|kv l IH]; intros lo lo' H Hlo Hhi; [done|].
  destruct H as (H1 & H2 & H3). simpl. split; [lia|]. split; [lia|].
  eapply IH; eauto. lia.
Qed.

Lemma between_elem {A} (lo hi : Z) (l : list (Z * A)) (kv : Z * A) :
  between lo hi l → kv ∈ l → lo < kv.1 < hi.
Proof.
  revert lo. induction l as [|x l IH]; intros lo H Hin; [by apply elem_of_nil in Hin|].
  destruct H as (H1 & H2 & H3). apply elem_of_cons in Hin as [->|Hin]; [lia|].
  specialize (IH _ H3 Hin). lia.
Qed.

Lemma between_NoDup {A} (lo hi : Z) (l : list (Z * A)) :
  between lo hi l → NoDup l.*1.
Proof.
  revert lo. induction l as [|x l IH]; intros lo H; [constructor|].
  destruct H as (H1 & H2 & H3). rewrite fmap_cons. apply NoDup_cons.
  split; [|by eapply IH].
  intros Hin. apply list_elem_of_fmap in Hin as [y [Hy Hin]].
  apply (between_elem _ _ _ _ H3) in Hin. lia.
Qed.

Lemma upsert_at {A} (lo hi k : Z) (v v0 : A) (l : list (Z * A)) (i : nat) :
  between lo hi l → l !! i = Some (k, v0) → upsert k v l = <[i := (k, v)]> l.
Proof.
  revert lo i. induction l as [|[k' v'] l IH]; intros lo i H Hi; [done|].
  destruct H as (H1 & H2 & H3). simpl in *. destruct i as [|i]; simpl in *.
  - injection Hi as -> ->. by rewrite Z.ltb_irrefl, Z.eqb_refl.
  - assert (Hk := between_elem _ _ _ _ H3 (list_elem_of_lookup_2 _ _ _ Hi)).
    simpl in Hk.
    rewrite (proj2 (Z.ltb_ge k k')) by lia.
    rewrite (proj2 (Z.eqb_neq k k')) by lia.
    f_equal. by eapply IH.
Qed.

Lemma upsert_end {A} (lo hi k : Z) (v : A) (l : list (Z * A)) :
  between lo hi l → hi ≤ k → upsert k v l = l ++ [(k, v)].
Proof.
  revert lo. induction l as [|[k' v'] l IH]; intros lo H Hk; [done|].
  destruct H as (H1 & H2 & H3). simpl in *.
  rewrite (proj2 (Z.ltb_ge k k')) by lia.
  rewrite (proj2 (Z.eqb_neq k k')) by lia.
  f_equal. by eapply IH.
Qed.

Lemma between_insert {A} (lo hi k : Z) (v v0 : A) (l : list (Z * A)) (i : nat) :
  between lo hi l → l !! i = Some (k, v0) → between lo hi (<[i := (k, v)]> l).
Proof.
  revert lo i. induction l as [|[k' v'] l IH]; intros lo i H Hi; [done|].
  destruct H as (H1 & H2 & H3). destruct i as [|i]; simpl in *.
  - by injection Hi as -> ->.
  - split; [done|]. split; [done|]. by eapply IH.
Qed.

Lemma between_snoc {A} (lo hi k : Z) (v : A) (l : list (Z * A)) :
  between lo hi l → lo < k → hi ≤ k → between lo (k + 1) (l ++ [(k, v)]).
Proof.
  revert lo. induction l as [|[k' v'] l IH]; intros lo H Hlo Hk; simpl.
  - repeat split; simpl; lia.
  - destruct H as (H1 & H2 & H3). simpl in *.
    split; [done|]. split; [lia|]. apply IH; [done | lia | done].
Qed.

Lemma between_filter {A} (lo hi : Z) (P : Z * A → Prop) `{∀ x, Decision (P x)}
    (l : list (Z * A)) :
  between lo hi l → between lo hi (filter P l).
Proof.
  revert lo. induction l as [|kv l IH]; intros lo Hb; [done|].
  destruct Hb as (H1 & H2 & H3). rewrite filter_cons.
  destruct (decide (P kv)).
  - simpl. split; [done|]. split; [done|]. by apply IH.
  - apply IH. eapply between_weaken; eauto; lia.
Qed.

Lemma lookupRow_elem {A} (lo hi k : Z) (v : A) (l : list (Z * A)) :
  between lo hi l → (k, v) ∈ l → lookupRow k l = Some v.
Proof.
  revert lo. induction l as [|[k' v'] l IH]; intros lo H Hin; [by apply elem_of_nil in Hin|].
  destruct H as (H1 & H2 & H3). simpl in *.
  apply elem_of_cons in Hin as [[= -> ->]|Hin].
  - by rewrite Z.eqb_refl.
  - assert (Hk := between_elem _ _ _ _ H3 Hin). simpl in Hk.
    rewrite (proj2 (Z.eqb_neq k' k)) by lia. by eapply IH.
Qed.

(** An entry is put behind all the entries queued before it: [getAll]
    returns the queue in the order of the calls of [queueSyncAction]. *)
Lemma enqueue_appends {A} (t : Table A) (v : A) :
  wfTable t →
  rows (tputNew t v).1 = rows t ++ [(nextKey t, v)] ∧ wfTable (tputNew t v).1.
Proof.
  intros [Hnk Hbet]. simpl.
  rewrite (upsert_end 0 (nextKey t)) by (done || lia).
  split; [done|]. split; simpl; [lia|].
  apply (between_snoc 0 (nextKey t)); [done | lia | lia].
Qed.

(** ** The map from server identities to local objects *)

Lemma serverIdEntries_from (l : list (Z * Sync.Rec)) :
  Sync.serverIdEntries l = entriesFrom 0 l.
Proof. reflexivity. Qed.

Lemma entriesFrom_cons (n : nat) (x : Z * Sync.Rec) (l : list (Z * Sync.Rec)) :
  entriesFrom n (x :: l)
  = (if Sync.truthy (sidOf x) then [(sidOf x, n)] else []) ++ entriesFrom (S n) l.
Proof.
  unfold entriesFrom. rewrite imap_cons, filter_cons. simpl.
  rewrite Nat.add_0_r.
  assert (E : imap ((λ i p, (sidOf p, (n + i)%nat)) ∘ S) l
              = imap (λ i p, (sidOf p, (S n + i)%nat)) l).
  { apply imap_ext. intros i y _. simpl. f_equal. lia. }
  rewrite E. destruct (Sync.truthy (sidOf x)) eqn:Ht.
  - by rewrite decide_True.
  - by rewrite decide_False.
Qed.

Lemma sids_cons (x : Z * Sync.Rec) (l : list (Z * Sync.Rec)) :
  sids (x :: l) = (if Sync.truthy (sidOf x) then [sidOf x] else []) ++ sids l.
Proof.
  unfold sids. rewrite fmap_cons, filter_cons.
  destruct (Sync.truthy (sidOf x)) eqn:Ht.
  - by rewrite decide_True.
  - by rewrite decide_False.
Qed.

Lemma elem_of_sids (l : list (Z * Sync.Rec)) (s : Sync.val) :
  s ∈ sids l ↔ Sync.truthy s = true ∧ ∃ o, o ∈ l ∧ sidOf o = s.
Proof.
  unfold sids. rewrite list_elem_of_filter, list_elem_of_fmap.
  split; intros [Ht [o Ho]]; (split; [done|]); exists o; naive_solver.
Qed.

(** The map answers with the last local object that carries the
    identity. *)
Lemma mapGet_Some (n : nat) (l : list (Z * Sync.Rec)) (s : Sync.val) (j : nat) :
  Sync.mapGet (entriesFrom n l) s = Some j →
  ∃ i o, j = (n + i)%nat ∧ l !! i = Some o ∧ sidOf o = s ∧ Sync.truthy s = true.
Proof.
  revert n. induction l as [|x l IH]; intros n; [done|].
  rewrite entriesFrom_cons.
  destruct (Sync.truthy (sidOf x)) eqn:Ht; simpl.
  - destruct (Sync.mapGet (entriesFrom (S n) l) s) as [j'|] eqn:E.
    + intros [= <-]. apply IH in E as (i & o & -> & Hi & Hs & Hts).
      exists (S i), o. split; [lia|]. done.
    + destruct (decide (sidOf x = s)) as [<-|]; [|done].
      intros [= <-]. exists 0%nat, x. split; [lia|]. done.
  - intros E. apply IH in E as (i & o & -> & Hi & Hs & Hts).
    exists (S i), o. split; [lia|]. done.
Qed.

Lemma mapGet_None (n : nat) (l : list (Z * Sync.Rec)) (s : Sync.val) :
  Sync.mapGet (entriesFrom n l) s = None → s ∉ sids l.
Proof.
  revert n. induction l as [|x l IH]; intros n.
  - intros _ Hin. by apply elem_of_nil in Hin.
  - rewrite entriesFrom_cons, sids_cons.
    destruct (Sync.truthy (sidOf x)) eqn:Ht; simpl.
    + destruct (Sync.mapGet (entriesFrom (S n) l) s) as [j'|] eqn:E; [done|].
      destruct (decide (sidOf x = s)) as [|Hne]; [done|].
      intros _. apply not_elem_of_cons. split; [done|]. by eapply IH.
    + apply IH.
Qed.

Lemma mapGet_unique (n : nat) (l : list (Z * Sync.Rec)) (i : nat) (o : Z * Sync.Rec) :
  NoDup (sids l) → l !! i = Some o → Sync.truthy (sidOf o) = true →
  Sync.mapGet (entriesFrom n l) (sidOf o) = Some (n + i)%nat.
Proof.
  revert n i. induction l as [|x l IH]; intros n i Hnd Hi Ht; [done|].
  rewrite entriesFrom_cons. rewrite sids_cons in Hnd.
  destruct i as [|i]; simpl in Hi.
  - injection Hi as ->. rewrite Ht in *. simpl in *.
    apply NoDup_cons in Hnd as [Hx _].
    destruct (Sync.mapGet (entriesFrom (S n) l) (sidOf o)) as [j|] eqn:E.
    + exfalso. apply Hx. apply mapGet_Some in E as (i & o' & _ & Hi & Hs & _).
      apply elem_of_sids. split; [done|]. exists o'.
      split; [by eapply list_elem_of_lookup_2 | done].
    + rewrite decide_True by done. f_equal. lia.
  - assert (Hnd' : NoDup (sids l)).
    { destruct (Sync.truthy (sidOf x)); simpl in Hnd; [by apply NoDup_cons in Hnd as []|done]. }
    specialize (IH (S n) i Hnd' Hi Ht).
    destruct (Sync.truthy (sidOf x)); simpl; rewrite IH; f_equal; lia.
Qed.

Lemma sids_app (l1 l2 : list (Z * Sync.Rec)) : sids (l1 ++ l2) = sids l1 ++ sids l2.
Proof. unfold sids. by rewrite fmap_app, filter_app. Qed.

Lemma sids_insert (l : list (Z * Sync.Rec)) (i : nat) (a b : Z * Sync.Rec) :
  l !! i = Some a → sidOf b = sidOf a → sids (<[i := b]> l) = sids l.
Proof.
  intros Hi Hs. unfold sids. rewrite list_fmap_insert, Hs.
  rewrite list_insert_id; [done|]. by rewrite list_lookup_fmap, Hi.
Qed.

Lemma sids_filter_NoDup (P : Z * Sync.Rec → Prop) `{∀ x, Decision (P x)}
    (l : list (Z * Sync.Rec)) :
  NoDup (sids l) → NoDup (sids (filter P l)).
Proof.
  induction l as [|x l IH]; [done|].
  rewrite sids_cons, filter_cons. intros Hnd.
  assert (Hl : NoDup (sids l)).
  { destruct (Sync.truthy (sidOf x)); simpl in Hnd; [by apply NoDup_cons in Hnd as []|done]. }
  destruct (decide (P x)); [|by apply IH].
  rewrite sids_cons. destruct (Sync.truthy (sidOf x)) eqn:Ht; simpl in *; [|by apply IH].
  apply NoDup_cons in Hnd as [Hx _]. apply NoDup_cons. split; [|by apply IH].
  intros Hin. apply Hx. apply elem_of_sids in Hin as [_ [o [Ho Hs]]].
  apply elem_of_sids. split; [done|]. exists o.
  apply list_elem_of_filter in Ho as [_ Ho]. done.
Qed.

(** With unique identities, an identity singles out its row. *)
Lemma sids_unique_index (l : list (Z * Sync.Rec)) (i j : nat) (a b : Z * Sync.Rec) :
  NoDup (sids l) → l !! i = Some a → l !! j = Some b →
  Sync.truthy (sidOf a) = true → sidOf a = sidOf b → i = j.
Proof.
  intros Hnd Hi Hj Ht Hs.
  assert (E1 := mapGet_unique 0 l i a Hnd Hi Ht).
  assert (Ht' : Sync.truthy (sidOf b) = true) by by rewrite <- Hs.
  assert (E2 := mapGet_unique 0 l j b Hnd Hj Ht').
  rewrite Hs in E1. rewrite E1 in E2. injection E2. lia.
Qed.

Lemma entriesFrom_ext (n : nat) (l l' : list (Z * Sync.Rec)) :
  sidOf <$> l = sidOf <$> l' → entriesFrom n l = entriesFrom n l'.
Proof.
  revert n l'. induction l as [|x l IH]; intros n [|x' l'] E; try done.
  rewrite !fmap_cons in E. injection E as Hx Hl.
  rewrite !entriesFrom_cons, Hx. f_equal. by apply IH.
Qed.

(** *** Records *)

Lemma assign_lookup (l server : Sync.Rec) (f : string) :
  Sync.assign l server !! f
  = if decide (f = "id") then l !! f
    else match server !! f with Some v => Some v | None => l !! f end.
Proof.
  unfold Sync.assign. rewrite lookup_union.
  destruct (decide (f = "id")) as [->|Hf].
  - rewrite lookup_delete_eq. by destruct (l !! "id").
  - rewrite lookup_delete_ne by done.
    destruct (server !! f), (l !! f); done.
Qed.

Lemma assign_assign (l server : Sync.Rec) :
  Sync.assign (Sync.assign l server) server = Sync.assign l server.
Proof.
  apply map_eq. intros f. rewrite !assign_lookup.
  destruct (decide (f = "id")); [done|]. by destruct (server !! f).
Qed.

Lemma assign_new (server : Sync.Rec) :
  Sync.assign (delete "id" server) server = delete "id" server.
Proof.
  apply map_eq. intros f. rewrite assign_lookup.
  destruct (decide (f = "id")) as [->|Hf]; [done|].
  rewrite lookup_delete_ne by done. by destruct (server !! f).
Qed.

Lemma truthy_field_Some (o : Sync.Rec) (f : string) :
  Sync.truthy (Sync.field o f) = true → o !! f = Some (Sync.field o f).
Proof. unfold Sync.field. by destruct (o !! f). Qed.

Lemma sid_assign (l server : Sync.Rec) :
  Sync.truthy (Sync.field server "serverId") = true →
  Sync.field (Sync.assign l server) "serverId" = Sync.field server "serverId".
Proof.
  intros Ht. apply truthy_field_Some in Ht.
  unfold Sync.field at 1. rewrite assign_lookup. simpl. by rewrite Ht.
Qed.

Lemma sid_new (server : Sync.Rec) :
  Sync.field (delete "id" server) "serverId" = Sync.field server "serverId".
Proof. unfold Sync.field. by rewrite lookup_delete_ne. Qed.

(** ** The pull-merge, one entity kind at a time *)

Section MergeProof.
Context (parseDate : string → option Z).

Local Abbreviation settled := (settled parseDate).
Local Abbreviation mergeInv := (mergeInv parseDate).

Lemma localFor_Some (local0 : list (Z * Sync.Rec)) (st : Sync.MergeState)
    (sid : Sync.val) (i : nat) (o : Z * Sync.Rec) :
  sidOf <$> Sync.snapshot st = sidOf <$> local0 →
  Sync.localFor (Sync.serverIdEntries local0) st sid = Some (i, o) →
  Sync.snapshot st !! i = Some o ∧ sidOf o = sid ∧ Sync.truthy sid = true.
Proof.
  intros Hs. unfold Sync.localFor.
  rewrite serverIdEntries_from, <- (entriesFrom_ext 0 _ _ Hs).
  destruct (Sync.mapGet _ sid) as [j|] eqn:E; [|done].
  apply mapGet_Some in E as (i' & o' & -> & Hi & Hsid & Ht). simpl.
  rewrite Hi. by intros [= <- <-].
Qed.

Lemma localFor_None (local0 : list (Z * Sync.Rec)) (st : Sync.MergeState)
    (sid : Sync.val) :
  sidOf <$> Sync.snapshot st = sidOf <$> local0 →
  Sync.localFor (Sync.serverIdEntries local0) st sid = None →
  sid ∉ sids (Sync.snapshot st).
Proof.
  intros Hs. unfold Sync.localFor.
  rewrite serverIdEntries_from, <- (entriesFrom_ext 0 _ _ Hs).
  destruct (Sync.mapGet _ sid) as [j|] eqn:E.
  - apply mapGet_Some in E as (i' & o' & -> & Hi & Hsid & Ht). simpl.
    by rewrite Hi.
  - intros _. by eapply mapGet_None.
Qed.

Lemma localFor_unique (local0 : list (Z * Sync.Rec)) (st : Sync.MergeState)
    (i : nat) (o : Z * Sync.Rec) :
  sidOf <$> Sync.snapshot st = sidOf <$> local0 →
  NoDup (sids (Sync.snapshot st)) →
  Sync.snapshot st !! i = Some o → Sync.truthy (sidOf o) = true →
  Sync.localFor (Sync.serverIdEntries local0) st (sidOf o) = Some (i, o).
Proof.
  intros Hs Hnd Hi Ht. unfold Sync.localFor.
  rewrite serverIdEntries_from, <- (entriesFrom_ext 0 _ _ Hs).
  rewrite (mapGet_unique 0 _ i o) by done. simpl. by rewrite Hi.
Qed.

Lemma mergeInv_init (s : Sync.ObjectStore) :
  wfStore s → mergeInv (rows (Sync.tab s)) [] (Sync.mkMerge (rows (Sync.tab s)) s).
Proof.
  intros Hwf. split; simpl; try done.
  - exists []. by rewrite app_nil_r.
  - intros r kv Hr. by apply elem_of_nil in Hr.
  - intros r Hr. by apply elem_of_nil in Hr.
Qed.

Lemma elem_of_insert_inv {A} (l : list A) (i : nat) (x y : A) :
  y ∈ <[i := x]> l → ∃ j, (j = i ∧ y = x) ∨ (j ≠ i ∧ l !! j = Some y).
Proof.
  intros Hin. apply list_elem_of_lookup_1 in Hin as [j Hj].
  exists j. destruct (decide (j = i)) as [->|Hne].
  - left. split; [done|].
    destruct (decide (i < length l)%nat).
    + rewrite list_lookup_insert_eq in Hj by done. by injection Hj.
    + rewrite list_insert_ge in Hj by lia.
      apply lookup_lt_Some in Hj. lia.
  - right. split; [done|]. by rewrite list_lookup_insert_ne in Hj.
Qed.

Lemma mergeInv_mono (done done' : list Sync.Rec) (news : list (Z * Sync.Rec)) :
  done ⊆ done' →
  Forall (λ kv, ∃ r, r ∈ done ∧ sidOf kv = ridOf r) news →
  Forall (λ kv, ∃ r, r ∈ done' ∧ sidOf kv = ridOf r) news.
Proof.
  intros Hsub H. eapply Forall_impl; [exact H|].
  intros kv [r [Hr Hs]]. exists r. split; [|done]. by apply Hsub.
Qed.

(** Case 1 of a merge step: the local record is overwritten. *)
Lemma mergeInv_overwrite (local0 : list (Z * Sync.Rec)) (done : list Sync.Rec)
    (st : Sync.MergeState) (r : Sync.Rec) (i : nat) (k : Z) (l : Sync.Rec) :
  mergeInv local0 done st →
  Sync.truthy (ridOf r) = true → ridOf r ∉ ridOf <$> done →
  Sync.snapshot st !! i = Some (k, l) → sidOf (k, l) = ridOf r →
  mergeInv local0 (r :: done)
    (Sync.mkMerge (<[i := (k, Sync.assign l r)]> (Sync.snapshot st))
       (Sync.mkStore (tputAt (Sync.tab (Sync.store st)) k (Sync.assign l r))
                     (Sync.indexes (Sync.store st)))).
Proof.
  intros [[news [Hrows Hnews]] [[Hnk Hbet] Huniq] Hkeys Hsids Hdone Hpres] Ht Hfresh Hi Hsid.
  assert (Hri : rows (Sync.tab (Sync.store st)) !! i = Some (k, l)).
  { rewrite Hrows. by apply lookup_app_l_Some. }
  assert (Hlt : (i < length (Sync.snapshot st))%nat) by (by eapply lookup_lt_Some).
  assert (Hup : upsert k (Sync.assign l r) (rows (Sync.tab (Sync.store st)))
                = <[i := (k, Sync.assign l r)]> (rows (Sync.tab (Sync.store st)))).
  { by eapply upsert_at. }
  assert (Hk : k < nextKey (Sync.tab (Sync.store st))).
  { apply list_elem_of_lookup_2 in Hri.
    apply (between_elem _ _ _ _ Hbet) in Hri. simpl in Hri. lia. }
  assert (Hsid' : sidOf (k, Sync.assign l r) = sidOf (k, l)).
  { unfold sidOf in *. simpl in *. rewrite Hsid. by apply sid_assign. }
  split; simpl.
  - exists news. split.
    + rewrite Hup, Hrows. by apply insert_app_l.
    + eapply mergeInv_mono; [|done]. set_solver.
  - split.
    + split; simpl; [lia|]. rewrite Z.max_l by lia. rewrite Hup.
      by eapply between_insert.
    + simpl. rewrite Hup. by erewrite sids_insert.
  - rewrite <- Hkeys, list_fmap_insert. simpl.
    apply list_insert_id. by rewrite list_lookup_fmap, Hi.
  - rewrite <- Hsids, list_fmap_insert, Hsid'.
    apply list_insert_id. by rewrite list_lookup_fmap, Hi.
  - intros r' kv Hr' Hkv Hs. rewrite Hup in Hkv.
    apply elem_of_insert_inv in Hkv as [j [[-> ->]|[Hne Hj]]].
    + apply elem_of_cons in Hr' as [->|Hr'].
      * right. simpl. apply assign_assign.
      * exfalso. apply Hfresh. rewrite Hsid', Hsid in Hs. rewrite Hs.
        by apply list_elem_of_fmap_2.
    + apply elem_of_cons in Hr' as [->|Hr'].
      * exfalso. apply Hne. symmetry.
        eapply (sids_unique_index _ i j (k, l) kv); eauto; congruence.
      * eapply Hdone; eauto. by eapply list_elem_of_lookup_2.
  - intros r' Hr'. rewrite Hup. erewrite sids_insert; [|done|done].
    apply elem_of_cons in Hr' as [->|Hr']; [|by apply Hpres].
    apply elem_of_sids. split; [done|]. exists (k, l).
    split; [by eapply list_elem_of_lookup_2 | done].
Qed.

(** Case 2: the local record is newer; nothing is written. *)
Lemma mergeInv_keep (local0 : list (Z * Sync.Rec)) (done : list Sync.Rec)
    (st : Sync.MergeState) (r : Sync.Rec) (i : nat) (k : Z) (l : Sync.Rec) :
  mergeInv local0 done st →
  Sync.truthy (ridOf r) = true →
  Sync.snapshot st !! i = Some (k, l) → sidOf (k, l) = ridOf r →
  Sync.shouldOverwrite parseDate l r = false →
  mergeInv local0 (r :: done) st.
Proof.
  intros [[news [Hrows Hnews]] [Hwft Huniq] Hkeys Hsids Hdone Hpres] Ht Hi Hsid Hso.
  assert (Hri : rows (Sync.tab (Sync.store st)) !! i = Some (k, l)).
  { rewrite Hrows. by apply lookup_app_l_Some. }
  split; try done.
  - exists news. split; [done|]. eapply mergeInv_mono; [|done]. set_solver.
  - intros r' kv Hr' Hkv Hs.
    apply elem_of_cons in Hr' as [->|Hr']; [|by eapply Hdone].
    apply list_elem_of_lookup_1 in Hkv as [j Hj].
    assert (i = j).
    { eapply (sids_unique_index _ i j (k, l) kv); eauto; congruence. }
    subst j. rewrite Hri in Hj. injection Hj as <-. by left.
  - intros r' Hr'.
    apply elem_of_cons in Hr' as [->|Hr']; [|by apply Hpres].
    apply elem_of_sids. split; [done|]. exists (k, l).
    split; [by eapply list_elem_of_lookup_2 | done].
Qed.

(** Case 3: no local record carries the identity; a record is added. *)
Lemma mergeInv_insert (local0 : list (Z * Sync.Rec)) (done : list Sync.Rec)
    (st : Sync.MergeState) (r : Sync.Rec) :
  mergeInv local0 done st →
  Sync.truthy (ridOf r) = true → ridOf r ∉ ridOf <$> done →
  ridOf r ∉ sids (Sync.snapshot st) →
  mergeInv local0 (r :: done)
    (Sync.mkMerge (Sync.snapshot st)
       (Sync.mkStore (tputNew (Sync.tab (Sync.store st)) (delete "id" r)).1
                     (Sync.indexes (Sync.store st)))).
Proof.
  intros [[news [Hrows Hnews]] [[Hnk Hbet] Huniq] Hkeys Hsids Hdone Hpres] Ht Hfresh Hnone.
  set (nk := nextKey (Sync.tab (Sync.store st))) in *.
  assert (Hup : upsert nk (delete "id" r) (rows (Sync.tab (Sync.store st)))
                = rows (Sync.tab (Sync.store st)) ++ [(nk, delete "id" r)]).
  { eapply upsert_end; [done | lia]. }
  assert (Hsn : sidOf (nk, delete "id" r) = ridOf r) by apply sid_new.
  assert (Hnot : ridOf r ∉ sids (rows (Sync.tab (Sync.store st)))).
  { rewrite Hrows, sids_app, elem_of_app. intros [Hin|Hin]; [done|].
    apply elem_of_sids in Hin as [_ [o [Ho Hs]]].
    eapply Forall_forall in Hnews; [|exact Ho].
    destruct Hnews as [r' [Hr' Hs']]. apply Hfresh.
    rewrite <- Hs, Hs'. by apply list_elem_of_fmap_2. }
  assert (Hsids' : sids (rows (Sync.tab (Sync.store st)) ++ [(nk, delete "id" r)])
                   = sids (rows (Sync.tab (Sync.store st))) ++ [ridOf r]).
  { rewrite sids_app. f_equal. rewrite sids_cons, Hsn, Ht. done. }
  split; simpl; fold nk; try done.
  - exists (news ++ [(nk, delete "id" r)]). split.
    + by rewrite Hup, Hrows, app_assoc.
    + apply Forall_app. split.
      * eapply mergeInv_mono; [|done]. set_solver.
      * repeat constructor. exists r. split; [by left | done].
  - split.
    + split; simpl; [lia|]. fold nk. rewrite Hup.
      apply (between_snoc 0 nk); [done | lia | lia].
    + simpl. fold nk. rewrite Hup, Hsids'.
      apply NoDup_app. split; [done|]. split; [|apply NoDup_singleton].
      intros x Hx Hx'. apply list_elem_of_singleton in Hx'. by subst.
  - intros r' kv Hr' Hkv Hs. rewrite Hup in Hkv.
    apply elem_of_app in Hkv as [Hkv|Hkv].
    + apply elem_of_cons in Hr' as [->|Hr']; [|by eapply Hdone].
      exfalso. apply Hnot. apply elem_of_sids. split; [done|]. by exists kv.
    + apply list_elem_of_singleton in Hkv as ->.
      apply elem_of_cons in Hr' as [->|Hr'].
      * right. simpl. apply assign_new.
      * exfalso. apply Hfresh. rewrite <- Hsn, Hs. by apply list_elem_of_fmap_2.
  - intros r' Hr'. rewrite Hup, Hsids', elem_of_app.
    apply elem_of_cons in Hr' as [->|Hr'].
    + right. by apply list_elem_of_singleton.
    + left. by apply Hpres.
Qed.

Lemma mergeRecord_inv (local0 : list (Z * Sync.Rec)) (done : list Sync.Rec)
    (st st' : Sync.MergeState) (r : Sync.Rec) :
  mergeInv local0 done st →
  Sync.truthy (ridOf r) = true → ridOf r ∉ ridOf <$> done →
  Sync.mergeRecord parseDate (Sync.serverIdEntries local0) (Some st) r = Some st' →
  mergeInv local0 (r :: done) st'.
Proof.
  intros Hinv Ht Hfresh. unfold Sync.mergeRecord. fold (ridOf r).
  destruct (Sync.localFor _ st (ridOf r)) as [[i [k l]]|] eqn:Hloc.
  - apply (localFor_Some local0) in Hloc as (Hi & Hsid & _); [|apply Hinv].
    destruct (Sync.shouldOverwrite parseDate l r) eqn:Hso.
    + unfold Sync.putAt. destruct (Sync.violates _ _ _); [done|].
      intros [= <-]. by eapply mergeInv_overwrite.
    + intros [= <-]. by eapply mergeInv_keep.
  - apply (localFor_None local0) in Hloc; [|apply Hinv].
    unfold Sync.putNew. destruct (Sync.violates _ _ _); [done|].
    intros [= <-]. by apply mergeInv_insert.
Qed.

Lemma mergeRecord_fold_None (entries : list (Sync.val * nat)) (ups : list Sync.Rec) :
  fold_left (Sync.mergeRecord parseDate entries) ups None = None.
Proof. by induction ups. Qed.

Lemma mergeInv_equiv (local0 : list (Z * Sync.Rec)) (done done' : list Sync.Rec)
    (st : Sync.MergeState) :
  (∀ x, x ∈ done ↔ x ∈ done') → mergeInv local0 done st → mergeInv local0 done' st.
Proof.
  intros Heq [[news [Hrows Hnews]] Hwf Hkeys Hsids Hdone Hpres].
  split; try done.
  - exists news. split; [done|]. eapply mergeInv_mono; [|done].
    intros x. apply Heq.
  - intros r kv Hr. apply Hdone. by apply Heq.
  - intros r Hr. apply Hpres. by apply Heq.
Qed.

(** The loop over the incoming records keeps the invariant. *)
Lemma mergeRecords_inv (local0 : list (Z * Sync.Rec)) (ups done : list Sync.Rec)
    (st st' : Sync.MergeState) :
  mergeInv local0 done st →
  Forall (λ r, Sync.truthy (ridOf r) = true) ups →
  NoDup (ridOf <$> ups) →
  (∀ r, r ∈ ups → ridOf r ∉ ridOf <$> done) →
  fold_left (Sync.mergeRecord parseDate (Sync.serverIdEntries local0)) ups (Some st)
  = Some st' →
  mergeInv local0 (ups ++ done) st'.
Proof.
  revert done st.
  induction ups as [|r ups IH]; intros done st Hinv Ht Hnd Hfresh; cbn [fold_left].
  - by intros [= <-].
  - apply Forall_cons in Ht as [Htr Ht].
    rewrite fmap_cons in Hnd. apply NoDup_cons in Hnd as [Hr Hnd].
    destruct (Sync.mergeRecord parseDate (Sync.serverIdEntries local0) (Some st) r)
      as [st1|] eqn:Hstep; [|by rewrite mergeRecord_fold_None].
    intros Hfold.
    apply (mergeRecord_inv local0 done) in Hstep; [|done|done|].
    2: { apply Hfresh. by left. }
    apply (IH (r :: done)) in Hfold; try done.
    + eapply mergeInv_equiv; [|exact Hfold]. intros x. set_solver.
    + intros r' Hr'. rewrite fmap_cons, not_elem_of_cons. split.
      * intros Heq. apply Hr. rewrite <- Heq. by apply list_elem_of_fmap_2.
      * apply Hfresh. by right.
Qed.

(** *** The deletion markers *)

Lemma sids_filter_elem (P : Z * Sync.Rec → Prop) `{∀ x, Decision (P x)}
    (l : list (Z * Sync.Rec)) (s : Sync.val) :
  s ∈ sids (filter P l) → s ∈ sids l.
Proof.
  rewrite !elem_of_sids. intros [Ht [o [Ho Hs]]]. split; [done|].
  exists o. apply list_elem_of_filter in Ho as [_ Ho]. done.
Qed.

Lemma removeRow_filter {A} (k : Z) (D : list Z) (l : list (Z * A)) :
  removeRow k (filter (λ kv, kv.1 ∉ D) l) = filter (λ kv, kv.1 ∉ k :: D) l.
Proof.
  unfold removeRow. rewrite list_filter_filter.
  apply filter_ext_Forall, Forall_forall. intros kv _.
  rewrite not_elem_of_cons. tauto.
Qed.

Lemma delInv_init (st1 : Sync.MergeState) : delInv st1 [] st1.
Proof.
  split; try done.
  - exists []. split; [|constructor].
    symmetry. apply filter_all, Forall_forall. intros x _ Hin.
    by apply elem_of_nil in Hin.
  - intros d Hd. by apply elem_of_nil in Hd.
Qed.

Lemma deleteRecord_inv (local0 : list (Z * Sync.Rec)) (done : list Sync.Rec)
    (st1 st : Sync.MergeState) (processed : list Sync.val) (d : Sync.val) :
  mergeInv local0 done st1 →
  d ∉ ridOf <$> done →
  delInv st1 processed st →
  delInv st1 (d :: processed)
         (Sync.deleteRecord (Sync.serverIdEntries local0) st d).
Proof.
  intros [[news [Hrows Hnews]] [Hwft Huniq] Hkeys Hsids Hdone Hpres] Hd
         [Hsnap Hixs Hnk [D [HD HDall]] Hgone].
  assert (Hsids' : sidOf <$> Sync.snapshot st = sidOf <$> local0) by by rewrite Hsnap.
  unfold Sync.deleteRecord.
  destruct (Sync.localFor _ st d) as [[i [k l]]|] eqn:Hloc.
  - apply (localFor_Some local0) in Hloc as (Hi & Hsid & Ht); [|done].
    rewrite Hsnap in Hi.
    assert (Hri : rows (Sync.tab (Sync.store st1)) !! i = Some (k, l)).
    { rewrite Hrows. by apply lookup_app_l_Some. }
    split; simpl; try done.
    + exists (k :: D). split.
      * rewrite HD. apply removeRow_filter.
      * constructor.
        -- exists i, l. split; [done|]. rewrite Hsid. by left.
        -- eapply Forall_impl; [exact HDall|]. intros k' (i' & l' & Hi' & Hin).
           exists i', l'. split; [done|]. by right.
    + intros d' Hd' Hin. unfold removeRow in Hin.
      apply elem_of_cons in Hd' as [->|Hd'].
      * apply elem_of_sids in Hin as [_ [o [Ho Hs]]].
        apply list_elem_of_filter in Ho as [Hk Ho].
        rewrite HD in Ho. apply list_elem_of_filter in Ho as [_ Ho].
        apply list_elem_of_lookup_1 in Ho as [j Hj].
        assert (i = j).
        { eapply (sids_unique_index _ i j (k, l) o); eauto; congruence. }
        subst j. rewrite Hri in Hj. injection Hj as <-. done.
      * apply sids_filter_elem in Hin. by apply (Hgone d').
  - apply (localFor_None local0) in Hloc; [|done]. rewrite Hsnap in Hloc.
    split; try done.
    + exists D. split; [done|].
      eapply Forall_impl; [exact HDall|]. intros k' (i' & l' & Hi' & Hin).
      exists i', l'. split; [done|]. by right.
    + intros d' Hd' Hin.
      apply elem_of_cons in Hd' as [->|Hd']; [|by apply (Hgone d')].
      rewrite HD in Hin. apply sids_filter_elem in Hin.
      rewrite Hrows, sids_app, elem_of_app in Hin. destruct Hin as [Hin|Hin]; [done|].
      apply elem_of_sids in Hin as [_ [o [Ho Hs]]].
      eapply Forall_forall in Hnews; [|exact Ho].
      destruct Hnews as [r' [Hr' Hs']]. apply Hd.
      rewrite <- Hs, Hs'. by apply list_elem_of_fmap_2.
Qed.

Lemma deleteRecords_inv (local0 : list (Z * Sync.Rec)) (done : list Sync.Rec)
    (st1 st : Sync.MergeState) (processed dels : list Sync.val) :
  mergeInv local0 done st1 →
  Forall (λ d, d ∉ ridOf <$> done) dels →
  delInv st1 processed st →
  delInv st1 (dels ++ processed)
         (fold_left (Sync.deleteRecord (Sync.serverIdEntries local0)) dels st).
Proof.
  intros Hinv. revert processed st.
  induction dels as [|d dels IH]; intros processed st Hd Hdel; [done|].
  apply Forall_cons in Hd as [Hd Hds]. simpl.
  apply (deleteRecord_inv local0 done st1 st processed d) in Hdel; [|done|done].
  apply IH in Hdel; [|done].
  destruct Hdel as [Hsnap Hixs Hnk [D [HD HDall]] Hgone].
  split; try done.
  - exists D. split; [done|]. eapply Forall_impl; [exact HDall|].
    intros k' (i' & l' & Hi' & Hin). exists i', l'. split; [done|]. set_solver.
  - intros d' Hd'. apply Hgone. set_solver.
Qed.

Lemma key_determines_row {A} (l : list (Z * A)) (a b : Z * A) :
  NoDup l.*1 → a ∈ l → b ∈ l → a.1 = b.1 → a = b.
Proof.
  intros Hnd Ha Hb Hk.
  apply list_elem_of_lookup_1 in Ha as [i Hi].
  apply list_elem_of_lookup_1 in Hb as [j Hj].
  assert (i = j).
  { eapply (NoDup_lookup _ i j (a.1) Hnd).
    - by rewrite list_lookup_fmap, Hi.
    - by rewrite list_lookup_fmap, Hj, Hk. }
  subst j. rewrite Hi in Hj. by injection Hj.
Qed.

(** What one application of the merge leaves behind, for one kind. *)
Lemma first_run_facts (s : Sync.ObjectStore) (ups : list Sync.Rec)
    (dels : list Sync.val) (st1 : Sync.MergeState) :
  wfStore s → deltaOk ups dels →
  fold_left (Sync.mergeRecord parseDate (Sync.serverIdEntries (rows (Sync.tab s))))
            ups (Some (Sync.mkMerge (rows (Sync.tab s)) s)) = Some st1 →
  let s1 := Sync.store (fold_left
              (Sync.deleteRecord (Sync.serverIdEntries (rows (Sync.tab s)))) dels st1) in
  wfStore s1 ∧
  (∀ r, r ∈ ups → ∃ i kv, rows (Sync.tab s1) !! i = Some kv ∧
                          sidOf kv = ridOf r ∧ settled r kv) ∧
  (∀ d, d ∈ dels → d ∉ sids (rows (Sync.tab s1))).
Proof.
  intros Hwf (Ht & Hnd & Hdis) Hfold. cbv zeta.
  apply (mergeRecords_inv _ ups [] _ st1 (mergeInv_init s Hwf)) in Hfold;
    [|done|done|].
  2: { intros r _ Hin. by apply elem_of_nil in Hin. }
  rewrite app_nil_r in Hfold.
  assert (Hdel := deleteRecords_inv _ ups st1 st1 [] dels Hfold Hdis (delInv_init st1)).
  set (stF := fold_left _ dels st1) in *. rewrite app_nil_r in Hdel.
  destruct Hdel as [Hsnap Hixs Hnk [D [HD HDall]] Hgone].
  destruct Hfold as [[news [Hrows Hnews]] [[Hnk1 Hbet] Huniq] Hkeys Hsids Hdone Hpres].
  split; [|split].
  - split.
    + split; [by rewrite Hnk|]. rewrite Hnk, HD. by apply between_filter.
    + rewrite HD. by apply sids_filter_NoDup.
  - intros r Hr.
    destruct (proj1 (elem_of_sids _ _) (Hpres r Hr)) as [_ [o [Ho Hs]]].
    assert (Hin : o ∈ rows (Sync.tab (Sync.store stF))).
    { rewrite HD. apply list_elem_of_filter. split; [|done].
      intros HoD. eapply Forall_forall in HDall; [|exact HoD].
      destruct HDall as (i & l & Hi & Hsd).
      assert (Heq : (o.1, l) = o).
      { eapply (key_determines_row (rows (Sync.tab (Sync.store st1)))); eauto.
        - by eapply between_NoDup.
        - rewrite Hrows. apply elem_of_app. left. by eapply list_elem_of_lookup_2. }
      rewrite Heq, Hs in Hsd.
      eapply Forall_forall in Hdis; [|exact Hsd].
      apply Hdis. by apply list_elem_of_fmap_2. }
    apply list_elem_of_lookup_1 in Hin as [i Hi].
    exists i, o. split; [done|]. split; [done|]. by apply Hdone.
  - done.
Qed.

(** On such a store a second application writes nothing new. *)
Lemma second_run_identity (s1 : Sync.ObjectStore) (ups : list Sync.Rec)
    (dels : list Sync.val) (st2 : Sync.MergeState) :
  wfStore s1 →
  Forall (λ r, Sync.truthy (ridOf r) = true) ups →
  (∀ r, r ∈ ups → ∃ i kv, rows (Sync.tab s1) !! i = Some kv ∧
                          sidOf kv = ridOf r ∧ settled r kv) →
  (∀ d, d ∈ dels → d ∉ sids (rows (Sync.tab s1))) →
  fold_left (Sync.mergeRecord parseDate (Sync.serverIdEntries (rows (Sync.tab s1))))
            ups (Some (Sync.mkMerge (rows (Sync.tab s1)) s1)) = Some st2 →
  Sync.store (fold_left (Sync.deleteRecord (Sync.serverIdEntries (rows (Sync.tab s1))))
                        dels st2) = s1.
Proof.
  intros [[Hnk Hbet] Huniq] Ht Hpres Hgone.
  set (st0 := Sync.mkMerge (rows (Sync.tab s1)) s1).
  set (entries := Sync.serverIdEntries (rows (Sync.tab s1))).
  assert (Hstep : ∀ r, r ∈ ups →
            Sync.mergeRecord parseDate entries (Some st0) r = Some st0 ∨
            Sync.mergeRecord parseDate entries (Some st0) r = None).
  { intros r Hr. destruct (Hpres r Hr) as (i & [k l] & Hi & Hs & Hset).
    eapply Forall_forall in Ht; [|exact Hr].
    unfold Sync.mergeRecord. fold (ridOf r). rewrite <- Hs.
    subst entries. rewrite (localFor_unique _ st0 i (k, l)); try done.
    2: { by rewrite Hs. }
    destruct (Sync.shouldOverwrite parseDate l r) eqn:Hso; [|by left].
    destruct Hset as [Hset|Hset]; simpl in Hset; [congruence|].
    rewrite Hset. unfold Sync.putAt.
    destruct (Sync.violates _ _ _); [by right|]. left.
    assert (Hk : k < nextKey (Sync.tab s1)).
    { apply list_elem_of_lookup_2 in Hi.
      apply (between_elem _ _ _ _ Hbet) in Hi. simpl in Hi. lia. }
    unfold tputAt. simpl.
    rewrite (upsert_at 0 (nextKey (Sync.tab s1)) k l l _ i Hbet Hi).
    rewrite list_insert_id by done. rewrite Z.max_l by lia.
    subst st0. by destruct s1 as [[? ?] ?]. }
  assert (Hfold : ∀ l, l ⊆ ups →
            fold_left (Sync.mergeRecord parseDate entries) l (Some st0) = Some st2 →
            st2 = st0).
  { induction l as [|r l IH]; intros Hsub; cbn [fold_left].
    - by intros [= <-].
    - destruct (Hstep r) as [E|E]; [set_solver| |]; rewrite E.
      + apply IH. set_solver.
      + by rewrite mergeRecord_fold_None. }
  intros Hrun. apply Hfold in Hrun; [|done]. subst st2.
  assert (Hdel : ∀ l, l ⊆ dels →
            fold_left (Sync.deleteRecord entries) l st0 = st0).
  { induction l as [|d l IH]; intros Hsub; cbn [fold_left]; [done|].
    assert (E : Sync.deleteRecord entries st0 d = st0).
    { unfold Sync.deleteRecord.
      destruct (Sync.localFor entries st0 d) as [[i [k l']]|] eqn:Hloc; [|done].
      exfalso. apply (localFor_Some (rows (Sync.tab s1))) in Hloc
        as (Hi & Hsid & Htd); [|done].
      apply (Hgone d); [set_solver|].
      apply elem_of_sids. split; [done|]. exists (k, l').
      split; [by eapply list_elem_of_lookup_2 | done]. }
    rewrite E. apply IH. set_solver. }
  by rewrite Hdel.
Qed.

End MergeProof.

(** ** The merge rule for one incoming record (C5) *)



Example merge_record_run :
  (λ st, rows (Sync.tab (Sync.store st)))
    <$> Sync.mergeRecord exampleDates (Sync.serverIdEntries (rows (Sync.tab productsSynced)))
          (Some (Sync.mkMerge (rows (Sync.tab productsSynced)) productsSynced))
          kopiFromServer
  = Some [(1, {[ "serverId" := Sync.VStr "srv_1"; "name" := Sync.VStr "Kopi Susu";
                 "stock" := Sync.VNum (qz 5);
                 "updatedAt" := Sync.VStr "2024-01-02T00:00:00.000Z" ]})].
Proof. vm_compute. reflexivity. Qed.

(** ** Idempotence of the pull-merge (C4) *)

Lemma pullMerge_eq (parseDate : string → option Z) (u : Sync.ServerUpdates) (d : Sync.DB) :
  Sync.pullMerge parseDate u d
  = match Sync.mergeWrites parseDate u d with
    | Some (ps, cs) => withStores d ps cs
    | None => d
    end.
Proof.
  unfold Sync.pullMerge.
  destruct u as [[|p ps] [|c cs] [|dp dps] [|dc dcs]]; try reflexivity.
  unfold Sync.mergeWrites. simpl. by destruct d.
Qed.

Lemma merge_twice_counterexample :
  let once := Sync.pullMerge exampleDates createdThenDeleted emptyDB in
  let twice := Sync.pullMerge exampleDates createdThenDeleted once in
  rows (Sync.tab (Sync.products once)) = [(1, kopiNew)] ∧
  rows (Sync.tab (Sync.products twice)) = [] ∧
  twice ≠ once.
Proof.
  cbv zeta.
  assert (E1 : rows (Sync.tab (Sync.products
                 (Sync.pullMerge exampleDates createdThenDeleted emptyDB)))
               = [(1, kopiNew)]) by (vm_compute; reflexivity).
  assert (E2 : rows (Sync.tab (Sync.products
                 (Sync.pullMerge exampleDates createdThenDeleted
                    (Sync.pullMerge exampleDates createdThenDeleted emptyDB))))
               = []) by (vm_compute; reflexivity).
  split; [exact E1|]. split; [exact E2|].
  intros Heq. rewrite Heq, E1 in E2. discriminate.
Qed.

(** C4 (amended). Applying the merge of the same delta twice leaves the
    Product and Category stores as one application does, for a delta in
    which, per entity kind, every incoming record carries its server
    identity, no identity comes twice, and no deletion marker names an
    incoming record, and for local stores in which no server identity is
    on two records (and keys are the generated ones). *)
Theorem pull_merge_idempotent (parseDate : string → option Z)
    (u : Sync.ServerUpdates) (d : Sync.DB) :
  deltaOk (Sync.upd_products u) (Sync.deleted_products u) →
  deltaOk (Sync.upd_categories u) (Sync.deleted_categories u) →
  wfStore (Sync.products d) →
  wfStore (Sync.categories d) →
  Sync.pullMerge parseDate u (Sync.pullMerge parseDate u d)
  = Sync.pullMerge parseDate u d.
Proof.
  intros HuP HuC HwP HwC.
  rewrite (pullMerge_eq parseDate u d).
  destruct (Sync.mergeWrites parseDate u d) as [[ps cs]|] eqn:E1.
  2: { by rewrite pullMerge_eq, E1. }
  unfold Sync.mergeWrites, tgetAll in E1.
  destruct (fold_left _ (Sync.upd_products u) _) as [stP|] eqn:EP; [|done].
  destruct (fold_left _ (Sync.upd_categories u) _) as [stC|] eqn:EC; [|done].
  injection E1 as <- <-.
  destruct (first_run_facts parseDate _ _ _ _ HwP HuP EP) as (HwP1 & HpP & HgP).
  destruct (first_run_facts parseDate _ _ _ _ HwC HuC EC) as (HwC1 & HpC & HgC).
  set (ps := Sync.store (fold_left _ (Sync.deleted_products u) stP)) in *.
  set (cs := Sync.store (fold_left _ (Sync.deleted_categories u) stC)) in *.
  clearbody ps cs. clear EP EC.
  rewrite pullMerge_eq.
  destruct (Sync.mergeWrites parseDate u (withStores d ps cs)) as [[ps2 cs2]|] eqn:E2;
    [|done].
  unfold Sync.mergeWrites, tgetAll in E2. simpl in E2.
  destruct (fold_left _ (Sync.upd_products u) _) as [stP2|] eqn:EP2; [|done].
  destruct (fold_left _ (Sync.upd_categories u) _) as [stC2|] eqn:EC2; [|done].
  injection E2 as <- <-.
  rewrite (second_run_identity parseDate ps _ _ stP2 HwP1 (proj1 HuP) HpP HgP EP2).
  rewrite (second_run_identity parseDate cs _ _ stC2 HwC1 (proj1 HuC) HpC HgC EC2).
  reflexivity.
Qed.

Lemma pull_merge_idempotent_witness :
  Sync.pullMerge exampleDates serverDelta (Sync.pullMerge exampleDates serverDelta syncedDB)
  = Sync.pullMerge exampleDates serverDelta syncedDB.
Proof.
  apply (pull_merge_idempotent exampleDates serverDelta syncedDB).
  - repeat split; by_compute.
  - repeat split; by_compute.
  - split; [|by_compute]. split; simpl; [lia|]. repeat split; lia.
  - split; [|by_compute]. split; simpl; [lia | done].
Defined.

Example pull_merge_run :
  let once := Sync.pullMerge exampleDates serverDelta syncedDB in
  rows (Sync.tab (Sync.products once))
  = [(1, {[ "serverId" := Sync.VStr "srv_1"; "name" := Sync.VStr "Kopi Susu";
            "stock" := Sync.VNum (qz 5);
            "updatedAt" := Sync.VStr "2024-01-02T00:00:00.000Z" ]})] ∧
  rows (Sync.tab (Sync.categories once)) = [(1, minuman)].
Proof. cbv zeta. split; vm_compute; reflexivity. Qed.

(** * Further properties *)

(** ** Totals, fees, stock and the earlier checkout at concrete data *)



Lemma cart_fee_keys_unique_witness :
  NoDup (fee_id <$> fees (applyDefaultFees [ppn10; service] scenarioCart)) ∧
  NoDup (fee_id <$> fees (applySelectedFees [ppn10; service] [2] scenarioCart)) ∧
  NoDup (fee_id <$> fees (reconcileCartFees [ppn10; service] scenarioCart)).
Proof.
  assert (Hnd : NoDup (fee_id <$> [ppn10; service])) by by_compute.
  pose proof (cart_fee_keys_unique [ppn10; service] [2] scenarioCart Hnd)
    as (H1 & H2 & H3).
  split; [exact H1|]. split; [exact H2|]. apply H3. by_compute.
Defined.

Lemma revB_checkout_validates_witness :
  let refused := RevB.completeTransaction now0 None [] oneCoffeeB (shopBWith coffee) in
  let paid := RevB.completeTransaction now0 (Some 10000) [] oneCoffeeB (shopBWith coffee) in
  (refused.1.1 = shopBWith coffee ∧ refused.1.2 = oneCoffeeB) ∧
  ∃ t, tget (RevB.transactions paid.1.1) 1 = Some t ∧
       (RevB.total t ≤ qz (RevB.cashPaid t))%Qc.
Proof.
  cbv zeta. split.
  - apply (proj1 (proj2 (revB_checkout_validates now0 None [] oneCoffeeB
                           (shopBWith coffee)))).
    right. reflexivity.
  - apply (proj2 (proj2 (revB_checkout_validates now0 (Some 10000) [] oneCoffeeB
                           (shopBWith coffee)))).
    reflexivity.
Defined.

(** ** The cart: lines, badge and prices *)

Lemma totalItems_shift (l : list CartItem) (a : Z) :
  fold_left (λ sum item, sum + item_quantity item) l a
  = a + fold_left (λ sum item, sum + item_quantity item) l 0.
Proof.
  revert a. induction l as [|x l IH]; intros a; simpl; [lia|].
  rewrite IH, (IH (0 + _)). lia.
Qed.

Lemma totalItems_cons (x : CartItem) (l : list CartItem) (fs : list Fee) :
  totalItems (mkCart (x :: l) fs) = item_quantity x + totalItems (mkCart l fs).
Proof. unfold totalItems. simpl. rewrite totalItems_shift. lia. Qed.

Lemma totalItems_app (l l' : list CartItem) (fs : list Fee) :
  totalItems (mkCart (l ++ l') fs)
  = totalItems (mkCart l fs) + totalItems (mkCart l' fs).
Proof.
  induction l as [|x l IH]; [unfold totalItems; simpl; lia|].
  rewrite <- app_comm_cons, !totalItems_cons, IH. lia.
Qed.

Lemma totalItems_updateFound (productId q : Z) (l : list CartItem) (e : CartItem)
    (fs : list Fee) :
  findItem productId l = Some e →
  totalItems (mkCart (updateFound productId (setQuantity q) l) fs)
  = totalItems (mkCart l fs) - item_quantity e + q.
Proof.
  unfold findItem. induction l as [|x l IH]; [done|]. simpl.
  destruct (item_id x =? productId) eqn:E.
  - intros [= ->]. rewrite !totalItems_cons. simpl. lia.
  - intros H. rewrite !totalItems_cons, IH by done. lia.
Qed.

(** X1. A call of [addToCart] that reports success puts exactly one more
    unit into the cart (the number the cart badge counts) and leaves the
    fees alone; any other call leaves the cart as it was. *)
Theorem add_to_cart_counts_one (products : Table Product) (cart : Cart)
    (productId : Z) :
  let r := addToCart products cart productId in
  (r.2 = Added ∧ totalItems r.1 = totalItems cart + 1 ∧ fees r.1 = fees cart)
  ∨ (r.2 ≠ Added ∧ r.1 = cart).
Proof.
  cbv zeta. unfold addToCart.
  destruct (tget products productId) as [p|]; [|by right].
  destruct (p_stock p =? 0); [by right|].
  destruct (findItem productId (items cart)) as [e|] eqn:Hf.
  - destruct (item_quantity e <? p_stock p); [|by right].
    left. simpl. split; [done|]. split; [|done].
    rewrite (totalItems_updateFound _ _ _ e) by done.
    destruct cart as [its fs]. simpl. lia.
  - left. simpl. split; [done|]. split; [|done].
    rewrite totalItems_app. destruct cart as [its fs]. simpl.
    unfold totalItems at 2. simpl. lia.
Qed.

Lemma totalItems_lower (l : list CartItem) (fs : list Fee) :
  Forall (λ i, 1 ≤ item_quantity i) l → Z.of_nat (length l) ≤ totalItems (mkCart l fs).
Proof.
  induction 1 as [|x l Hx _ IH]; [done|].
  rewrite totalItems_cons. simpl length. lia.
Qed.

(** X2. On a cart whose lines all have a quantity of at least one, the
    badge is hidden exactly when the cart has no line; otherwise it shows
    the number of units, and '99+' above 99. *)
Theorem badge_hidden_iff_empty (cart : Cart) :
  quantityPositive cart →
  (updateCartFabBadge cart = BadgeHidden ↔ items cart = []) ∧
  (items cart ≠ [] →
   updateCartFabBadge cart
   = if 99 <? totalItems cart then BadgeMany else BadgeCount (totalItems cart)).
Proof.
  intros Hq. destruct cart as [its fs]. unfold quantityPositive in Hq. simpl in *.
  assert (Hlow := totalItems_lower its fs Hq).
  unfold updateCartFabBadge. split.
  - split.
    + destruct its as [|x its]; [done|]. simpl length in Hlow.
      rewrite (proj2 (Z.ltb_lt 0 _)) by lia. by destruct (99 <? _).
    + intros ->. reflexivity.
  - intros Hne. destruct its as [|x its]; [done|]. simpl length in Hlow.
    by rewrite (proj2 (Z.ltb_lt 0 _)) by lia.
Qed.

Lemma badge_hidden_iff_empty_witness :
  (updateCartFabBadge scenarioCart = BadgeHidden ↔ items scenarioCart = []) ∧
  (items scenarioCart ≠ [] →
   updateCartFabBadge scenarioCart
   = if 99 <? totalItems scenarioCart then BadgeMany
     else BadgeCount (totalItems scenarioCart)).
Proof.
  apply (badge_hidden_iff_empty scenarioCart).
  repeat constructor. simpl. lia.
Defined.

Lemma findItem_None (productId : Z) (l : list CartItem) :
  findItem productId l = None → productId ∉ item_id <$> l.
Proof.
  unfold findItem. induction l as [|x l IH]; [intros _; apply not_elem_of_nil|].
  cbn [find]. destruct (item_id x =? productId) eqn:E; [done|].
  intros H. rewrite fmap_cons, not_elem_of_cons. split; [lia | by apply IH].
Qed.

Lemma updateFound_ids (productId : Z) (q : Z) (l : list CartItem) :
  item_id <$> updateFound productId (setQuantity q) l = item_id <$> l.
Proof.
  induction l as [|x l IH]; [done|]. cbn [updateFound].
  destruct (item_id x =? productId); simpl; [done | f_equal; exact IH].
Qed.

(** X3. The cart never holds two lines for one product: [addToCart] and
    [updateCartItemQuantity] keep the product ids of the lines distinct. *)
Theorem cart_lines_stay_unique (products : Table Product) (cart : Cart)
    (productId change : Z) :
  NoDup (item_id <$> items cart) →
  NoDup (item_id <$> items (addToCart products cart productId).1) ∧
  NoDup (item_id <$> items (updateCartItemQuantity cart productId change).1).
Proof.
  intros Hnd. split.
  - unfold addToCart.
    destruct (tget products productId) as [p|]; [|done].
    destruct (p_stock p =? 0); [done|].
    destruct (findItem productId (items cart)) as [e|] eqn:Hf.
    + destruct (item_quantity e <? p_stock p); [|done].
      simpl. by rewrite updateFound_ids.
    + simpl. rewrite fmap_app. apply NoDup_app. split; [done|].
      split; [|apply NoDup_singleton].
      intros k Hk Hk'. apply list_elem_of_singleton in Hk'. simpl in Hk'. subst k.
      by apply findItem_None in Hf.
  - unfold updateCartItemQuantity.
    destruct (findItem productId (items cart)) as [e|]; [|done].
    destruct (_ && _); [simpl; by rewrite updateFound_ids|].
    destruct (_ <? _); [done|]. simpl.
    by apply filter_keys_NoDup.
Qed.

Lemma cart_lines_stay_unique_witness :
  NoDup (item_id <$> items (addToCart (products (shopWith tea)) scenarioCart 1).1) ∧
  NoDup (item_id <$> items (updateCartItemQuantity scenarioCart 1 (-1)).1).
Proof.
  apply (cart_lines_stay_unique (products (shopWith tea)) scenarioCart 1 (-1)).
  by_compute.
Defined.

Lemma filter_other_ids (productId : Z) (l : list CartItem) :
  productId ∉ item_id <$> l → filter (λ i, item_id i ≠ productId) l = l.
Proof.
  intros H. apply filter_all, Forall_forall. intros x Hx Heq. apply H.
  rewrite <- Heq. by apply list_elem_of_fmap_2.
Qed.

Lemma findItem_app_new (productId : Z) (l : list CartItem) (x : CartItem) :
  findItem productId l = None → item_id x = productId →
  findItem productId (l ++ [x]) = Some x.
Proof.
  unfold findItem. induction l as [|y l IH]; simpl.
  - intros _ ->. by rewrite Z.eqb_refl.
  - destruct (item_id y =? productId); [done|]. apply IH.
Qed.

(** X4. A product that is not yet in the cart is added as a line of
    quantity one; the minus button then takes the line out again and
    the cart is as before, when the stored stock is positive. When the
    stored stock is negative the line is added all the same, and the
    minus button answers that the stock is insufficient and leaves the
    line in the cart. *)
Theorem add_then_decrement (products : Table Product) (cart : Cart)
    (productId : Z) (p : Product) :
  tget products productId = Some p →
  findItem productId (items cart) = None →
  let cart1 := (addToCart products cart productId).1 in
  (0 < p_stock p →
   cart1 = mkCart (items cart ++ [newItem productId p]) (fees cart) ∧
   updateCartItemQuantity cart1 productId (-1) = (cart, Silent)) ∧
  (p_stock p < 0 →
   cart1 = mkCart (items cart ++ [newItem productId p]) (fees cart) ∧
   updateCartItemQuantity cart1 productId (-1) = (cart1, InsufficientStock)).
Proof.
  intros Hp Hf. cbv zeta. unfold addToCart. rewrite Hp, Hf.
  assert (Hnew := findItem_app_new productId (items cart) (newItem productId p) Hf eq_refl).
  split; intros Hs.
  - rewrite (proj2 (Z.eqb_neq _ _)) by lia. simpl. split; [done|].
    unfold updateCartItemQuantity. simpl. rewrite Hnew. simpl.
    rewrite (proj2 (Z.ltb_ge _ _)) by lia.
    rewrite filter_app, filter_other_ids by (by apply findItem_None).
    rewrite filter_cons, decide_False by (simpl; lia).
    rewrite filter_nil, app_nil_r. by destruct cart.
  - rewrite (proj2 (Z.eqb_neq _ _)) by lia. simpl. split; [done|].
    unfold updateCartItemQuantity. simpl. rewrite Hnew. simpl.
    by rewrite (proj2 (Z.ltb_lt _ _)) by lia.
Qed.

Lemma add_then_decrement_witness :
  let cart1 := (addToCart (products (shopWith coffee)) emptyCart 1).1 in
  let cart2 := (addToCart (products oversoldDB) emptyCart 1).1 in
  updateCartItemQuantity cart1 1 (-1) = (emptyCart, Silent) ∧
  updateCartItemQuantity cart2 1 (-1) = (cart2, InsufficientStock).
Proof.
  cbv zeta. split.
  - refine (proj2 (proj1 (add_then_decrement (products (shopWith coffee)) emptyCart 1
                            coffee _ _) _)); [reflexivity | reflexivity | simpl; lia].
  - refine (proj2 (proj2 (add_then_decrement (products oversoldDB) emptyCart 1
                            (mkProduct "Teh" (qz 10000) (-1) None now0) _ _) _));
      [by_compute | reflexivity | simpl; lia].
Defined.

(** X5. A cart that has just been given the default fees (a new sale,
    a cleared cart) is left as it is by [reconcileCartFees] over the
    same content of the [fees] store. *)
Theorem fresh_cart_is_reconciled (allFees : list Fee) (cart : Cart) :
  NoDup (fee_id <$> allFees) →
  reconcileCartFees allFees (applyDefaultFees allFees cart)
  = applyDefaultFees allFees cart.
Proof.
  intros Hnd.
  assert (Hfees : fees (reconcileCartFees allFees (applyDefaultFees allFees cart))
                  = fees (applyDefaultFees allFees cart)).
  { rewrite reconcileCartFees_eq by done. cbv zeta. simpl.
    rewrite omap_fixed.
    - rewrite (filter_none (λ d : Fee, fee_isDefault d = true ∧ _));
        [by rewrite app_nil_r|].
      apply Forall_forall. intros d Hd [Hdef Hk]. apply Hk.
      apply elem_of_list_to_set, list_elem_of_fmap_2, list_elem_of_filter.
      split.
      + by rewrite allFeesMap_lookup.
      + by apply list_elem_of_filter.
    - apply Forall_forall. intros x Hx.
      apply list_elem_of_filter in Hx as [_ Hx]. by apply allFeesMap_lookup. }
  unfold reconcileCartFees in *. simpl in *. by rewrite Hfees.
Qed.

Lemma fresh_cart_is_reconciled_witness :
  reconcileCartFees storeFees (applyDefaultFees storeFees cartWithService)
  = applyDefaultFees storeFees cartWithService.
Proof. apply (fresh_cart_is_reconciled storeFees cartWithService). by_compute. Defined.

Lemma lookupRow_upsert_ne {A} (k k' : Z) (v : A) (l : list (Z * A)) :
  k ≠ k' → lookupRow k' (upsert k v l) = lookupRow k' l.
Proof.
  intros Hne. induction l as [|[k0 v0] l IH]; simpl.
  - by rewrite (proj2 (Z.eqb_neq k k')).
  - destruct (k <? k0); simpl; [by rewrite (proj2 (Z.eqb_neq k k'))|].
    destruct (k =? k0) eqn:E; simpl.
    + apply Z.eqb_eq in E. subst k0. by rewrite (proj2 (Z.eqb_neq k k')).
    + by rewrite IH.
Qed.

Lemma updateStock_stock (now : string) (db : ShopDB) (item : CartItem) (k : Z) :
  p_stock <$> tget (products (updateStock now db item)) k
  = (λ p, p_stock p - (if item_id item =? k then item_quantity item else 0))
    <$> tget (products db) k.
Proof.
  unfold updateStock, tget.
  destruct (lookupRow (item_id item) (rows (products db))) as [p|] eqn:Hp.
  - simpl. destruct (item_id item =? k) eqn:E.
    + apply Z.eqb_eq in E. subst k. rewrite lookupRow_upsert, Hp. done.
    + apply Z.eqb_neq in E. rewrite lookupRow_upsert_ne by done.
      destruct (lookupRow k _); simpl; [f_equal; lia | done].
  - destruct (item_id item =? k) eqn:E.
    + apply Z.eqb_eq in E. subst k. by rewrite Hp.
    + destruct (lookupRow k _); simpl; [f_equal; lia | done].
Qed.

Lemma updateStock_fold_stock (now : string) (l : list CartItem) (db : ShopDB) (k : Z) :
  p_stock <$> tget (products (fold_left (updateStock now) l db)) k
  = (λ p, p_stock p - unitsOf k l) <$> tget (products db) k.
Proof.
  revert db. induction l as [|item l IH]; intros db.
  - simpl. destruct (tget _ k); simpl; [f_equal; lia | done].
  - cbn [fold_left]. rewrite IH. unfold fmap at 1, option_fmap, option_map.
    pose proof (updateStock_stock now db item k) as H.
    destruct (tget (products (updateStock now db item)) k) as [p1|];
      destruct (tget (products db) k) as [p0|]; simpl in *; try done.
    injection H as H. f_equal. destruct (item_id item =? k); lia.
Qed.

(** X6. The checkout takes from the stored stock of every product
    exactly the units that the cart holds of it, whatever the stock is:
    a product that is in no line keeps its count, and a product that is
    not in the store is not created. *)
Theorem checkout_stock_ledger (now : string) (cash : option Qc) (cart : Cart)
    (db : ShopDB) (k : Z) :
  p_stock <$> tget (products (completeTransaction now cash cart db).1) k
  = (λ p, p_stock p - unitsOf k (items cart)) <$> tget (products db) k.
Proof.
  unfold completeTransaction, tputNew. cbv zeta iota beta. cbn [fst snd].
  by rewrite updateStock_fold_stock.
Qed.

Lemma updateStock_transactions (now : string) (l : list CartItem) (db : ShopDB) :
  transactions (fold_left (updateStock now) l db) = transactions db.
Proof.
  revert db. induction l as [|item l IH]; intros db; [done|].
  cbn [fold_left]. rewrite IH. unfold updateStock.
  by destruct (tget (products db) (item_id item)).
Qed.

(** X7. The record that the checkout hands to the receipt is the record
    it has stored: it is the new [transactions] row under the key the
    store generated, it reads back unchanged, and no row stored before
    is touched. *)
Theorem checkout_receipt_is_stored (now : string) (cash : option Qc) (cart : Cart)
    (db : ShopDB) :
  let r := completeTransaction now cash cart db in
  r.2.1 = nextKey (transactions db) ∧
  r.2.2 = buildTransaction now cash cart ∧
  tget (transactions r.1) r.2.1 = Some r.2.2 ∧
  ∀ k, k ≠ r.2.1 → tget (transactions r.1) k = tget (transactions db) k.
Proof.
  cbv zeta. unfold completeTransaction, tputNew. cbv zeta iota beta. cbn [fst snd].
  rewrite updateStock_transactions. unfold tget. simpl.
  split; [done|]. split; [done|]. split.
  - apply lookupRow_upsert.
  - intros k Hk. by apply lookupRow_upsert_ne.
Qed.

Lemma updateStock_present (now : string) (db : ShopDB) (item : CartItem) (k : Z) :
  is_Some (tget (products (updateStock now db item)) k)
  ↔ is_Some (tget (products db) k).
Proof.
  pose proof (updateStock_stock now db item k) as H.
  destruct (tget (products (updateStock now db item)) k),
           (tget (products db) k); simpl in H; done.
Qed.

Lemma updateStock_fold_queue (now : string) (l : list CartItem) (db : ShopDB) :
  wfTable (sync_queue db) →
  ∃ updates,
    rows (sync_queue (fold_left (updateStock now) l db))
    = rows (sync_queue db) ++ updates ∧
    (λ kv, (se_action kv.2, payloadKey (se_payload kv.2))) <$> updates
    = (λ i, ("UPDATE_PRODUCT", item_id i))
      <$> filter (λ i, is_Some (tget (products db) (item_id i))) l ∧
    wfTable (sync_queue (fold_left (updateStock now) l db)).
Proof.
  revert db. induction l as [|item l IH]; intros db Hwf.
  - exists []. simpl. by rewrite app_nil_r.
  - cbn [fold_left].
    assert (Hsame : filter (λ i, is_Some (tget (products (updateStock now db item))
                                               (item_id i))) l
                    = filter (λ i, is_Some (tget (products db) (item_id i))) l).
    { apply filter_ext_Forall, Forall_forall. intros i _. apply updateStock_present. }
    rewrite filter_cons.
    destruct (tget (products db) (item_id item)) as [p|] eqn:Hp.
    + rewrite decide_True by eauto.
      assert (Hq := enqueue_appends (sync_queue db)
                      (mkEntry "UPDATE_PRODUCT"
                         (PProduct (item_id item)
                            (mkProduct (p_name p) (p_price p)
                               (p_stock p - item_quantity item)
                               (p_discountPercentage p) now)) now) Hwf).
      destruct Hq as [Hrows Hwf'].
      assert (Hstep : sync_queue (updateStock now db item)
                      = (tputNew (sync_queue db)
                           (mkEntry "UPDATE_PRODUCT"
                              (PProduct (item_id item)
                                 (mkProduct (p_name p) (p_price p)
                                    (p_stock p - item_quantity item)
                                    (p_discountPercentage p) now)) now)).1).
      { unfold updateStock. by rewrite Hp. }
      destruct (IH (updateStock now db item)) as (ups & Hr & Hm & Hw).
      { by rewrite Hstep. }
      eexists (_ :: ups). split; [|split; [|done]].
      * rewrite Hr, Hstep, Hrows, <- app_assoc. reflexivity.
      * rewrite !fmap_cons, Hm, Hsame. reflexivity.
    + rewrite decide_False by (by intros [? ?]).
      assert (Hstep : updateStock now db item = db).
      { unfold updateStock. by rewrite Hp. }
      rewrite Hstep in *. by apply IH.
Qed.

(** X8. The checkout queues its outbox entries behind all the entries
    queued before, in this order: one CREATE_TRANSACTION entry with the
    stored record and its key, then one UPDATE_PRODUCT entry for every
    cart line whose product is in the store, in the order of the lines. *)
Theorem checkout_outbox_order (now : string) (cash : option Qc) (cart : Cart)
    (db : ShopDB) :
  wfTable (sync_queue db) →
  let r := completeTransaction now cash cart db in
  ∃ updates,
    rows (sync_queue r.1)
    = rows (sync_queue db)
      ++ (nextKey (sync_queue db),
          mkEntry "CREATE_TRANSACTION" (PTransaction r.2.1 r.2.2) now)
      :: updates ∧
    (λ kv, (se_action kv.2, payloadKey (se_payload kv.2))) <$> updates
    = (λ i, ("UPDATE_PRODUCT", item_id i))
      <$> filter (λ i, is_Some (tget (products db) (item_id i))) (items cart) ∧
    wfTable (sync_queue r.1).
Proof.
  intros Hwf. cbv zeta.
  set (t := buildTransaction now cash cart).
  set (e := mkEntry "CREATE_TRANSACTION" (PTransaction (nextKey (transactions db)) t) now).
  set (db1 := mkShop (products db) (tputNew (transactions db) t).1
                     (tputNew (sync_queue db) e).1).
  assert (H1 : (completeTransaction now cash cart db).1
               = fold_left (updateStock now) (items cart) db1) by reflexivity.
  assert (H2 : (completeTransaction now cash cart db).2
               = (nextKey (transactions db), t)) by reflexivity.
  rewrite H1, H2. cbn [fst snd]. fold e.
  destruct (enqueue_appends (sync_queue db) e Hwf) as [Hrows Hwf'].
  destruct (updateStock_fold_queue now (items cart) db1) as (ups & Hr & Hm & Hw).
  { exact Hwf'. }
  exists ups. split; [|split; [exact Hm | exact Hw]].
  rewrite Hr. subst db1. cbn [sync_queue]. rewrite Hrows.
  by rewrite <- app_assoc.
Qed.

Lemma checkout_outbox_order_witness :
  let r := completeTransaction now0 (Some (qz 18000)) twoLineCart (shopWith coffee) in
  ∃ updates,
    rows (sync_queue r.1)
    = rows (sync_queue (shopWith coffee))
      ++ (nextKey (sync_queue (shopWith coffee)),
          mkEntry "CREATE_TRANSACTION" (PTransaction r.2.1 r.2.2) now0)
      :: updates ∧
    (λ kv, (se_action kv.2, payloadKey (se_payload kv.2))) <$> updates
    = (λ i, ("UPDATE_PRODUCT", item_id i))
      <$> filter (λ i, is_Some (tget (products (shopWith coffee)) (item_id i)))
                 (items twoLineCart) ∧
    wfTable (sync_queue r.1).
Proof.
  apply (checkout_outbox_order now0 (Some (qz 18000)) twoLineCart (shopWith coffee)).
  split; [reflexivity | exact I].
Defined.




(** ** Schema migration from the versions before 6 *)

(** X14. On a database of version 6 whose settings hold no tax rate, or
    one that is not above zero, the upgrade to version 7 only creates
    the [fees] store, empty; the settings, with a [storePpn] record that
    is there, stay as they are. *)
Theorem upgrade_without_tax (toNumber : string → option Qc) (now : string)
    (d : Sync.DB) :
  "settings" ∈ Sync.objectStoreNames d →
  "fees" ∉ Sync.objectStoreNames d →
  Sync.positive toNumber (Sync.field (Sync.settings d) "storePpn") = false →
  Sync.onupgradeneeded toNumber now 6 d = Some (Sync.createFees d).
Proof.
  intros Hsettings Hfees Hppn.
  assert (Hc1 : Sync.contains (Sync.objectStoreNames d) "fees" = false)
    by (by apply bool_decide_eq_false).
  assert (Hc2 : Sync.contains (Sync.objectStoreNames d ++ ["fees"]) "settings" = true)
    by (apply contains_app_l; by apply bool_decide_eq_true).
  unfold Sync.onupgradeneeded, Sync.guarded. simpl.
  unfold Sync.block7, Sync.unless. simpl. rewrite Hc1. simpl. rewrite Hc2. simpl.
  unfold Sync.movePpn. simpl. unfold Sync.field in Hppn.
  destruct (Sync.settings d !! "storePpn") as [v|]; [|done].
  simpl in Hppn. by rewrite Hppn.
Qed.

Lemma upgrade_without_tax_witness :
  Sync.onupgradeneeded (λ _, None) now0 6 dbVersion6NoTax
  = Some (Sync.createFees dbVersion6NoTax).
Proof.
  apply (upgrade_without_tax (λ _, None) now0 dbVersion6NoTax); by_compute.
Defined.

Lemma setAdd_spec (x : string) (s : list string) :
  NoDup s → NoDup (Sync.setAdd x s) ∧ ∀ n, n ∈ Sync.setAdd x s ↔ n ∈ s ∨ n = x.
Proof.
  intros Hnd. unfold Sync.setAdd. destruct (bool_decide (x ∈ s)) eqn:E.
  - apply bool_decide_eq_true in E. split; [done|]. intros n. split; [by left|].
    intros [?| ->]; done.
  - apply bool_decide_eq_false in E. split.
    + apply NoDup_app. split; [done|]. split; [|apply NoDup_singleton].
      intros y Hy Hy'. apply list_elem_of_singleton in Hy'. by subst.
    + intros n. rewrite elem_of_app, list_elem_of_singleton. done.
Qed.

Lemma collectCategories_spec (l : list (Z * Sync.Rec)) (acc : list string) :
  Forall (λ kv, Sync.truthy (Sync.field kv.2 "category") = true →
                ∃ c, Sync.field kv.2 "category" = Sync.VStr c) l →
  NoDup acc →
  ∃ found, Sync.collectCategories l acc = Some found ∧ NoDup found ∧
    ∀ n, n ∈ found ↔
         n ∈ acc ∨ ∃ kv c, kv ∈ l ∧ Sync.field kv.2 "category" = Sync.VStr c ∧
                           c ≠ "" ∧ n = Sync.trim c.
Proof.
  intros Hall. revert acc. induction Hall as [|[k p] l Hp _ IH]; intros acc Hnd.
  - exists acc. split; [done|]. split; [done|]. intros n. split; [by left|].
    intros [?|(kv & c & Hin & _)]; [done | by apply elem_of_nil in Hin].
  - simpl in *. destruct (Sync.truthy (Sync.field p "category")) eqn:Ht.
    + destruct (Hp eq_refl) as [c Hc]. rewrite Hc in *.
      destruct (setAdd_spec (Sync.trim c) acc Hnd) as [Hnd' Hmem].
      destruct (IH _ Hnd') as (found & Hf & Hndf & Hin).
      exists found. split; [done|]. split; [done|]. intros n. rewrite Hin, Hmem.
      assert (Hne : c ≠ "").
      { intros ->. simpl in Ht. done. }
      split.
      * intros [[?| ->]|(kv & c' & Hkv & ?)]; [by left | |].
        -- right. exists (k, p), c. split; [by left|]. simpl. by rewrite Hc.
        -- right. exists kv, c'. split; [by right | done].
      * intros [?|(kv & c' & Hkv & Hc' & Hne' & ->)]; [by left; left|].
        apply elem_of_cons in Hkv as [->|Hkv].
        -- simpl in Hc'. rewrite Hc in Hc'. injection Hc' as <-. left. by right.
        -- right. exists kv, c'. done.
    + destruct (IH _ Hnd) as (found & Hf & Hndf & Hin).
      exists found. split; [done|]. split; [done|]. intros n. rewrite Hin.
      split.
      * intros [?|(kv & c' & Hkv & ?)]; [by left|].
        right. exists kv, c'. split; [by right | done].
      * intros [?|(kv & c' & Hkv & Hc' & Hne' & ->)]; [by left|].
        apply elem_of_cons in Hkv as [->|Hkv].
        -- simpl in Hc'. rewrite Hc' in Ht. simpl in Ht.
           destruct c'; [done | simpl in Ht; done].
        -- right. exists kv, c'. done.
Qed.

(** When a write is refused: some unique index holds the key of the new
    value already, for a row under another primary key. *)
Lemma violates_true (s : Sync.ObjectStore) (k : Z) (v : Sync.Rec) :
  Sync.violates s k v = true ↔
  ∃ ix row a, (ix, true) ∈ Sync.indexes s ∧ row ∈ rows (Sync.tab s) ∧ row.1 ≠ k ∧
              v !! ix = Some a ∧ row.2 !! ix = Some a ∧ Sync.indexable a = true.
Proof.
  unfold Sync.violates. rewrite existsb_exists. split.
  - intros ([ix u] & Hix & H). simpl in H. apply andb_prop in H as [-> H].
    apply existsb_exists in H as (row & Hrow & H).
    unfold Sync.collides in H. apply andb_prop in H as [Hk H].
    destruct (v !! ix) as [a|] eqn:Ha; [|done].
    destruct (row.2 !! ix) as [b|] eqn:Hb; [|done].
    apply andb_prop in H as [Hi Hab]. apply bool_decide_eq_true in Hab. subst b.
    exists ix, row, a. rewrite <- !list_elem_of_In in *.
    repeat split; try done. apply negb_true_iff in Hk. lia.
  - intros (ix & row & a & Hix & Hrow & Hk & Ha & Hb & Hi).
    exists (ix, true). rewrite <- list_elem_of_In. split; [done|]. simpl.
    apply existsb_exists. exists row. rewrite <- list_elem_of_In. split; [done|].
    unfold Sync.collides. rewrite Ha, Hb, Hi. simpl.
    rewrite bool_decide_eq_true_2 by done.
    rewrite (proj2 (Z.eqb_neq _ _)) by done. done.
Qed.

Lemma violates_name_fresh (s : Sync.ObjectStore) (k : Z) (n : string) (v : Sync.Rec) :
  Sync.indexes s = [("name", true)] →
  v !! "name" = Some (Sync.VStr n) →
  Sync.VStr n ∉ namesOf (rows (Sync.tab s)) →
  Sync.violates s k v = false.
Proof.
  intros Hix Hv Hn. apply not_true_is_false. rewrite violates_true.
  intros (ix & row & a & Hin & Hrow & _ & Ha & Hb & _).
  rewrite Hix in Hin. apply list_elem_of_singleton in Hin. injection Hin as ->.
  rewrite Hv in Ha. injection Ha as <-. apply Hn.
  apply list_elem_of_fmap. exists row. split; [|done].
  unfold Sync.field. by rewrite Hb.
Qed.

Lemma addAll_spec (names : list string) (s : Sync.ObjectStore) :
  Sync.indexes s = [("name", true)] →
  wfTable (Sync.tab s) →
  NoDup names →
  (∀ n, n ∈ names → Sync.VStr n ∉ namesOf (rows (Sync.tab s))) →
  ∃ s', Sync.addAll s names = Some s' ∧
        namesOf (rows (Sync.tab s')) = namesOf (rows (Sync.tab s)) ++ (Sync.VStr <$> names).
Proof.
  revert s. induction names as [|n names IH]; intros s Hix Hwf Hnd Hfresh.
  - exists s. split; [done|]. by rewrite app_nil_r.
  - apply NoDup_cons in Hnd as [Hn Hnd]. cbn [Sync.addAll]. unfold Sync.putNew.
    rewrite (violates_name_fresh s _ n).
    + destruct (enqueue_appends (Sync.tab s) {["name" := Sync.VStr n]} Hwf) as [Hr Hw].
      destruct (IH (Sync.mkStore (tputNew (Sync.tab s) {["name" := Sync.VStr n]}).1
                                 (Sync.indexes s))) as (s' & Hs' & Hnames).
      * done.
      * exact Hw.
      * done.
      * intros m Hm. cbn [Sync.tab]. rewrite Hr. unfold namesOf. rewrite fmap_app.
        rewrite not_elem_of_app. split; [apply Hfresh; by right|].
        simpl. rewrite list_elem_of_singleton. unfold Sync.field.
        rewrite lookup_singleton_eq. simpl. intros [= ->]. done.
      * exists s'. split; [done|]. rewrite Hnames. cbn [Sync.tab]. rewrite Hr.
        unfold namesOf. rewrite fmap_app, <- app_assoc. reflexivity.
    + done.
    + apply lookup_singleton_eq.
    + apply Hfresh. by left.
Qed.

Lemma movePpn_keeps (toNumber : string → option Qc) (now : string) (d : Sync.DB) :
  Sync.indexes (Sync.fees d) = [] →
  ∃ d', Sync.movePpn toNumber now d = Some d' ∧
        Sync.categories d' = Sync.categories d ∧
        Sync.products d' = Sync.products d ∧
        Sync.objectStoreNames d' = Sync.objectStoreNames d.
Proof.
  intros Hix. unfold Sync.movePpn.
  destruct (Sync.settings d !! "storePpn") as [v|]; [|by exists d].
  destruct (Sync.positive toNumber v); [|by exists d].
  unfold Sync.putNew, Sync.violates. rewrite Hix. simpl. eauto.
Qed.

(** X15. The upgrade from version 4 fills the new [categories] store out
    of the products (every category that a product carries is a string,
    or is absent): the upgrade completes, and the category names are
    then, each once, the three default names and the trimmed category of
    every product that has one. The products are left as they were. *)
Theorem upgrade_from_4_populates_categories (toNumber : string → option Qc)
    (now : string) (d : Sync.DB) :
  Sync.objectStoreNames d = version4Stores →
  Forall (λ kv, Sync.truthy (Sync.field kv.2 "category") = true →
                ∃ c, Sync.field kv.2 "category" = Sync.VStr c)
         (rows (Sync.tab (Sync.products d))) →
  ∃ d', Sync.onupgradeneeded toNumber now 4 d = Some d' ∧
        Sync.objectStoreNames d' = version4Stores ++ ["categories"; "sync_queue"; "fees"] ∧
        Sync.products d' = Sync.products d ∧
        NoDup (namesOf (rows (Sync.tab (Sync.categories d')))) ∧
        ∀ n, n ∈ namesOf (rows (Sync.tab (Sync.categories d'))) ↔
             n ∈ [Sync.VStr "Makanan"; Sync.VStr "Minuman"; Sync.VStr "Lainnya"] ∨
             ∃ kv c, kv ∈ rows (Sync.tab (Sync.products d)) ∧
                     Sync.field kv.2 "category" = Sync.VStr c ∧ c ≠ "" ∧
                     n = Sync.VStr (Sync.trim c).
Proof.
  intros Hnames Hcat.
  destruct d as [names ps ts cs0 fs q st ab]. simpl in Hnames, Hcat. subst names.
  destruct (collectCategories_spec _ [] Hcat NoDup_nil_2) as (found & Hfound & Hnd & Hmem).
  set (existing := fold_left (λ s c, Sync.setAdd c s) ["Makanan"; "Minuman"; "Lainnya"] found).
  assert (Hex : NoDup existing ∧
                ∀ n, n ∈ existing ↔ n ∈ found ∨ n ∈ ["Makanan"; "Minuman"; "Lainnya"]).
  { subst existing. simpl.
    destruct (setAdd_spec "Makanan" found Hnd) as [N1 M1].
    destruct (setAdd_spec "Minuman" _ N1) as [N2 M2].
    destruct (setAdd_spec "Lainnya" _ N2) as [N3 M3].
    split; [done|]. intros n. rewrite M3, M2, M1.
    rewrite !elem_of_cons, elem_of_nil. tauto. }
  destruct Hex as [Hexnd Hexmem].
  destruct (addAll_spec existing (Sync.emptyStore [("name", true)])) as (cs & Hcs & Hcsn).
  { done. } { split; [simpl; lia | exact I]. } { done. }
  { intros n _. apply not_elem_of_nil. }
  set (d4 := Sync.mkDB (version4Stores ++ ["categories"; "sync_queue"; "fees"]) ps ts cs
                       (Sync.emptyStore []) emptyTable st ab).
  destruct (movePpn_keeps toNumber now d4 eq_refl) as (d' & Hd' & Hc' & Hp' & Hn').
  exists d'. split.
  - unfold Sync.onupgradeneeded, Sync.guarded. simpl.
    unfold Sync.populateCategories. simpl. unfold tgetAll. simpl. rewrite Hfound.
    change (Sync.addAll _ _)
      with (Sync.addAll (Sync.emptyStore [("name", true)]) existing).
    rewrite Hcs. exact Hd'.
  - rewrite Hn', Hp', Hc'. subst d4. simpl.
    split; [reflexivity|]. split; [reflexivity|].
    rewrite Hcsn. simpl. split.
    + apply NoDup_fmap; [|done]. by intros ?? [=].
    + intros n. rewrite list_elem_of_fmap. split.
      * intros (m & -> & Hm). apply Hexmem in Hm as [Hm|Hm].
        -- apply Hmem in Hm as [Hm|(kv & c & H1 & H2 & H3 & ->)];
             [by apply elem_of_nil in Hm|].
           right. by exists kv, c.
        -- left. by apply (list_elem_of_fmap_2 Sync.VStr) in Hm.
      * intros [Hn|(kv & c & H1 & H2 & H3 & ->)].
        -- change (n ∈ Sync.VStr <$> ["Makanan"; "Minuman"; "Lainnya"]) in Hn.
           apply list_elem_of_fmap in Hn as (m & -> & Hm).
           exists m. split; [done|]. apply Hexmem. by right.
        -- exists (Sync.trim c). split; [done|]. apply Hexmem. left.
           apply Hmem. right. by exists kv, c.
Qed.

Lemma upgrade_from_4_populates_categories_witness :
  ∃ d', Sync.onupgradeneeded (λ _, None) now0 4 dbVersion4 = Some d' ∧
        Sync.objectStoreNames d' = version4Stores ++ ["categories"; "sync_queue"; "fees"] ∧
        Sync.products d' = Sync.products dbVersion4 ∧
        NoDup (namesOf (rows (Sync.tab (Sync.categories d')))) ∧
        ∀ n, n ∈ namesOf (rows (Sync.tab (Sync.categories d'))) ↔
             n ∈ [Sync.VStr "Makanan"; Sync.VStr "Minuman"; Sync.VStr "Lainnya"] ∨
             ∃ kv c, kv ∈ rows (Sync.tab (Sync.products dbVersion4)) ∧
                     Sync.field kv.2 "category" = Sync.VStr c ∧ c ≠ "" ∧
                     n = Sync.VStr (Sync.trim c).
Proof.
  apply (upgrade_from_4_populates_categories (λ _, None) now0 dbVersion4).
  - reflexivity.
  - repeat constructor.
    + intros _. eexists. reflexivity.
    + intros H. vm_compute in H. discriminate.
Defined.

Example upgrade_from_4_run :
  (λ d, namesOf (rows (Sync.tab (Sync.categories d))))
    <$> Sync.onupgradeneeded (λ _, None) now0 4 dbVersion4
  = Some [Sync.VStr "Camilan"; Sync.VStr "Makanan"; Sync.VStr "Minuman";
          Sync.VStr "Lainnya"].
Proof. vm_compute. reflexivity. Qed.

(** ** The sync cycle against the stand-in server *)


Lemma mapGet_absent (n : nat) (l : list (Z * Sync.Rec)) (s : Sync.val) :
  Forall (λ kv, sidOf kv ≠ s) l → Sync.mapGet (entriesFrom n l) s = None.
Proof.
  intros Hall. destruct (Sync.mapGet (entriesFrom n l) s) as [j|] eqn:E; [|done].
  apply mapGet_Some in E as (i & o & _ & Hi & Hs & _).
  apply list_elem_of_lookup_2 in Hi.
  eapply list.Forall_forall in Hall; [|exact Hi]. done.
Qed.

(** X16. The stand-in server offers one category, named Lainnya. While
    the local store holds a category of that name that does not carry
    the server's identity (as after the first start), and the server's
    record is newer than the last sync, the write of the server's
    category is refused by the unique index on the name: the merge
    transaction leaves both stores as they were, and the cycle still
    ends as synced and sets [lastSync]. *)
Theorem pull_blocked_by_category_name (parseDate : string → option Z)
    (api : Z → Sync.Task → Sync.Response) (loadedAt now : string)
    (st : Sync.SyncState) (k : Z) (c : Sync.Rec) :
  Sync.isOnline st = true →
  Sync.isSyncing st = false →
  rows (Sync.sync_queue (Sync.db st)) = [] →
  Sync.newer parseDate (Sync.VStr loadedAt)
    (if Sync.truthy (Sync.field (Sync.settings (Sync.db st)) "lastSync")
     then Sync.field (Sync.settings (Sync.db st)) "lastSync"
     else Sync.VNum (qz 0)) = true →
  ("name", true) ∈ Sync.indexes (Sync.categories (Sync.db st)) →
  wfTable (Sync.tab (Sync.categories (Sync.db st))) →
  (k, c) ∈ rows (Sync.tab (Sync.categories (Sync.db st))) →
  c !! "name" = Some (Sync.VStr "Lainnya") →
  Forall (λ kv, sidOf kv ≠ Sync.VStr "server_cat_201")
         (rows (Sync.tab (Sync.categories (Sync.db st)))) →
  Sync.syncWithServer parseDate api
    (MockServer.mockFetchFromServer parseDate loadedAt) now st
  = (Sync.mkSync true false
       (withSettings (Sync.db st)
          (<["lastSync" := Sync.VStr now]> (Sync.settings (Sync.db st)))),
     [Sync.EvPull (Sync.field (Sync.settings (Sync.db st)) "lastSync")],
     Sync.StSynced).
Proof.
  intros Hon Hidle Hq Hnew Hix Hwf Hrow Hname Hsid.
  unfold Sync.syncWithServer. rewrite Hon, Hidle. simpl. unfold tgetAll.
  rewrite Hq. simpl.
  set (lastSync := default Sync.VUndef (Sync.settings (Sync.db st) !! "lastSync")).
  change (Sync.field (Sync.settings (Sync.db st)) "lastSync") with lastSync in Hnew |- *.
  set (cat := ({[ "serverId" := Sync.VStr "server_cat_201";
                  "name" := Sync.VStr "Lainnya";
                  "updatedAt" := Sync.VStr loadedAt ]} : Sync.Rec)).
  assert (Hfetch : MockServer.mockFetchFromServer parseDate loadedAt lastSync
                   = Sync.mkUpdates [] [cat] [] []).
  { unfold MockServer.mockFetchFromServer, MockServer.mockServerData. simpl.
    fold cat. f_equal. rewrite filter_cons, filter_nil.
    rewrite decide_True; [done|].
    assert (Hf : Sync.field cat "updatedAt" = Sync.VStr loadedAt) by reflexivity.
    by rewrite Hf. }
  rewrite Hfetch.
  assert (Hmerge : Sync.pullMerge parseDate (Sync.mkUpdates [] [cat] [] []) (Sync.db st)
                   = Sync.db st).
  { unfold Sync.pullMerge, Sync.mergeWrites. simpl. unfold tgetAll.
    unfold Sync.localFor. rewrite serverIdEntries_from.
    assert (Hs : Sync.field cat "serverId" = Sync.VStr "server_cat_201") by reflexivity.
    rewrite Hs, mapGet_absent by done.
    unfold Sync.putNew.
    assert (Hv : Sync.violates (Sync.categories (Sync.db st))
                   (nextKey (Sync.tab (Sync.categories (Sync.db st))))
                   (delete "id" cat) = true).
    { apply violates_true. exists "name", (k, c), (Sync.VStr "Lainnya").
      split; [done|]. split; [done|]. split.
      - destruct Hwf as [_ Hb]. apply (between_elem _ _ _ _ Hb) in Hrow. simpl in *. lia.
      - split; [reflexivity|]. done. }
    by rewrite Hv. }
  rewrite Hmerge. unfold withSettings. reflexivity.
Qed.

Lemma pull_blocked_by_category_name_witness :
  Sync.syncWithServer exampleDates flakyApi
    (MockServer.mockFetchFromServer exampleDates now0) "2024-01-02T00:00:00.000Z"
    (Sync.mkSync true false firstStartDB)
  = (Sync.mkSync true false
       (withSettings firstStartDB
          (<["lastSync" := Sync.VStr "2024-01-02T00:00:00.000Z"]>
             (Sync.settings firstStartDB))),
     [Sync.EvPull (Sync.field (Sync.settings firstStartDB) "lastSync")],
     Sync.StSynced).
Proof.
  apply (pull_blocked_by_category_name exampleDates flakyApi now0
           "2024-01-02T00:00:00.000Z" (Sync.mkSync true false firstStartDB)
           3 {[ "name" := Sync.VStr "Lainnya" ]}).
  - reflexivity.
  - reflexivity.
  - reflexivity.
  - vm_compute. reflexivity.
  - simpl. apply list_elem_of_singleton. reflexivity.
  - split; [simpl; lia|]. simpl. lia.
  - simpl. rewrite !elem_of_cons. right. right. by left.
  - reflexivity.
  - repeat constructor; intros H; vm_compute in H; discriminate.
Defined.

Lemma lookupRow_Some_elem {A} (k : Z) (v : A) (l : list (Z * A)) :
  lookupRow k l = Some v → (k, v) ∈ l.
Proof.
  induction l as [|[k' v'] l IH]; simpl; [done|].
  destruct (k' =? k) eqn:E.
  - intros [= ->]. apply Z.eqb_eq in E. subst. by left.
  - intros H. right. by apply IH.
Qed.

Lemma elem_of_upsert {A} (k : Z) (v : A) (l : list (Z * A)) (row : Z * A) :
  row ∈ upsert k v l → row = (k, v) ∨ row ∈ l.
Proof.
  induction l as [|[k' v'] l IH]; simpl.
  - rewrite list_elem_of_singleton. by left.
  - destruct (k <? k').
    + rewrite elem_of_cons. intros [->|H]; [by left | by right].
    + destruct (k =? k').
      * rewrite !elem_of_cons. intros [->|H]; [by left | right; by right].
      * rewrite !elem_of_cons. intros [->|H]; [right; by left|].
        destruct (IH H) as [->|H']; [by left | right; by right].
Qed.

(** Putting a stored value back with another server identity is never
    refused, and the store respects its indexes afterwards. *)
Lemma putAt_serverId (s : Sync.ObjectStore) (k : Z) (item : Sync.Rec) (sid : Sync.val) :
  respectsIndexes s → tget (Sync.tab s) k = Some item →
  ∃ s', Sync.putAt s k (<["serverId" := sid]> item) = Some s' ∧ respectsIndexes s'.
Proof.
  intros [Hok Hno] Hitem.
  assert (Hsame : ∀ ix, (ix, true) ∈ Sync.indexes s →
                        (<["serverId" := sid]> item : Sync.Rec) !! ix = item !! ix).
  { intros ix Hix. apply lookup_insert_ne. intros <-. done. }
  assert (Hfree : Sync.violates s k (<["serverId" := sid]> item) = false).
  { apply not_true_is_false. intros Hv. apply violates_true in Hv
      as (ix & row & a & Hix & Hrow & Hk & Ha & Hb & Hi).
    rewrite Hsame in Ha by done.
    assert (Sync.violates s k item = true); [|by rewrite (Hok k item) in *].
    apply violates_true. by exists ix, row, a. }
  unfold Sync.putAt. rewrite Hfree. eexists. split; [done|].
  split; [|done]. unfold tget. simpl. intros k2 v2 Hk2.
  apply not_true_is_false. intros Hv. apply violates_true in Hv
    as (ix & row & a & Hix & Hrow & Hk & Ha & Hb & Hi). simpl in *.
  apply elem_of_upsert in Hrow.
  destruct (decide (k2 = k)) as [->|Hne].
  - rewrite lookupRow_upsert in Hk2. injection Hk2 as <-.
    destruct Hrow as [->|Hrow]; [done|].
    rewrite Hsame in Ha by done.
    assert (Sync.violates s k item = true); [|by rewrite (Hok k item) in *].
    apply violates_true. by exists ix, row, a.
  - rewrite lookupRow_upsert_ne in Hk2 by done.
    assert (Sync.violates s k2 v2 = true); [|by rewrite (Hok k2 v2) in *].
    apply violates_true. destruct Hrow as [->|Hrow].
    + exists ix, (k, item), a. simpl in *. rewrite Hsame in Hb by done.
      split; [done|]. split; [by apply lookupRow_Some_elem|]. done.
    + by exists ix, row, a.
Qed.

Lemma writeBack_respects (d : Sync.DB) (task : Sync.Task) (r : Sync.Response) :
  storesRespectIndexes d →
  ∃ d1, Sync.writeBack d task r = Some d1 ∧ storesRespectIndexes d1.
Proof.
  intros Hd. unfold Sync.writeBack.
  destruct (_ && _ && _); [|by exists d].
  destruct (Sync.getStore d _) as [s|] eqn:Hs; [|by exists d].
  destruct (Sync.localId r) as [k|]; [|by exists d].
  destruct (tget (Sync.tab s) k) as [item|] eqn:Hitem; [|by exists d].
  destruct Hd as (Hp & Hc & Ht & Hf).
  unfold Sync.getStore in Hs. unfold Sync.setStore.
  destruct (String.eqb _ "products").
  { injection Hs as <-.
    destruct (putAt_serverId _ k item (Sync.serverId r) Hp Hitem) as (s' & -> & Hs').
    eexists. split; [done|]. unfold storesRespectIndexes. simpl. tauto. }
  destruct (String.eqb _ "categories").
  { injection Hs as <-.
    destruct (putAt_serverId _ k item (Sync.serverId r) Hc Hitem) as (s' & -> & Hs').
    eexists. split; [done|]. unfold storesRespectIndexes. simpl. tauto. }
  destruct (String.eqb _ "transactions").
  { injection Hs as <-.
    destruct (putAt_serverId _ k item (Sync.serverId r) Ht Hitem) as (s' & -> & Hs').
    eexists. split; [done|]. unfold storesRespectIndexes. simpl. tauto. }
  destruct (String.eqb _ "fees"); [|done].
  injection Hs as <-.
  destruct (putAt_serverId _ k item (Sync.serverId r) Hf Hitem) as (s' & -> & Hs').
  eexists. split; [done|]. unfold storesRespectIndexes. simpl. tauto.
Qed.

Lemma drain_all_ok (api : Z → Sync.Task → Sync.Response)
    (queue : list (Z * Sync.Task)) (d : Sync.DB) (log : list Sync.SyncEvent) :
  Forall (λ x, Sync.success (api x.1 x.2) = true) queue →
  storesRespectIndexes d →
  ∃ d' log', Sync.drain api d queue log = (d', log', true).
Proof.
  intros Hall. revert d log. induction Hall as [|[taskId task] queue Hx _ IH];
    intros d log Hd; simpl.
  - by exists d, log.
  - simpl in Hx. rewrite Hx.
    destruct (writeBack_respects d task (api taskId task) Hd) as (d1 & -> & Hd1).
    apply IH. exact Hd1.
Qed.

Lemma pullMerge_keeps (parseDate : string → option Z) (u : Sync.ServerUpdates)
    (d : Sync.DB) :
  Sync.sync_queue (Sync.pullMerge parseDate u d) = Sync.sync_queue d ∧
  Sync.settings (Sync.pullMerge parseDate u d) = Sync.settings d.
Proof.
  rewrite pullMerge_eq.
  by destruct (Sync.mergeWrites parseDate u d) as [[ps cs]|].
Qed.

(** X17. When the remote call succeeds for every queued entry, and the
    stores respect their unique indexes, a sync cycle that starts online
    and idle ends as synced: it has pushed every entry once, in queue
    order, and then fetched once; the outbox is empty; and [lastSync] is
    the time of the cycle. *)
Theorem sync_all_acknowledged (parseDate : string → option Z)
    (api : Z → Sync.Task → Sync.Response)
    (mockFetchFromServer : Sync.val → Sync.ServerUpdates) (now : string)
    (st : Sync.SyncState) :
  Sync.isOnline st = true →
  Sync.isSyncing st = false →
  wfTable (Sync.sync_queue (Sync.db st)) →
  storesRespectIndexes (Sync.db st) →
  Forall (λ x, Sync.success (api x.1 x.2) = true)
         (rows (Sync.sync_queue (Sync.db st))) →
  let r := Sync.syncWithServer parseDate api mockFetchFromServer now st in
  r.2 = Sync.StSynced ∧
  r.1.2 = (Sync.EvPush <$> (rows (Sync.sync_queue (Sync.db st))).*1)
          ++ [Sync.EvPull (Sync.field (Sync.settings (Sync.db st)) "lastSync")] ∧
  rows (Sync.sync_queue (Sync.db r.1.1)) = [] ∧
  Sync.settings (Sync.db r.1.1)
  = <["lastSync" := Sync.VStr now]> (Sync.settings (Sync.db st)) ∧
  Sync.isSyncing r.1.1 = false.
Proof.
  intros Hon Hidle Hwf Hstores Hall r. subst r.
  unfold Sync.syncWithServer. rewrite Hon, Hidle. simpl. unfold tgetAll.
  destruct (drain_all_ok api _ (Sync.db st) [] Hall Hstores) as (d1 & log & Hd).
  rewrite Hd.
  apply drain_spec in Hd
    as (pushed & rest & Hsplit & _ & Hrows & Hset & -> & Hok & _).
  rewrite (Hok eq_refl), app_nil_r in Hsplit. subst pushed. rewrite (Hok eq_refl).
  simpl. rewrite app_nil_r.
  destruct (pullMerge_keeps parseDate
              (mockFetchFromServer (default Sync.VUndef (Sync.settings d1 !! "lastSync")))
              d1) as [Hq Hs].
  rewrite Hq, Hs, Hset, Hrows.
  split; [done|]. split; [done|]. split; [|done].
  rewrite <- (app_nil_r (rows (Sync.sync_queue (Sync.db st)))) at 2.
  apply removeRow_prefix. rewrite app_nil_r.
  destruct Hwf as [_ Hb]. by eapply between_NoDup.
Qed.

Lemma sync_all_acknowledged_witness :
  let r := Sync.syncWithServer (λ _, None)
             (λ _ task, Sync.mkResponse true (Sync.VStr "server_1") (Sync.payload_id task))
             nothingNew now0 (Sync.mkSync true false offlineDB) in
  r.2 = Sync.StSynced ∧
  r.1.2 = (Sync.EvPush <$> (rows (Sync.sync_queue offlineDB)).*1)
          ++ [Sync.EvPull (Sync.field (Sync.settings offlineDB) "lastSync")] ∧
  rows (Sync.sync_queue (Sync.db r.1.1)) = [] ∧
  Sync.settings (Sync.db r.1.1)
  = <["lastSync" := Sync.VStr now0]> (Sync.settings offlineDB) ∧
  Sync.isSyncing r.1.1 = false.
Proof.
  apply (sync_all_acknowledged (λ _, None)
           (λ _ task, Sync.mkResponse true (Sync.VStr "server_1") (Sync.payload_id task))
           nothingNew now0 (Sync.mkSync true false offlineDB)).
  - reflexivity.
  - reflexivity.
  - split; [simpl; lia|]. simpl. lia.
  - assert (He : ∀ ixs, respectsIndexes (Sync.emptyStore ixs) ↔ ("serverId", true) ∉ ixs).
    { intros ixs. unfold respectsIndexes. simpl. split; [tauto|]. intros H.
      split; [|done]. unfold tget. simpl. done. }
    split; [|split; [|split]]; simpl; try (apply He; set_solver).
    split; [|set_solver]. intros k v Hk.
    change (lookupRow k [(1, kopi)] = Some v) in Hk. cbn [lookupRow] in Hk.
    destruct (1 =? k) eqn:E; [|done]. apply Z.eqb_eq in E. subst k.
    injection Hk as <-. vm_compute. reflexivity.
  - repeat constructor.
Defined.

(** ** Categories and products *)


Lemma field_Some_str (o : Sync.Rec) (f n : string) :
  Sync.field o f = Sync.VStr n ↔ o !! f = Some (Sync.VStr n).
Proof.
  unfold Sync.field. destruct (o !! f) as [v|]; simpl; [|done].
  split; [by intros -> | by intros [= ->]].
Qed.

Lemma name_taken (s : Sync.ObjectStore) (k : Z) (n : string) (v : Sync.Rec) :
  Sync.indexes s = [("name", true)] →
  wfTable (Sync.tab s) →
  v !! "name" = Some (Sync.VStr n) →
  (Sync.violates s (nextKey (Sync.tab s)) v = true
   ↔ Sync.VStr n ∈ namesOf (rows (Sync.tab s))).
Proof.
  intros Hix [_ Hb] Hv. rewrite violates_true. split.
  - intros (ix & row & a & Hin & Hrow & _ & Ha & Hb' & _).
    rewrite Hix in Hin. apply list_elem_of_singleton in Hin. injection Hin as ->.
    rewrite Hv in Ha. injection Ha as <-.
    apply list_elem_of_fmap. exists row. split; [|done].
    symmetry. by apply field_Some_str.
  - intros Hin. apply list_elem_of_fmap in Hin as (row & Hn & Hrow).
    exists "name", row, (Sync.VStr n). rewrite Hix.
    split; [by apply list_elem_of_singleton|]. split; [done|]. split.
    + apply (between_elem _ _ _ _ Hb) in Hrow. lia.
    + split; [done|]. split; [|done]. by apply field_Some_str.
Qed.

(** X18. [addNewCategory] keeps the category names distinct. It adds
    the trimmed name exactly when that is not empty and no category has
    it yet: the category then is the last row, under the next generated
    key, and one CREATE_CATEGORY entry with that key is queued behind
    the others. In every other case nothing is stored or queued. *)
Theorem add_category_keeps_names_unique (now newCategoryName : string)
    (d : Catalog.DB) :
  Sync.indexes (Catalog.categories d) = [("name", true)] →
  wfTable (Sync.tab (Catalog.categories d)) →
  wfTable (Catalog.sync_queue d) →
  NoDup (namesOf (rows (Sync.tab (Catalog.categories d)))) →
  let name := Sync.trim newCategoryName in
  let r := Catalog.addNewCategory now newCategoryName d in
  NoDup (namesOf (rows (Sync.tab (Catalog.categories r.1)))) ∧
  (r.2 = Catalog.CategoryAdded ↔
   name ≠ "" ∧ Sync.VStr name ∉ namesOf (rows (Sync.tab (Catalog.categories d)))) ∧
  (r.2 ≠ Catalog.CategoryAdded → r.1 = d) ∧
  (r.2 = Catalog.CategoryAdded →
   ∃ c, Sync.field c "name" = Sync.VStr name ∧
        rows (Sync.tab (Catalog.categories r.1))
        = rows (Sync.tab (Catalog.categories d))
          ++ [(nextKey (Sync.tab (Catalog.categories d)), c)] ∧
        rows (Catalog.sync_queue r.1)
        = rows (Catalog.sync_queue d)
          ++ [(nextKey (Catalog.sync_queue d),
               Catalog.mkEntry "CREATE_CATEGORY"
                 (Some (nextKey (Sync.tab (Catalog.categories d)), c)) now)] ∧
        Catalog.products r.1 = Catalog.products d).
Proof.
  intros Hix Hwf Hq Hnd. cbv zeta. unfold Catalog.addNewCategory.
  destruct (String.eqb (Sync.trim newCategoryName) "") eqn:He.
  { apply String.eqb_eq in He. simpl. split; [done|].
    split; [split; [done | tauto]|]. split; [done|]. done. }
  apply String.eqb_neq in He.
  set (name := Sync.trim newCategoryName) in *.
  set (c := ({[ "name" := Sync.VStr name; "createdAt" := Sync.VStr now;
                "updatedAt" := Sync.VStr now ]} : Sync.Rec)).
  assert (Hc : c !! "name" = Some (Sync.VStr name)) by reflexivity.
  pose proof (name_taken (Catalog.categories d) 0 name c Hix Hwf Hc) as Htaken.
  unfold Sync.putNew.
  destruct (Sync.violates _ _ c) eqn:Hv.
  - assert (Hin : Sync.VStr name ∈ namesOf (rows (Sync.tab (Catalog.categories d))))
      by (by apply Htaken).
    simpl. split; [done|]. split; [split; [done | tauto]|]. split; [done|]. done.
  - assert (Hout : Sync.VStr name ∉ namesOf (rows (Sync.tab (Catalog.categories d)))).
    { intros Hin. apply Htaken in Hin. congruence. }
    destruct (enqueue_appends (Sync.tab (Catalog.categories d)) c Hwf) as [Hr _].
    destruct (enqueue_appends (Catalog.sync_queue d)
                (Catalog.mkEntry "CREATE_CATEGORY"
                   (Some (nextKey (Sync.tab (Catalog.categories d)), c)) now) Hq)
      as [Hrq _].
    cbn [fst snd Catalog.queueSyncAction Catalog.categories Catalog.sync_queue
         Catalog.products Sync.tab].
    rewrite Hr. split; [|split; [done|split; [done|]]].
    + unfold namesOf. rewrite fmap_app. apply NoDup_app. split; [done|].
      split; [|apply NoDup_singleton].
      intros n Hn Hn'. apply list_elem_of_singleton in Hn'. simpl in Hn'.
      apply field_Some_str in Hc. rewrite Hc in Hn'. by subst n.
    + intros _. exists c. split; [by apply field_Some_str|]. by rewrite Hrq.
Qed.

Lemma add_category_keeps_names_unique_witness :
  let name := Sync.trim " Makanan " in
  let r := Catalog.addNewCategory now0 " Makanan " smallCatalog in
  NoDup (namesOf (rows (Sync.tab (Catalog.categories r.1)))) ∧
  (r.2 = Catalog.CategoryAdded ↔
   name ≠ "" ∧
   Sync.VStr name ∉ namesOf (rows (Sync.tab (Catalog.categories smallCatalog)))) ∧
  (r.2 ≠ Catalog.CategoryAdded → r.1 = smallCatalog) ∧
  (r.2 = Catalog.CategoryAdded →
   ∃ c, Sync.field c "name" = Sync.VStr name ∧
        rows (Sync.tab (Catalog.categories r.1))
        = rows (Sync.tab (Catalog.categories smallCatalog))
          ++ [(nextKey (Sync.tab (Catalog.categories smallCatalog)), c)] ∧
        rows (Catalog.sync_queue r.1)
        = rows (Catalog.sync_queue smallCatalog)
          ++ [(nextKey (Catalog.sync_queue smallCatalog),
               Catalog.mkEntry "CREATE_CATEGORY"
                 (Some (nextKey (Sync.tab (Catalog.categories smallCatalog)), c)) now0)] ∧
        Catalog.products r.1 = Catalog.products smallCatalog).
Proof.
  apply (add_category_keeps_names_unique now0 " Makanan " smallCatalog).
  - reflexivity.
  - split; [simpl; lia|]. simpl. lia.
  - split; [simpl; lia|]. exact I.
  - by_compute.
Defined.

Example add_category_run :
  (Catalog.addNewCategory now0 " Makanan " smallCatalog).2 = Catalog.CategoryAdded ∧
  (Catalog.addNewCategory now0 "Lainnya  " smallCatalog).2 = Catalog.CategoryAddFailed ∧
  (Catalog.addNewCategory now0 "   " smallCatalog).2 = Catalog.NameEmpty.
Proof. repeat split; vm_compute; reflexivity. Qed.

Lemma removeRow_elem {A} (k : Z) (l : list (Z * A)) (row : Z * A) :
  row ∈ removeRow k l ↔ row ∈ l ∧ row.1 ≠ k.
Proof. unfold removeRow. rewrite list_elem_of_filter. tauto. Qed.

(** X19. [deleteCategory], called for a row of the category list (its
    key and its name), never takes away a category that a product
    names: a category in use is refused, and deleting one that is not in
    use leaves every product with its category in the store. *)
Theorem delete_category_keeps_references (now : string) (id : Z) (name : string)
    (c : Sync.Rec) (d : Catalog.DB) :
  wfTable (Sync.tab (Catalog.categories d)) →
  (id, c) ∈ rows (Sync.tab (Catalog.categories d)) →
  Sync.field c "name" = Sync.VStr name →
  categoriesPresent d →
  categoriesPresent (Catalog.deleteCategory now id name d) ∧
  (Catalog.isUsed name d = true → Catalog.deleteCategory now id name d = d) ∧
  (Catalog.isUsed name d = false →
   tget (Sync.tab (Catalog.categories (Catalog.deleteCategory now id name d))) id
   = None).
Proof.
  intros [_ Hb] Hrow Hname Hpres. unfold Catalog.deleteCategory.
  destruct (Catalog.isUsed name d) eqn:Hused.
  { split; [done|]. split; [done|]. done. }
  split; [|split; [done|]].
  - intros kv c' Hkv Hc' Hne. simpl in *.
    specialize (Hpres kv c' Hkv Hc' Hne).
    apply list_elem_of_fmap in Hpres as (row & Hn & Hin).
    apply list_elem_of_fmap. exists row. split; [done|].
    apply removeRow_elem. split; [done|]. intros Heq.
    assert (row = (id, c)) as ->.
    { eapply key_determines_row; eauto. by eapply between_NoDup. }
    simpl in Hn. rewrite Hname in Hn. injection Hn as ->.
    unfold Catalog.isUsed in Hused.
    assert (existsb (λ p, bool_decide (Sync.field p.2 "category" = Sync.VStr name))
                    (rows (Sync.tab (Catalog.products d))) = true); [|congruence].
    apply existsb_exists. exists kv. rewrite <- list_elem_of_In.
    split; [done|]. by apply bool_decide_eq_true.
  - intros _. simpl. unfold tget. simpl.
    destruct (lookupRow id (removeRow id (rows (Sync.tab (Catalog.categories d)))))
      as [v|] eqn:E; [|done].
    apply lookupRow_Some_elem in E. apply removeRow_elem in E as [_ E]. done.
Qed.

Lemma delete_category_keeps_references_witness :
  categoriesPresent (Catalog.deleteCategory now0 2 "Lainnya" smallCatalog) ∧
  (Catalog.isUsed "Lainnya" smallCatalog = true →
   Catalog.deleteCategory now0 2 "Lainnya" smallCatalog = smallCatalog) ∧
  (Catalog.isUsed "Lainnya" smallCatalog = false →
   tget (Sync.tab (Catalog.categories
                     (Catalog.deleteCategory now0 2 "Lainnya" smallCatalog))) 2
   = None).
Proof.
  apply (delete_category_keeps_references now0 2 "Lainnya"
           {[ "name" := Sync.VStr "Lainnya" ]} smallCatalog).
  - split; [simpl; lia|]. simpl. lia.
  - simpl. rewrite !elem_of_cons. right. by left.
  - reflexivity.
  - intros kv c Hkv Hc _. simpl in Hkv. apply list_elem_of_singleton in Hkv.
    subst kv. vm_compute in Hc. injection Hc as <-.
    simpl. rewrite !elem_of_cons. by left.
Defined.




Example product_writes_run :
  (Catalog.addProduct now0 teaForm Sync.VUndef smallCatalog).2 = Catalog.BarcodeInUse ∧
  (Catalog.updateProduct now0 1 teaForm Sync.VUndef smallCatalog).2
  = Catalog.ProductUpdated.
Proof. split; vm_compute; reflexivity. Qed.

(** ** Export and import *)


Lemma between_app_l {A} (lo hi : Z) (l1 l2 : list (Z * A)) (kv : Z * A) :
  between lo hi (l1 ++ kv :: l2) → between lo kv.1 l1.
Proof.
  revert lo. induction l1 as [|x l1 IH]; intros lo H; [done|].
  simpl in H. destruct H as (H1 & H2 & H3). simpl.
  split; [done|]. split; [|by apply IH].
  assert (Hin : kv ∈ l1 ++ kv :: l2) by (apply elem_of_app; right; by left).
  apply (between_elem _ _ _ _ H3) in Hin. lia.
Qed.

Lemma putAll_None (l : list (Z * Sync.Rec)) :
  fold_left (λ acc r, match acc with
                      | Some s => Sync.putAt s r.1 r.2
                      | None => None
                      end) l None = None.
Proof. induction l; simpl; auto. Qed.

(** Putting the rows of a store, in key order, into a cleared store with
    the same indexes gives the rows back. *)
Lemma putAll_rows (full : Sync.ObjectStore) (lo hi : Z)
    (l acc : list (Z * Sync.Rec)) (nk : Z) :
  rows (Sync.tab full) = acc ++ l →
  between lo hi (acc ++ l) →
  uniqueKept full →
  ∃ nk', Backup.putAll (Sync.mkStore (mkTable acc nk) (Sync.indexes full)) l
         = Some (Sync.mkStore (mkTable (acc ++ l) nk') (Sync.indexes full)).
Proof.
  revert acc nk. induction l as [|[k v] l IH]; intros acc nk Hrows Hb Hu.
  - exists nk. by rewrite app_nil_r.
  - unfold Backup.putAll. cbn [fold_left fst snd]. unfold Sync.putAt.
    assert (Hfree : Sync.violates (Sync.mkStore (mkTable acc nk) (Sync.indexes full)) k v
                    = false).
    { apply not_true_is_false. intros Hv.
      apply violates_true in Hv as (ix & row & a & Hix & Hrow & Hk & Ha & Hb' & Hi).
      simpl in *.
      assert (Sync.violates full k v = true); [|rewrite Hu in *; [done|]].
      - apply violates_true. exists ix, row, a. rewrite Hrows.
        split; [done|]. split; [apply elem_of_app; by left | done].
      - unfold tget. rewrite Hrows. apply (lookupRow_elem lo hi); [done|].
        apply elem_of_app. right. by left. }
    rewrite Hfree. unfold tputAt. simpl.
    rewrite (upsert_end lo k) by (by apply (between_app_l lo hi acc l (k, v)) || lia).
    destruct (IH (acc ++ [(k, v)]) (Z.max nk (k + 1))) as (nk' & Hput).
    + by rewrite <- app_assoc.
    + by rewrite <- app_assoc.
    + done.
    + exists nk'. rewrite <- app_assoc in Hput. exact Hput.
Qed.

Lemma importSettings_list_to_map (l : list (string * Sync.val))
    (m : gmap string Sync.val) :
  NoDup l.*1 →
  fold_left (λ m s, <[s.1 := s.2]> m) l m = list_to_map l ∪ m.
Proof.
  revert m. induction l as [|[k v] l IH]; intros m Hnd.
  - simpl. by rewrite (left_id ∅ (∪)).
  - rewrite fmap_cons in Hnd. apply NoDup_cons in Hnd as [Hk Hnd].
    cbn [fold_left fst snd]. rewrite IH by done. simpl.
    rewrite <- insert_union_l. symmetry. apply insert_union_r.
    by apply not_elem_of_list_to_map_1.
Qed.

Lemma importSettings_export (m m0 : gmap string Sync.val) :
  Backup.importSettings m0 (Some (map_to_list m)) = m.
Proof.
  unfold Backup.importSettings.
  rewrite importSettings_list_to_map by apply NoDup_fst_map_to_list.
  by rewrite list_to_map_to_list, (right_id ∅ (∪)).
Qed.

Lemma importInto_export (full s : Sync.ObjectStore) :
  storeOk full → Sync.indexes s = Sync.indexes full →
  ∃ nk, Backup.importInto s (Some (tgetAll (Sync.tab full)))
        = Some (Sync.mkStore (mkTable (rows (Sync.tab full)) nk) (Sync.indexes full)).
Proof.
  intros [[Hnk Hb] Hu] Hix. unfold Backup.importInto, Backup.clear, tgetAll. simpl.
  rewrite Hix.
  exact (putAll_rows full 0 (nextKey (Sync.tab full)) (rows (Sync.tab full)) []
           (nextKey (Sync.tab s)) eq_refl Hb Hu).
Qed.

Lemma currentStores_contains (d : Sync.DB) (name : string) :
  currentStores d →
  name ∈ ["products"; "transactions"; "settings"; "categories"; "fees";
          "sync_queue"; "auto_backup"] →
  Sync.contains (Sync.objectStoreNames d) name = true.
Proof.
  intros Hc Hn. apply bool_decide_eq_true.
  eapply list.Forall_forall in Hc; [exact Hc | exact Hn].
Qed.

(** X21. Importing the object that [exportData] writes for a database
    puts every record of its products, transactions, categories and fees
    and every setting into the importing database (one of the current
    version with the same indexes), whatever that held before; the
    outbox and the automatic backup of the importing database are
    emptied. *)
Theorem import_restores_export (now : string) (d d' : Sync.DB) :
  currentStores d' → sameIndexes d d' → storesOk d →
  let r := Backup.confirmImport (Backup.exportData now d) d' in
  rows (Sync.tab (Sync.products r)) = rows (Sync.tab (Sync.products d)) ∧
  rows (Sync.tab (Sync.transactions r)) = rows (Sync.tab (Sync.transactions d)) ∧
  rows (Sync.tab (Sync.categories r)) = rows (Sync.tab (Sync.categories d)) ∧
  rows (Sync.tab (Sync.fees r)) = rows (Sync.tab (Sync.fees d)) ∧
  Sync.settings r = Sync.settings d ∧
  rows (Sync.sync_queue r) = [] ∧
  Sync.auto_backup r = ∅.
Proof.
  intros Hcur (Ip & It & Ic & If) (Hp & Ht & Hc & Hf). cbv zeta.
  unfold Backup.confirmImport, Backup.clearAllStores. cbv zeta.
  cbn [Sync.objectStoreNames Sync.products Sync.transactions Sync.categories
       Sync.fees Sync.sync_queue Sync.settings Sync.auto_backup forallb].
  rewrite !(currentStores_contains d') by (done || set_solver).
  cbn [andb].
  unfold Backup.exportData.
  cbn [Backup.data_products Backup.data_transactions Backup.data_categories
       Backup.data_fees Backup.data_settings].
  destruct (importInto_export (Sync.products d) (Backup.clear (Sync.products d')) Hp Ip)
    as (n1 & ->).
  destruct (importInto_export (Sync.transactions d) (Backup.clear (Sync.transactions d'))
              Ht It) as (n2 & ->).
  destruct (importInto_export (Sync.categories d) (Backup.clear (Sync.categories d'))
              Hc Ic) as (n3 & ->).
  destruct (importInto_export (Sync.fees d) (Backup.clear (Sync.fees d')) Hf If)
    as (n4 & ->).
  rewrite importSettings_export. simpl. done.
Qed.

Lemma upsert_elem_new {A} (k : Z) (v : A) (l : list (Z * A)) :
  (k, v) ∈ upsert k v l.
Proof.
  induction l as [|[k' v'] l IH]; simpl; [by left|].
  destruct (k <? k'); [by left|]. destruct (k =? k'); [by left | by right].
Qed.

Lemma upsert_elem_old {A} (k : Z) (v : A) (l : list (Z * A)) (row : Z * A) :
  row ∈ l → row.1 ≠ k → row ∈ upsert k v l.
Proof.
  induction l as [|[k' v'] l IH]; simpl;
    [intros H; by apply elem_of_nil in H|].
  intros Hin Hne. destruct (k <? k'); [by right|].
  destruct (k =? k') eqn:E.
  - apply Z.eqb_eq in E. subst k'. apply elem_of_cons in Hin as [->|Hin]; [done|].
    by right.
  - apply elem_of_cons in Hin as [->|Hin]; [by left|]. right. by apply IH.
Qed.

Lemma putAll_cons (s : Sync.ObjectStore) (r : Z * Sync.Rec) (l : list (Z * Sync.Rec)) :
  Backup.putAll s (r :: l)
  = match Sync.putAt s r.1 r.2 with
    | Some s1 => Backup.putAll s1 l
    | None => None
    end.
Proof.
  unfold Backup.putAll. cbn [fold_left].
  destruct (Sync.putAt s r.1 r.2); [done|]. apply putAll_None.
Qed.

Lemma putAll_invariant (l : list (Z * Sync.Rec)) (s s' : Sync.ObjectStore) :
  Backup.putAll s l = Some s' → NoDup l.*1 → noClash s →
  noClash s' ∧ Sync.indexes s' = Sync.indexes s ∧
  (∀ row, row ∈ l → row ∈ rows (Sync.tab s')) ∧
  (∀ row, row ∈ rows (Sync.tab s) → row.1 ∉ l.*1 → row ∈ rows (Sync.tab s')).
Proof.
  revert s. induction l as [|[k v] l IH]; intros s Hput Hnd Hs.
  - injection Hput as <-. split; [done|]. split; [done|].
    split; [intros row Hr; by apply elem_of_nil in Hr | done].
  - rewrite putAll_cons in Hput. cbn [fst snd] in Hput. unfold Sync.putAt in Hput.
    destruct (Sync.violates s k v) eqn:Hv; [done|].
    rewrite fmap_cons in Hnd. apply NoDup_cons in Hnd as [Hk Hnd].
    apply IH in Hput as (Hc & Hix & Hl & Hold); [|done|].
    + simpl in *. split; [done|]. split; [done|]. split.
      * intros row Hrow. apply elem_of_cons in Hrow as [->|Hrow]; [|by apply Hl].
        apply Hold; [apply upsert_elem_new | done].
      * intros row Hrow Hne. apply not_elem_of_cons in Hne as [Hne1 Hne2].
        apply Hold; [|done].
        by apply upsert_elem_old.
    + intros r1 r2 ix a H1 H2 Hne Hix Ha1 Ha2. simpl in *.
      apply elem_of_upsert in H1. apply elem_of_upsert in H2.
      destruct (Sync.indexable a) eqn:Hi; [exfalso|done].
      destruct H1 as [->|H1], H2 as [->|H2]; simpl in *.
      * done.
      * assert (Sync.violates s k v = true); [|congruence].
        apply violates_true. exists ix, r2, a. repeat split; done.
      * assert (Sync.violates s k v = true); [|congruence].
        apply violates_true. exists ix, r1, a. repeat split; done.
      * by rewrite (Hs r1 r2 ix a) in Hi.
Qed.

(** X22. An import reads a file in which two records of the categories
    bear the same name under different keys. The second of them is
    refused by the unique index on the name, the import transaction is
    undone, and what is left is what [clearAllStores] had already
    committed: every store of the database is empty. *)
Theorem failed_import_leaves_empty (data : Backup.Data) (d : Sync.DB)
    (l : list (Z * Sync.Rec)) (r1 r2 : Z * Sync.Rec) (n : string) :
  currentStores d →
  ("name", true) ∈ Sync.indexes (Sync.categories d) →
  Backup.data_categories data = Some l →
  NoDup l.*1 →
  r1 ∈ l → r2 ∈ l → r1.1 ≠ r2.1 →
  r1.2 !! "name" = Some (Sync.VStr n) → r2.2 !! "name" = Some (Sync.VStr n) →
  let r := Backup.confirmImport data d in
  r = Backup.clearAllStores d ∧
  rows (Sync.tab (Sync.products r)) = [] ∧
  rows (Sync.tab (Sync.transactions r)) = [] ∧
  rows (Sync.tab (Sync.categories r)) = [] ∧
  rows (Sync.tab (Sync.fees r)) = [] ∧
  rows (Sync.sync_queue r) = [] ∧
  Sync.settings r = ∅.
Proof.
  intros Hcur Hix Hdata Hnd H1 H2 Hne Hn1 Hn2. cbv zeta.
  assert (Hfail : Backup.importInto (Sync.categories (Backup.clearAllStores d))
                                    (Backup.data_categories data) = None).
  { rewrite Hdata. unfold Backup.importInto.
    destruct (Backup.putAll _ l) as [s'|] eqn:Hput; [exfalso|done].
    apply putAll_invariant in Hput as (Hc & Hix' & Hl & _); [|done|].
    - assert (Hi : Sync.indexable (Sync.VStr n) = false); [|done].
      apply (Hc r1 r2 "name"); auto.
      rewrite Hix'. unfold Backup.clearAllStores. simpl.
      by destruct (Sync.contains _ _).
    - intros ? ? ? ? Hr. simpl in Hr. by apply elem_of_nil in Hr. }
  assert (Hres : Backup.confirmImport data d = Backup.clearAllStores d).
  { unfold Backup.confirmImport. cbv zeta. rewrite Hfail.
    repeat case_match; done. }
  rewrite Hres. split; [done|].
  unfold Backup.clearAllStores. cbv zeta.
  rewrite !(currentStores_contains d) by (done || set_solver). simpl. done.
Qed.

Lemma uniqueKept_rows (s : Sync.ObjectStore) :
  Forall (λ kv, Sync.violates s kv.1 kv.2 = false) (rows (Sync.tab s)) →
  uniqueKept s.
Proof.
  intros Hall k v Hk. apply lookupRow_Some_elem in Hk.
  eapply list.Forall_forall in Hall; [|exact Hk]. done.
Qed.

Lemma import_restores_export_witness :
  let r := Backup.confirmImport (Backup.exportData now0 syncedDB) offlineDB in
  rows (Sync.tab (Sync.products r)) = rows (Sync.tab (Sync.products syncedDB)) ∧
  rows (Sync.tab (Sync.transactions r)) = rows (Sync.tab (Sync.transactions syncedDB)) ∧
  rows (Sync.tab (Sync.categories r)) = rows (Sync.tab (Sync.categories syncedDB)) ∧
  rows (Sync.tab (Sync.fees r)) = rows (Sync.tab (Sync.fees syncedDB)) ∧
  Sync.settings r = Sync.settings syncedDB ∧
  rows (Sync.sync_queue r) = [] ∧
  Sync.auto_backup r = ∅.
Proof.
  apply (import_restores_export now0 syncedDB offlineDB).
  - by_compute.
  - repeat split.
  - repeat split; try (simpl; lia); try (apply uniqueKept_rows; by_compute).
Defined.

Lemma failed_import_leaves_empty_witness :
  let r := Backup.confirmImport clashingFile syncedDB in
  r = Backup.clearAllStores syncedDB ∧
  rows (Sync.tab (Sync.products r)) = [] ∧
  rows (Sync.tab (Sync.transactions r)) = [] ∧
  rows (Sync.tab (Sync.categories r)) = [] ∧
  rows (Sync.tab (Sync.fees r)) = [] ∧
  rows (Sync.sync_queue r) = [] ∧
  Sync.settings r = ∅.
Proof.
  apply (failed_import_leaves_empty clashingFile syncedDB
           [(1, {[ "name" := Sync.VStr "Minuman" ]});
            (2, {[ "name" := Sync.VStr "Minuman" ]})]
           (1, {[ "name" := Sync.VStr "Minuman" ]})
           (2, {[ "name" := Sync.VStr "Minuman" ]}) "Minuman").
  - by_compute.
  - simpl. by apply list_elem_of_singleton.
  - reflexivity.
  - by_compute.
  - by left.
  - right. by left.
  - simpl. lia.
  - reflexivity.
  - reflexivity.
Defined.

(** ** The report summary *)






Example report_run :
  let s := Report.displayReportSummary
             [buildTransaction now0 (Some (qz 20000)) scenarioCart]
             [Report.mkProduct 1 (Some (qz 6000))] in
  (Report.omzet s, Report.hpp s, Report.totalOperationalCost s, Report.netProfit s,
   Report.average s)
  = (qz 18000, qz 12000, qz 1800, qz 4200, qz 18000).
Proof. by_compute. Qed.

(** ** Texts of the receipt and of the report file *)

Section ReceiptTexts.
Import Stdlib.Strings.Ascii.

Example wrapText_run :
  Receipt.wrapText 40 "Jl. Merdeka  No. 1234567890123 Bandung" 10
  = Some ["Jl."; "Merdeka"; "No."; "1234567890"; "123"; "Bandung"].
Proof. vm_compute. reflexivity. Qed.

Lemma length_sliceTo (n : nat) (s : string) :
  String.length (Receipt.sliceTo n s) = (n `min` String.length s)%nat.
Proof.
  revert s. induction n as [|n IH]; intros [|c s]; simpl; try done.
  by rewrite IH.
Qed.

Lemma length_sliceFrom (n : nat) (s : string) :
  String.length (Receipt.sliceFrom n s) = (String.length s - n)%nat.
Proof.
  revert s. induction n as [|n IH]; intros [|c s]; simpl; try done.
Qed.

Lemma length_rev_app (s acc : string) :
  String.length (String.rev_app s acc) = (String.length s + String.length acc)%nat.
Proof.
  revert acc. induction s as [|c s IH]; intros acc; simpl; [done|].
  rewrite IH. simpl. lia.
Qed.

Lemma length_trimStart (s : string) :
  (String.length (Sync.trimStart s) ≤ String.length s)%nat.
Proof.
  induction s as [|c s IH]; simpl; [done|].
  destruct (Ascii.is_space c); simpl; lia.
Qed.

Lemma length_trim (s : string) :
  (String.length (Sync.trim s) ≤ String.length s)%nat.
Proof.
  unfold Sync.trim, String.rev. rewrite length_rev_app. simpl.
  pose proof (length_trimStart (String.rev_app (Sync.trimStart s) "")) as H1.
  rewrite length_rev_app in H1. simpl in H1.
  pose proof (length_trimStart s). lia.
Qed.

Lemma split_lengths (c : ascii) (s : string) :
  Forall (λ w, (String.length w ≤ String.length s)%nat) (Receipt.split c s).
Proof.
  induction s as [|x s IH]; simpl; [constructor; [done | constructor]|].
  destruct (Ascii.eqb x c).
  - constructor; [simpl; lia|]. eapply Forall_impl; [exact IH|]. simpl. lia.
  - destruct (Receipt.split c s) as [|w ws].
    + constructor; [simpl; lia | constructor].
    + inversion IH as [|? ? Hw Hws]; subst. constructor; [simpl; lia|].
      eapply Forall_impl; [exact Hws|]. simpl. lia.
Qed.

Lemma breakWord_fits (fuel maxWidth : nat) (word : string) (lines : list string) :
  (0 < maxWidth)%nat → (String.length word ≤ fuel)%nat →
  Forall (fits maxWidth) lines →
  ∃ lines' rest, Receipt.breakWord fuel maxWidth word lines = Some (lines', rest) ∧
                 Forall (fits maxWidth) lines' ∧
                 (String.length rest ≤ maxWidth)%nat.
Proof.
  intros Hw. revert word lines. induction fuel as [|fuel IH]; intros word lines Hf Hl.
  - simpl. destruct (maxWidth <? String.length word)%nat eqn:E.
    + apply Nat.ltb_lt in E. lia.
    + exists lines, word. split; [done|]. split; [done|]. lia.
  - simpl. destruct (maxWidth <? String.length word)%nat eqn:E.
    + apply Nat.ltb_lt in E. apply IH.
      * rewrite length_sliceFrom. lia.
      * apply Forall_app. split; [done|]. constructor; [|constructor].
        unfold fits. rewrite length_sliceTo. lia.
    + apply Nat.ltb_ge in E. exists lines, word. done.
Qed.

Lemma wrapWord_fits (fuel maxWidth : nat) (lines : list string) (currentLine word : string) :
  (0 < maxWidth)%nat → (String.length word ≤ fuel)%nat →
  Forall (fits maxWidth) lines → (String.length currentLine ≤ maxWidth)%nat →
  ∃ lines' rest,
    Receipt.wrapWord fuel maxWidth (Some (lines, currentLine)) word
    = Some (lines', rest) ∧
    Forall (fits maxWidth) lines' ∧ (String.length rest ≤ maxWidth)%nat.
Proof.
  intros Hw Hf Hl Hc. unfold Receipt.wrapWord.
  destruct (maxWidth <? String.length word)%nat eqn:E.
  - destruct (0 <? String.length currentLine)%nat eqn:E0.
    + apply Nat.ltb_lt in E0. apply breakWord_fits; [done | done |].
      apply Forall_app. split; [done|]. constructor; [|constructor]. split; lia.
    + by apply breakWord_fits.
  - apply Nat.ltb_ge in E.
    destruct (String.length (Sync.trim (currentLine +:+ " " +:+ word)) <=? maxWidth)%nat
      eqn:Ej.
    + apply Nat.leb_le in Ej. eauto.
    + apply Nat.leb_gt in Ej. exists (lines ++ [currentLine]), word.
      split; [done|]. split; [|done].
      apply Forall_app. split; [done|]. constructor; [|constructor].
      split; [|done]. destruct currentLine as [|c r]; [|simpl; lia].
      exfalso. change (Sync.trim ("" +:+ " " +:+ word)) with (Sync.trim word) in Ej.
      pose proof (length_trim word). lia.
Qed.

Lemma wrapWords_fit (fuel maxWidth : nat) (words : list string)
    (lines : list string) (currentLine : string) :
  (0 < maxWidth)%nat →
  Forall (λ w, (String.length w ≤ fuel)%nat) words →
  Forall (fits maxWidth) lines → (String.length currentLine ≤ maxWidth)%nat →
  ∃ lines' rest,
    fold_left (Receipt.wrapWord fuel maxWidth) words (Some (lines, currentLine))
    = Some (lines', rest) ∧
    Forall (fits maxWidth) lines' ∧ (String.length rest ≤ maxWidth)%nat.
Proof.
  intros Hw Hall. revert lines currentLine.
  induction Hall as [|w words Hf _ IH]; intros lines currentLine Hl Hc.
  - by exists lines, currentLine.
  - cbn [fold_left].
    destruct (wrapWord_fits fuel maxWidth lines currentLine w Hw Hf Hl Hc)
      as (l1 & r1 & -> & Hl1 & Hr1).
    by apply IH.
Qed.

(** X24. For a width above zero [wrapText] returns (a number of turns
    of its inner loop up to the length of the text is enough), and every
    line it returns is not empty and not longer than the width. *)
Theorem wrap_lines_fit (fuel : nat) (text : string) (maxWidth : nat) :
  (0 < maxWidth)%nat → (String.length text ≤ fuel)%nat →
  ∃ lines, Receipt.wrapText fuel text maxWidth = Some lines ∧
           Forall (λ line, (0 < String.length line ≤ maxWidth)%nat) lines.
Proof.
  intros Hw Hf. unfold Receipt.wrapText.
  destruct (String.eqb text ""); [by exists []|].
  destruct (wrapWords_fit fuel maxWidth (Receipt.split " " text) [] "")
    as (lines & rest & -> & Hl & Hr); [done | | done | simpl; lia |].
  { eapply Forall_impl; [apply split_lengths|]. simpl. lia. }
  destruct (String.eqb rest "") eqn:E; [by exists lines|].
  exists (lines ++ [rest]). split; [done|].
  apply Forall_app. split; [done|]. constructor; [|constructor].
  split; [|done]. destruct rest; [done | simpl; lia].
Qed.

Lemma wrap_lines_fit_witness :
  ∃ lines, Receipt.wrapText 40 "Jl. Merdeka  No. 1234567890123 Bandung" 10
           = Some lines ∧
           Forall (λ line, (0 < String.length line ≤ 10)%nat) lines.
Proof.
  apply (wrap_lines_fit 40 "Jl. Merdeka  No. 1234567890123 Bandung" 10);
    simpl; lia.
Defined.

Lemma breakWord_zero (fuel : nat) (word : string) (lines : list string) :
  word ≠ "" → Receipt.breakWord fuel 0 word lines = None.
Proof.
  intros Hne. revert lines. induction fuel as [|fuel IH]; intros lines;
    (destruct word as [|c r]; [done|]); [done|].
  simpl. apply IH.
Qed.

Lemma wrapWords_None (fuel maxWidth : nat) (words : list string) :
  fold_left (Receipt.wrapWord fuel maxWidth) words None = None.
Proof. induction words; simpl; auto. Qed.

(** X25. With the width zero [wrapText] never returns for a text that
    has a word (a stretch without blanks that is not empty): its inner
    loop cuts nothing off the word, so no number of turns ends it. *)
Theorem wrap_zero_width_never_returns (fuel : nat) (text word : string) :
  word ∈ Receipt.split " " text → word ≠ "" →
  Receipt.wrapText fuel text 0 = None.
Proof.
  intros Hin Hne. unfold Receipt.wrapText.
  destruct (String.eqb text "") eqn:E.
  { apply String.eqb_eq in E. subst text. simpl in Hin.
    apply list_elem_of_singleton in Hin. done. }
  assert (H : ∀ words st, word ∈ words →
                fold_left (Receipt.wrapWord fuel 0) words st = None).
  { induction words as [|w words IH]; intros st Hw; [by apply elem_of_nil in Hw|].
    cbn [fold_left]. apply elem_of_cons in Hw as [<-|Hw]; [|by apply IH].
    assert (Receipt.wrapWord fuel 0 st word = None) as ->; [|apply wrapWords_None].
    destruct st as [[lines cur]|]; [|done]. unfold Receipt.wrapWord.
    destruct word as [|c r]; [done|]. simpl.
    destruct (0 <? String.length cur)%nat; by apply breakWord_zero. }
  by rewrite H.
Qed.

Lemma wrap_zero_width_never_returns_witness :
  Receipt.wrapText 1000 "Toko Maju" 0 = None.
Proof.
  apply (wrap_zero_width_never_returns 1000 "Toko Maju" "Toko").
  - by left.
  - done.
Defined.

Lemma includes_app (d : ascii) (a b : string) :
  Receipt.includes d (a +:+ b) = Receipt.includes d a || Receipt.includes d b.
Proof.
  induction a as [|x a IH]; simpl; [done|]. rewrite IH. by rewrite orb_assoc.
Qed.

Lemma includes_replaceAll (d c : ascii) (by_ s : string) :
  Receipt.includes d (Receipt.replaceAll c by_ s)
  = (negb (Ascii.eqb d c) && Receipt.includes d s)
    || (Receipt.includes d by_ && Receipt.includes c s).
Proof.
  induction s as [|x s IH]; simpl.
  - by rewrite !andb_false_r.
  - destruct (Ascii.eqb x c) eqn:Exc.
    + apply Ascii.eqb_eq in Exc. subst x. rewrite includes_app, IH. simpl.
      rewrite (Ascii.eqb_sym c d).
      destruct (Ascii.eqb d c), (Receipt.includes d by_), (Receipt.includes d s),
               (Receipt.includes c s); done.
    + simpl. rewrite IH.
      destruct (Ascii.eqb x d) eqn:Exd.
      * apply Ascii.eqb_eq in Exd. subst x. rewrite Exc. simpl.
        by destruct (Receipt.includes d by_ && Receipt.includes c s).
      * simpl. done.
Qed.

(** X26. The text that [escapeHtml] returns for a string holds none of
    the characters '<', '>', the double quote and the apostrophe; a
    string that holds none of these and no '&' comes back as it is. *)
Theorem escape_html_no_markup (s : string) :
  ∃ t, Receipt.escapeHtml (Sync.VStr s) = Sync.VStr t ∧
       Receipt.includes "<" t = false ∧ Receipt.includes ">" t = false ∧
       Receipt.includes Receipt.dquote t = false ∧ Receipt.includes "'" t = false ∧
       (Receipt.includes "&" s || Receipt.includes "<" s || Receipt.includes ">" s
        || Receipt.includes Receipt.dquote s || Receipt.includes "'" s = false →
        t = s).
Proof.
  eexists. split; [reflexivity|].
  rewrite !includes_replaceAll.
  set (a := Receipt.includes "&" s). set (l := Receipt.includes "<" s).
  set (g := Receipt.includes ">" s). set (q := Receipt.includes Receipt.dquote s).
  set (p := Receipt.includes "'" s).
  split; [|split; [|split; [|split]]].
  - clearbody a l g q p. vm_compute. by destruct a, l, g, q, p.
  - clearbody a l g q p. vm_compute. by destruct a, l, g, q, p.
  - clearbody a l g q p. vm_compute. by destruct a, l, g, q, p.
  - clearbody a l g q p. vm_compute. by destruct a, l, g, q, p.
  - intros H. repeat (apply orb_false_elim in H as [H ?]). subst a l g q p.
    assert (Hid : ∀ c b u, Receipt.includes c u = false → Receipt.replaceAll c b u = u).
    { intros c b u. induction u as [|x u IH]; simpl; [done|].
      destruct (Ascii.eqb x c); simpl; [done|]. intros Hu. by rewrite IH. }
    rewrite (Hid "&"%char) by done. rewrite (Hid "<"%char) by done.
    rewrite (Hid ">"%char) by done. rewrite (Hid Receipt.dquote) by done.
    by rewrite (Hid "'"%char).
Qed.

Example escape_html_run :
  Receipt.escapeHtml (Sync.VStr "Kopi <b> & 'Teh'")
  = Sync.VStr "Kopi &lt;b&gt; &amp; &#039;Teh&#039;".
Proof. reflexivity. Qed.

Lemma append_inj_r (a b c : string) : a +:+ c = b +:+ c → a = b.
Proof.
  revert b. induction a as [|x a IH]; intros [|y b] H; simpl in H.
  - done.
  - exfalso. apply (f_equal String.length) in H. simpl in H.
    assert (Hl : ∀ u v, String.length (u +:+ v) = (String.length u + String.length v)%nat).
    { intros u v. induction u as [|? u IHu]; simpl; [done | by rewrite IHu]. }
    rewrite !Hl in H. simpl in H. lia.
  - exfalso. apply (f_equal String.length) in H. simpl in H.
    assert (Hl : ∀ u v, String.length (u +:+ v) = (String.length u + String.length v)%nat).
    { intros u v. induction u as [|? u IHu]; simpl; [done | by rewrite IHu]. }
    rewrite !Hl in H. simpl in H. lia.
  - injection H as -> H. f_equal. by apply IH.
Qed.

Lemma doubleQuotes_inj (a b : string) :
  Receipt.replaceAll Receipt.dquote (String Receipt.dquote (String Receipt.dquote "")) a
  = Receipt.replaceAll Receipt.dquote (String Receipt.dquote (String Receipt.dquote "")) b →
  a = b.
Proof.
  revert b. induction a as [|x a IH]; intros [|y b]; simpl.
  - done.
  - destruct (Ascii.eqb y Receipt.dquote); done.
  - destruct (Ascii.eqb x Receipt.dquote); done.
  - destruct (Ascii.eqb x Receipt.dquote) eqn:Ex, (Ascii.eqb y Receipt.dquote) eqn:Ey;
      simpl.
    + apply Ascii.eqb_eq in Ex, Ey. subst. intros [= H]. f_equal. by apply IH.
    + intros [= <- _]. by rewrite Ascii.eqb_refl in Ey.
    + intros [= -> _]. by rewrite Ascii.eqb_refl in Ex.
    + intros [= -> H]. f_equal. by apply IH.
Qed.

(** X27. The cell that [escapeCSV] writes for a text determines the
    text: two different texts never give the same cell. A text without
    comma, double quote and line feed is its own cell; any other is put
    between double quotes. *)
Theorem escape_csv_injective (a b : string) :
  (Receipt.escapeCSV (Some a) = Receipt.escapeCSV (Some b) → a = b) ∧
  (Receipt.includes "," a || Receipt.includes Receipt.dquote a
   || Receipt.includes "010" a = false → Receipt.escapeCSV (Some a) = a) ∧
  (Receipt.includes "," a || Receipt.includes Receipt.dquote a
   || Receipt.includes "010" a = true →
   ∃ inner, Receipt.escapeCSV (Some a)
            = String Receipt.dquote (inner +:+ String Receipt.dquote "")).
Proof.
  split; [|split].
  - unfold Receipt.escapeCSV.
    destruct (_ || _ || _) eqn:Ea; destruct (_ || _ || Receipt.includes "010" b) eqn:Eb.
    + intros [= H]. apply append_inj_r in H. by apply doubleQuotes_inj.
    + intros <-. simpl in Eb. by rewrite orb_true_r in Eb.
    + intros ->. simpl in Ea. by rewrite orb_true_r in Ea.
    + done.
  - unfold Receipt.escapeCSV. by intros ->.
  - unfold Receipt.escapeCSV. intros ->. eauto.
Qed.

Example escape_csv_run :
  Receipt.escapeCSV (Some "Kopi, panas")
  = String Receipt.dquote ("Kopi, panas" +:+ String Receipt.dquote "") ∧
  Receipt.escapeCSV (Some "Teh") = "Teh" ∧
  Receipt.escapeCSV None = "".
Proof. repeat split. Qed.

Lemma escape_html_no_markup_witness :
  Receipt.escapeHtml (Sync.VStr "Kopi Susu") = Sync.VStr "Kopi Susu".
Proof.
  destruct (escape_html_no_markup "Kopi Susu") as (t & Ht & _ & _ & _ & _ & Hsame).
  rewrite Ht. f_equal. apply Hsame. reflexivity.
Defined.

Lemma escape_csv_injective_witness :
  "Kopi, panas" = "Kopi, panas" ∧
  Receipt.escapeCSV (Some "Kopi") = "Kopi" ∧
  ∃ inner, Receipt.escapeCSV (Some "Kopi, panas")
           = String Receipt.dquote (inner +:+ String Receipt.dquote "").
Proof.
  split; [|split].
  - apply (proj1 (escape_csv_injective "Kopi, panas" "Kopi, panas")). reflexivity.
  - apply (proj1 (proj2 (escape_csv_injective "Kopi" "Kopi"))). reflexivity.
  - apply (proj2 (proj2 (escape_csv_injective "Kopi, panas" "Kopi"))). reflexivity.
Defined.

End ReceiptTexts.

(** ** The kiosk mode *)



(** X29. A PIN of four characters saved by the dialog starts the kiosk
    mode, and typing those four characters on the PIN pad ends it: the
    mode is off, the stored flag is false, the PIN stays saved and the
    input is empty again. *)
Theorem kiosk_saved_pin_exits (c1 c2 c3 c4 : Ascii.ascii) (k : Kiosk.State) :
  let pin := String c1 (String c2 (String c3 (String c4 ""))) in
  let k1 := (Kiosk.saveKioskPinAndActivate pin pin k).1 in
  let k2 := fold_left Kiosk.step
              [Kiosk.KeyPress (String c1 ""); Kiosk.KeyPress (String c2 "");
               Kiosk.KeyPress (String c3 ""); Kiosk.KeyPress (String c4 "")]
              (Kiosk.showEnterKioskPinModal k1) in
  Kiosk.isKioskModeActive k1 = true ∧
  Kiosk.settings k1 !! "kioskPin" = Some (Sync.VStr pin) ∧
  Kiosk.isKioskModeActive k2 = false ∧
  Kiosk.settings k2 !! "kioskModeEnabled" = Some (Sync.VBool false) ∧
  Kiosk.settings k2 !! "kioskPin" = Some (Sync.VStr pin) ∧
  Kiosk.currentPinInput k2 = "".
Proof.
  intros pin k1 k2.
  assert (Hkey : ∀ c, String.eqb (String c "") "backspace" = false ∧
                      String.eqb (String c "") "clear" = false).
  { intros c. simpl. split; by case_match. }
  assert (E1 : Kiosk.saveKioskPinAndActivate pin pin k
               = (Kiosk.mkState (Kiosk.currentPinInput k) true
                    (<["kioskModeEnabled" := Sync.VBool true]>
                       (<["kioskPin" := Sync.VStr pin]> (Kiosk.settings k)))
                    true (Kiosk.kioskPinError k) (Kiosk.enterKioskPinModal k) false
                    (Kiosk.pendingResets k), Kiosk.Activated)).
  { unfold Kiosk.saveKioskPinAndActivate. subst pin.
    change (String.length _ =? 4)%nat with true. cbn [negb].
    by rewrite String.eqb_refl. }
  assert (Hpin1 : Kiosk.settings k1 !! "kioskPin" = Some (Sync.VStr pin)).
  { subst k1. rewrite E1. simpl. rewrite lookup_insert_ne by done.
    by rewrite lookup_insert_eq. }
  split; [by subst k1; rewrite E1|]. split; [exact Hpin1|].
  set (k0 := Kiosk.showEnterKioskPinModal k1) in *.
  assert (Hfirst : ∀ c s st, (String.length s < 3)%nat →
    Kiosk.currentPinInput st = s →
    Kiosk.handlePinKeyPress (String c "") st
    = Kiosk.mkState (s +:+ String c "") (Kiosk.isKioskModeActive st)
        (Kiosk.settings st) (Kiosk.kioskModeToggle st) ""
        (Kiosk.enterKioskPinModal st) (Kiosk.setKioskPinModal st)
        (Kiosk.pendingResets st)).
  { intros c s st Hl Hs. unfold Kiosk.handlePinKeyPress. cbv zeta.
    destruct (Hkey c) as [-> ->]. rewrite Hs.
    replace (String.length s <? 4)%nat with true
      by (symmetry; apply Nat.ltb_lt; lia).
    replace (String.length (s +:+ String c "") =? 4)%nat with false; [done|].
    symmetry. apply Nat.eqb_neq.
    destruct s as [|a [|b [|d s]]]; simpl in *; lia. }
  subst k2. cbn [fold_left Kiosk.step].
  rewrite (Hfirst c1 "" k0) by (done || simpl; lia).
  rewrite (Hfirst c2 (String c1 "")) by (done || simpl; lia).
  rewrite (Hfirst c3 (String c1 (String c2 ""))) by (done || simpl; lia).
  unfold Kiosk.handlePinKeyPress. cbv zeta.
  destruct (Hkey c4) as [-> ->]. simpl.
  unfold Kiosk.checkKioskPin. simpl. unfold Sync.field.
  rewrite Hpin1. simpl.
  rewrite bool_decide_eq_true_2 by done. simpl.
  rewrite lookup_insert_eq, lookup_insert_ne by done. by rewrite Hpin1.
Qed.

Example kiosk_run :
  (Kiosk.saveKioskPinAndActivate "12" "12" noKiosk).2 = Kiosk.PinLength ∧
  (Kiosk.saveKioskPinAndActivate "1234" "1243" noKiosk).2 = Kiosk.PinMismatch ∧
  (Kiosk.saveKioskPinAndActivate "1234" "1234" noKiosk).2 = Kiosk.Activated ∧
  Kiosk.isKioskModeActive (Kiosk.handlePinKeyPress "4" kiosk1234) = false ∧
  Kiosk.isKioskModeActive (Kiosk.handlePinKeyPress "5" kiosk1234) = true ∧
  Kiosk.kioskPinError (Kiosk.handlePinKeyPress "5" kiosk1234) = "PIN Salah" ∧
  Kiosk.currentPinInput
    (Kiosk.pinResetTimeout (Kiosk.handlePinKeyPress "5" kiosk1234)) = "".
Proof. by vm_compute. Qed.
